(** * aeo-sota-engine: analysis worker and AI service

    A shallow embedding of
      - [src/utils/analysis.worker.ts]: [tokenize], the [ANALYZE_HEALTH]
        scorer and the [BUILD_MESH] mapper of [self.onmessage];
      - [src/services/aiService.ts]: [validateAndSanitizeLinks],
        [forceHtmlStructure], [parseAIResponse], [extractTopKeywords],
        [callOpenAICompatible] and the retry loop of
        [analyzeAndGenerateAssets].

    The code is text processing with JavaScript regular expressions, so the
    development starts with the string built-ins and a backtracking matcher
    in the style of the ECMAScript specification (continuation passing,
    priority order, lazy and greedy quantifiers, captures, backreferences),
    and embeds every regular expression of the source as a term of the
    [regex] type.

    Strings are [string]: sequences of 8-bit code units, read as the code
    units below 256 (Latin-1) of a JavaScript string. *)

From Stdlib Require Import Bool Arith NArith ZArith List Ascii String Lia Permutation.
From Stdlib Require Import Sorting.Sorted DecimalString.
From Corelib Require Import PrimFloat.
Import ListNotations.

Local Open Scope string_scope.
Local Open Scope list_scope.
Local Open Scope nat_scope.

(** ** JavaScript string built-ins *)

Module JsString.

Definition code (c : ascii) : N := N_of_ascii c.

Definition between (lo hi n : N) : bool := ((lo <=? n) && (n <=? hi))%N.

(** LineTerminator: LF, CR (U+2028 and U+2029 are outside the code units
    modelled). *)
Definition isLineTerminator (c : ascii) : bool :=
  ((code c =? 10) || (code c =? 13))%N.

(** WhiteSpace and LineTerminator, the set of [\s] and of [trim]:
    TAB, LF, VT, FF, CR, SP, NBSP. *)
Definition isWhiteSpace (c : ascii) : bool :=
  (between 9 13 (code c) || (code c =? 32) || (code c =? 160))%N.

Definition isDigit (c : ascii) : bool := between 48 57 (code c).

Definition isUpperAZ (c : ascii) : bool := between 65 90 (code c).
Definition isLowerAZ (c : ascii) : bool := between 97 122 (code c).

(** [\w]: [A-Za-z0-9_]. *)
Definition isWordChar (c : ascii) : bool :=
  (isUpperAZ c || isLowerAZ c || isDigit c || (code c =? 95))%N.

(** [toLowerCase] on one code unit: A-Z, and the Latin-1 capitals
    U+00C0..U+00DE except the multiplication sign U+00D7. *)
Definition toLowerChar (c : ascii) : ascii :=
  let n := code c in
  if (between 65 90 n || (between 192 222 n && negb (n =? 215)))%N
  then ascii_of_N (n + 32) else c.

(** [toUpperCase] on one code unit, as the regular expression
    [Canonicalize] uses it: a-z, and U+00E0..U+00FE except the division
    sign; the sharp s, the micro sign and U+00FF have no one-unit capital
    below 256 and no other unit below 256 shares theirs. *)
Definition toUpperChar (c : ascii) : ascii :=
  let n := code c in
  if (between 97 122 n || (between 224 254 n && negb (n =? 247)))%N
  then ascii_of_N (n - 32) else c.

Fixpoint toLowerCase (s : string) : string :=
  match s with
  | EmptyString => EmptyString
  | String c s' => String (toLowerChar c) (toLowerCase s')
  end.

(** [s.startsWith(p)]. *)
Fixpoint startsWith (s p : string) : bool :=
  match p with
  | EmptyString => true
  | String a p' =>
      match s with
      | EmptyString => false
      | String b s' => Ascii.eqb a b && startsWith s' p'
      end
  end.

(** [s.includes(sub)]. *)
Fixpoint includes (s sub : string) : bool :=
  startsWith s sub ||
  match s with
  | EmptyString => false
  | String _ s' => includes s' sub
  end.

(** [s.endsWith(suf)]. *)
Definition endsWith (s suf : string) : bool :=
  let n := String.length s in
  let k := String.length suf in
  (k <=? n) && String.eqb (substring (n - k) k s) suf.

Fixpoint trimStart (s : string) : string :=
  match s with
  | EmptyString => EmptyString
  | String c s' => if isWhiteSpace c then trimStart s' else s
  end.

Fixpoint trimEnd (s : string) : string :=
  match s with
  | EmptyString => EmptyString
  | String c s' =>
      match trimEnd s' with
      | EmptyString => if isWhiteSpace c then EmptyString else String c EmptyString
      | t => String c t
      end
  end.

(** [s.trim()]. *)
Definition trim (s : string) : string := trimEnd (trimStart s).

(** The characters of a string, for membership statements. *)
Definition chars (s : string) : list ascii := list_ascii_of_string s.

(** The double quote, as a one-character string and as a character. *)
Definition dquote : ascii := ascii_of_N 34.
Definition dq : string := String dquote EmptyString.

Definition newline : ascii := ascii_of_N 10.
Definition nl : string := String newline EmptyString.

End JsString.

Import JsString.

(** ** Regular expressions: syntax, backtracking matcher, built-ins *)

Module Regex.

(** Members of a character class. *)
Inductive cset : Type :=
| CsChar (c : ascii)
| CsDigit
| CsWord
| CsSpace.

Inductive regex : Type :=
| Empty
| Char (c : ascii)
| Dot
| Class (neg : bool) (items : list cset)
| Seq (r1 r2 : regex)
| Alt (r1 r2 : regex)
| Star (greedy : bool) (r : regex)
| Plus (greedy : bool) (r : regex)
| Opt (greedy : bool) (r : regex)
| Group (i : nat) (r : regex)
| Backref (i : nat)
| Bol
| Eol
| WordBoundary.

Record flags : Type := { ignoreCase : bool; multiline : bool }.

(** The matcher's state: the code unit before the current position (for
    [^] and [\b]), the position, the input from the position on, and the
    captures so far. *)
Record mstate : Type := {
  prevc : option ascii;
  pos : nat;
  rest : string;
  caps : list (nat * string)
}.

Definition advance (c : ascii) (s' : string) (st : mstate) : mstate :=
  {| prevc := Some c; pos := S (pos st); rest := s'; caps := caps st |}.

Fixpoint lookup (i : nat) (cs : list (nat * string)) : option string :=
  match cs with
  | [] => None
  | (j, w) :: cs' => if Nat.eqb i j then Some w else lookup i cs'
  end.

Definition set_cap (i : nat) (w : string) (st : mstate) : mstate :=
  {| prevc := prevc st; pos := pos st; rest := rest st;
     caps := (i, w) :: filter (fun p => negb (Nat.eqb (fst p) i)) (caps st) |}.

(** The capture groups inside a term: a quantifier resets them on every
    iteration. *)
Fixpoint groups_of (r : regex) : list nat :=
  match r with
  | Seq r1 r2 | Alt r1 r2 => groups_of r1 ++ groups_of r2
  | Star _ r1 | Plus _ r1 | Opt _ r1 => groups_of r1
  | Group i r1 => i :: groups_of r1
  | _ => []
  end.

Definition clear_caps (gs : list nat) (st : mstate) : mstate :=
  {| prevc := prevc st; pos := pos st; rest := rest st;
     caps := filter (fun p => negb (existsb (Nat.eqb (fst p)) gs)) (caps st) |}.

(** Equality of code units, up to [Canonicalize] under the [i] flag. *)
Definition char_eq (fl : flags) (a b : ascii) : bool :=
  if ignoreCase fl then Ascii.eqb (toUpperChar a) (toUpperChar b)
  else Ascii.eqb a b.

Definition cset_mem (x : ascii) (it : cset) : bool :=
  match it with
  | CsChar c => Ascii.eqb x c
  | CsDigit => isDigit x
  | CsWord => isWordChar x
  | CsSpace => isWhiteSpace x
  end.

(** A class holds [x] when it holds a member with the canonical form of
    [x]: below 256 that is [x] itself or its other case. *)
Definition class_mem (fl : flags) (items : list cset) (x : ascii) : bool :=
  if ignoreCase fl
  then existsb (cset_mem x) items || existsb (cset_mem (toUpperChar x)) items
       || existsb (cset_mem (toLowerChar x)) items
  else existsb (cset_mem x) items.

Section Matcher.
Context {A : Type}.

Definition cont : Type := mstate -> option A.

Definition orelse (a : option A) (b : unit -> option A) : option A :=
  match a with
  | Some z => Some z
  | None => b tt
  end.

Definition m_char (p : ascii -> bool) (st : mstate) (k : cont) : option A :=
  match rest st with
  | EmptyString => None
  | String c s' => if p c then k (advance c s' st) else None
  end.

(** A backreference consumes the captured text (nothing when the group
    did not take part). *)
Fixpoint m_text (fl : flags) (w : string) (st : mstate) (k : cont) : option A :=
  match w with
  | EmptyString => k st
  | String a w' => m_char (char_eq fl a) st (fun st' => m_text fl w' st' k)
  end.

Definition is_word (o : option ascii) : bool :=
  match o with
  | Some c => isWordChar c
  | None => false
  end.

Definition next_char (st : mstate) : option ascii :=
  match rest st with
  | EmptyString => None
  | String c _ => Some c
  end.

Definition at_bol (fl : flags) (st : mstate) : bool :=
  match prevc st with
  | None => true
  | Some c => multiline fl && isLineTerminator c
  end.

Definition at_eol (fl : flags) (st : mstate) : bool :=
  match next_char st with
  | None => true
  | Some c => multiline fl && isLineTerminator c
  end.

(** RepeatMatcher with min = 0 and no upper bound: an iteration that
    consumes nothing is rejected, so the remaining input bounds the
    number of iterations. *)
Fixpoint repeat_loop (body : mstate -> cont -> option A) (greedy : bool)
    (fuel : nat) (st : mstate) (k : cont) : option A :=
  match fuel with
  | O => k st
  | S f =>
      let iter (_ : unit) :=
        body st (fun st' => if pos st <? pos st'
                            then repeat_loop body greedy f st' k else None) in
      if greedy then orelse (iter tt) (fun _ => k st)
      else orelse (k st) iter
  end.

Fixpoint m (fl : flags) (r : regex) (st : mstate) (k : cont) : option A :=
  match r with
  | Empty => k st
  | Char c => m_char (char_eq fl c) st k
  | Dot => m_char (fun x => negb (isLineTerminator x)) st k
  | Class neg items => m_char (fun x => xorb neg (class_mem fl items x)) st k
  | Seq r1 r2 => m fl r1 st (fun st' => m fl r2 st' k)
  | Alt r1 r2 => orelse (m fl r1 st k) (fun _ => m fl r2 st k)
  | Star g r1 =>
      repeat_loop (fun x c => m fl r1 (clear_caps (groups_of r1) x) c) g
        (String.length (rest st)) st k
  | Plus g r1 =>
      m fl r1 (clear_caps (groups_of r1) st)
        (fun st' =>
           repeat_loop (fun x c => m fl r1 (clear_caps (groups_of r1) x) c) g
             (String.length (rest st')) st' k)
  | Opt g r1 =>
      let iter (_ : unit) :=
        m fl r1 (clear_caps (groups_of r1) st)
          (fun st' => if pos st <? pos st' then k st' else None) in
      if g then orelse (iter tt) (fun _ => k st)
      else orelse (k st) iter
  | Group i r1 =>
      m fl r1 st
        (fun st' => k (set_cap i (substring 0 (pos st' - pos st) (rest st)) st'))
  | Backref i =>
      match lookup i (caps st) with
      | Some w => m_text fl w st k
      | None => k st
      end
  | Bol => if at_bol fl st then k st else None
  | Eol => if at_eol fl st then k st else None
  | WordBoundary =>
      if xorb (is_word (prevc st)) (is_word (next_char st)) then k st else None
  end.
End Matcher.

(** One match: where it starts, the matched text, the captures. *)
Record rmatch : Type := {
  index : nat;
  whole : string;
  groups : list (nat * string)
}.

(** [$n] / the n-th callback argument; the empty string when the group
    did not take part. *)
Definition group (n : nat) (mt : rmatch) : string :=
  match lookup n (groups mt) with
  | Some w => w
  | None => EmptyString
  end.

Section Builtins.
Variable fl : flags.
Variable r : regex.

(** A match attempt at one position (RegExpBuiltinExec's inner call). *)
Definition match_at (pc : option ascii) (p : nat) (s : string) : option rmatch :=
  m fl r {| prevc := pc; pos := p; rest := s; caps := [] |}
    (fun st' => Some {| index := p;
                        whole := substring 0 (pos st' - p) s;
                        groups := caps st' |}).

(** The first match at or after a position: [exec] on a regular
    expression whose [lastIndex] is that position. *)
Fixpoint search_from (pc : option ascii) (p : nat) (s : string) : option rmatch :=
  match match_at pc p s with
  | Some mt => Some mt
  | None =>
      match s with
      | EmptyString => None
      | String c s' => search_from (Some c) (S p) s'
      end
  end.

(** [re.test(s)] for a regular expression without the [g] flag. *)
Definition test (s : string) : bool :=
  match search_from None 0 s with
  | Some _ => true
  | None => false
  end.

(** The walk of a global regular expression over its input: every code
    unit is either kept or covered by a match; after an empty match the
    next attempt is one code unit further (AdvanceStringIndex). *)
Inductive item : Type :=
| Keep (c : ascii)
| Hit (mt : rmatch).

Fixpoint scan_from (skip : nat) (pc : option ascii) (p : nat) (s : string)
    : list item :=
  match skip with
  | S n =>
      match s with
      | EmptyString => []
      | String c s' => scan_from n (Some c) (S p) s'
      end
  | O =>
      match match_at pc p s with
      | Some mt =>
          Hit mt ::
          match s with
          | EmptyString => []
          | String c s' =>
              match String.length (whole mt) with
              | O => Keep c :: scan_from 0 (Some c) (S p) s'
              | S n => scan_from n (Some c) (S p) s'
              end
          end
      | None =>
          match s with
          | EmptyString => []
          | String c s' => Keep c :: scan_from 0 (Some c) (S p) s'
          end
      end
  end.

Definition scan (s : string) : list item := scan_from 0 None 0 s.

(** The matches of the walk, in order: [s.match(re)] with the [g] flag
    (the matched texts), and the [while (re.exec(s))] loop of a regular
    expression that matches no empty text. *)
Fixpoint hits (l : list item) : list rmatch :=
  match l with
  | [] => []
  | Keep _ :: l' => hits l'
  | Hit mt :: l' => mt :: hits l'
  end.

Definition matchAll (s : string) : list rmatch := hits (scan s).

Fixpoint render (f : rmatch -> string) (l : list item) : string :=
  match l with
  | [] => EmptyString
  | Keep c :: l' => String c (render f l')
  | Hit mt :: l' => (f mt ++ render f l')%string
  end.

(** [s.replace(re, f)] with the [g] flag. *)
Definition replace_all (f : rmatch -> string) (s : string) : string :=
  render f (scan s).

(** [s.replace(re, f)] without the [g] flag: the first match only. *)
Definition replace_first (f : rmatch -> string) (s : string) : string :=
  match search_from None 0 s with
  | None => s
  | Some mt =>
      (substring 0 (index mt) s ++ f mt ++
       substring (index mt + String.length (whole mt))
                 (String.length s - (index mt + String.length (whole mt))) s)%string
  end.

(** [s.split(re)] for a separator without capture groups: a match that
    ends where the current piece starts is skipped; no attempt is made
    at the end of the input. *)
Fixpoint split_from (skip : nat) (pc : option ascii) (p : nat) (s : string)
    (cur : string) : list string :=
  match s with
  | EmptyString => [cur]
  | String c s' =>
      match skip with
      | S n => split_from n (Some c) (S p) s' cur
      | O =>
          match match_at pc p s with
          | Some mt =>
              match String.length (whole mt) with
              | O =>
                  match cur with
                  | EmptyString =>
                      split_from 0 (Some c) (S p) s' (String c EmptyString)
                  | _ => cur :: split_from 0 (Some c) (S p) s' (String c EmptyString)
                  end
              | S n => cur :: split_from n (Some c) (S p) s' EmptyString
              end
          | None => split_from 0 (Some c) (S p) s' (cur ++ String c EmptyString)%string
          end
      end
  end.

Definition split (s : string) : list string :=
  match s with
  | EmptyString =>
      match match_at None 0 s with
      | Some _ => []
      | None => [EmptyString]
      end
  | _ => split_from 0 None 0 s EmptyString
  end.
End Builtins.

(** Helpers to write the source's regular expressions. *)
Fixpoint lit (s : string) : regex :=
  match s with
  | EmptyString => Empty
  | String c EmptyString => Char c
  | String c s' => Seq (Char c) (lit s')
  end.

Fixpoint cat (l : list regex) : regex :=
  match l with
  | [] => Empty
  | [x] => x
  | x :: l' => Seq x (cat l')
  end.

Fixpoint alt (l : list regex) : regex :=
  match l with
  | [] => Empty
  | [x] => x
  | x :: l' => Alt x (alt l')
  end.

Definition re_d : regex := Class false [CsDigit].
Definition re_w : regex := Class false [CsWord].
Definition re_s : regex := Class false [CsSpace].

(** The [i] and [m] flags; [g] is the choice between [replace_all] /
    [matchAll] and [replace_first] / [test]. *)
Definition no_flags : flags := {| ignoreCase := false; multiline := false |}.
Definition flag_i : flags := {| ignoreCase := true; multiline := false |}.
Definition flag_im : flags := {| ignoreCase := true; multiline := true |}.

(** [/\/$/]: one trailing slash, used by both source files. *)
Definition re_trailing_slash : regex := Seq (Char "/") Eol.

End Regex.

Import Regex.

(** ** [src/types.ts] *)

(** [new Set(array)] and [Set.prototype.has]: a JavaScript set iterates in
    insertion order, so it is a duplicate-free list that keeps the first
    occurrence of each element. *)
Module JsSet.

Definition has (set : list string) (x : string) : bool :=
  existsb (String.eqb x) set.

Definition add (set : list string) (x : string) : list string :=
  if has set x then set else set ++ [x].

Fixpoint add_all (set : list string) (l : list string) : list string :=
  match l with
  | [] => set
  | x :: l' => add_all (add set x) l'
  end.

Definition of_array (l : list string) : list string := add_all [] l.

End JsSet.

Module WPPostHeader.
Record t : Type := {
  id : Z;
  date : string;
  modified : string;
  title_rendered : string;
  link : string;
  slug : string
}.
End WPPostHeader.

Module SemanticNode.
(** [tokens] holds [Array.from] of the token set. *)
Record t : Type := {
  id : Z;
  title : string;
  url : string;
  tokens : list string
}.
End SemanticNode.

(** A JavaScript number that may be [NaN] (the day count). *)
Inductive number : Type :=
| NaN
| Num (z : Z).

Module PostHealth.
Inductive Status : Type :=
| idle | scanning | optimizing | review_pending | published | error.

Record Metrics : Type := {
  wordCount : nat;
  hasSchema : bool;
  hasVerdict : bool;
  brokenMedia : nat;
  internalLinks : nat;
  externalLinks : nat;
  entityDensity : nat;
  lastUpdatedDayCount : number
}.

Record t : Type := {
  id : Z;
  score : Z;
  aeoScore : Z;
  status : Status;
  metrics : Metrics
}.
End PostHealth.

(** ** [src/utils/analysis.worker.ts] *)

Module Worker.

Definition stopWords : list string :=
  ["the"; "and"; "is"; "in"; "it"; "to"; "of"; "for"; "with"; "on"; "at"; "by"].

(** [/[^\w\s]/g] *)
Definition re_punct : regex := Class true [CsWord; CsSpace].

(** [/\s+/] *)
Definition re_spaces : regex := Plus true re_s.

Definition significant (w : string) : bool :=
  (2 <? String.length w) && negb (JsSet.has stopWords w).

Definition tokenize (text : string) : list string :=
  JsSet.of_array
    (filter significant
       (split no_flags re_spaces
          (replace_all no_flags re_punct (fun _ => EmptyString)
             (toLowerCase text)))).

(** [/\b\w+\b/g] *)
Definition re_words : regex := cat [WordBoundary; Plus true re_w; WordBoundary].

(** [/verdict|conclusion|summary|pros and cons|bottom line/i] *)
Definition re_verdict : regex :=
  alt [lit "verdict"; lit "conclusion"; lit "summary"; lit "pros and cons";
       lit "bottom line"].

(** [/href=[Q'](.*?)[Q']/g], writing Q for the double quote *)
Definition linkRegex : regex :=
  cat [lit "href="; Class false [CsChar dquote; CsChar "'"];
       Group 1 (Star false Dot);
       Class false [CsChar dquote; CsChar "'"]].

Definition countWords (content : string) : nat :=
  List.length (matchAll no_flags re_words content).

(** [siteUrl.replace(/\/$/, '')] *)
Definition cleanSiteOf (siteUrl : string) : string :=
  replace_first no_flags re_trailing_slash (fun _ => EmptyString) siteUrl.

Definition isInternalUrl (cleanSite url : string) : bool :=
  includes url cleanSite || startsWith url "/".

(** One turn of the [while ((match = linkRegex.exec(content)) !== null)]
    loop on the counters [(internal, external)]. *)
Definition countLink (cleanSite : string) (acc : nat * nat) (mt : rmatch)
    : nat * nat :=
  let url := group 1 mt in
  if isInternalUrl cleanSite url then (S (fst acc), snd acc)
  else if startsWith url "http" then (fst acc, S (snd acc))
  else acc.

(** The [href] values the loop sees, in order. *)
Definition hrefs (content : string) : list string :=
  map (group 1) (matchAll no_flags linkRegex content).

Definition countLinks (content siteUrl : string) : nat * nat :=
  fold_left (countLink (cleanSiteOf siteUrl))
    (matchAll no_flags linkRegex content) (0, 0).

(** [Math.ceil(Math.abs(now - t) / 86400000)] on time values in
    milliseconds; [NaN] when the timestamp did not parse. The quotient is
    taken exactly: the floating-point division rounds to the same ceiling
    for differences below 2^26 days, and compares with 365 the same way for
    all of them. *)
Definition diffDaysOf (now : Z) (t : option Z) : number :=
  match t with
  | None => NaN
  | Some t => Num ((Z.abs (now - t) + 86399999) / 86400000)
  end.

(** [x > n]: false on [NaN]. *)
Definition number_gt (x : number) (n : Z) : bool :=
  match x with
  | NaN => false
  | Num z => (n <? z)%Z
  end.

Definition penalty (cond : bool) (p : Z) (v : Z) : Z :=
  if cond then (v - p)%Z else v.

Definition seoOf (mt : PostHealth.Metrics) : Z :=
  let seo := 100%Z in
  let seo := penalty (number_gt (PostHealth.lastUpdatedDayCount mt) 365) 20 seo in
  let seo := penalty (PostHealth.wordCount mt <? 1000) 15 seo in
  let seo := penalty (PostHealth.internalLinks mt <? 3) 15 seo in
  let seo := penalty (PostHealth.externalLinks mt <? 3) 10 seo in
  let seo := penalty (negb (PostHealth.hasSchema mt)) 10 seo in
  seo.

Definition aeoOf (mt : PostHealth.Metrics) : Z :=
  let aeo := 100%Z in
  let aeo := penalty (negb (PostHealth.hasVerdict mt)) 30 aeo in
  let aeo := penalty (PostHealth.wordCount mt <? 1500) 10 aeo in
  let aeo := penalty (negb (PostHealth.hasSchema mt)) 25 aeo in
  aeo.

(** The values a payload field can hold, as far as the handler tells
    them apart: a method call on anything but a string throws, with one
    message for [undefined] and another for a value without the method
    (the wording is V8's). *)
Inductive jsval : Type :=
| JUndefined
| JNumber (z : Z)
| JString (s : string).

Record HealthPayload : Type := {
  id : Z;
  content : jsval;
  modified : jsval;
  siteUrl : jsval
}.

Inductive message : Type :=
| ANALYZE_HEALTH (payload : HealthPayload)
| BUILD_MESH (posts : list WPPostHeader.t)
| OTHER (type : string).

Inductive response : Type :=
| HEALTH_RESULT (result : PostHealth.t)
| MESH_RESULT (nodes : list SemanticNode.t).

(** What a call of the handler does: the messages it posted, or the
    exception it threw. *)
Inductive outcome : Type :=
| Posted (out : list response)
| Threw (TypeError : string).

Section Platform.
(** [Date.now()], and [Date.parse]: the time value of a date string,
    [None] for [NaN]. *)
Variable now : Z.
Variable Date_parse : string -> option Z.

(** [new Date(v).getTime()] *)
Definition getTime (v : jsval) : option Z :=
  match v with
  | JUndefined => None
  | JNumber z => if (Z.abs z <=? 8640000000000000)%Z then Some z else None
  | JString s => Date_parse s
  end.

(** The body of the [ANALYZE_HEALTH] branch on string fields. *)
Definition analyzeHealth (id : Z) (content : string) (modified : jsval)
    (siteUrl : string) : PostHealth.t :=
  let wordCount := countWords content in
  let hasSchema := includes content "application/ld+json" in
  let hasVerdict := test flag_i re_verdict content in
  let '(internal, external) := countLinks content siteUrl in
  let diffDays := diffDaysOf now (getTime modified) in
  let mt :=
    {| PostHealth.wordCount := wordCount;
       PostHealth.hasSchema := hasSchema;
       PostHealth.hasVerdict := hasVerdict;
       PostHealth.brokenMedia := 0;
       PostHealth.internalLinks := internal;
       PostHealth.externalLinks := external;
       PostHealth.entityDensity := 0;
       PostHealth.lastUpdatedDayCount := diffDays |} in
  {| PostHealth.id := id;
     PostHealth.score := Z.max 0 (seoOf mt);
     PostHealth.aeoScore := Z.max 0 (aeoOf mt);
     PostHealth.status := PostHealth.idle;
     PostHealth.metrics := mt |}.

Definition buildMesh (posts : list WPPostHeader.t) : list SemanticNode.t :=
  map (fun p =>
         {| SemanticNode.id := WPPostHeader.id p;
            SemanticNode.title := WPPostHeader.title_rendered p;
            SemanticNode.url := WPPostHeader.link p;
            SemanticNode.tokens :=
              tokenize (WPPostHeader.title_rendered p ++ " " ++ WPPostHeader.slug p)%string |})
      posts.

Definition onmessage (e : message) : outcome :=
  match e with
  | ANALYZE_HEALTH payload =>
      match content payload with
      | JString c =>
          match siteUrl payload with
          | JString u =>
              Posted [HEALTH_RESULT (analyzeHealth (id payload) c (modified payload) u)]
          | JUndefined => Threw "Cannot read properties of undefined (reading 'replace')"
          | JNumber _ => Threw "siteUrl.replace is not a function"
          end
      | JUndefined => Threw "Cannot read properties of undefined (reading 'match')"
      | JNumber _ => Threw "content.match is not a function"
      end
  | BUILD_MESH posts => Posted [MESH_RESULT (buildMesh posts)]
  | OTHER _ => Posted []
  end.
End Platform.

End Worker.

(** ** [src/services/aiService.ts] *)

Module AiService.

(** [/<a\s+(?:[^>]*?\s+)?href=([Q'])(.*?)\1[^>]*>(.*?)<\/a>/gi],
    writing Q for the double quote *)
Definition re_anchor : regex :=
  cat [lit "<a"; Plus true re_s;
       Opt true (Seq (Star false (Class true [CsChar ">"])) (Plus true re_s));
       lit "href=";
       Group 1 (Class false [CsChar dquote; CsChar "'"]);
       Group 2 (Star false Dot);
       Backref 1;
       Star true (Class true [CsChar ">"]);
       Char ">";
       Group 3 (Star false Dot);
       lit "</a>"].

(** [/Q/g], the double quote alone *)
Definition re_dquote : regex := Char dquote.

(** [u.replace(/\/$/, '').toLowerCase()] *)
Definition stripSlashLower (u : string) : string :=
  toLowerCase (replace_first no_flags re_trailing_slash (fun _ => EmptyString) u).

(** The value of the [title] attribute of a kept link. *)
Definition linkTitle (text : string) : string :=
  ("Read more: " ++ replace_all no_flags re_dquote (fun _ => EmptyString) text)%string.

(** The template of a kept link (line 71). *)
Definition internalLinkHtml (cleanHref text : string) : string :=
  ("<a href=" ++ dq ++ cleanHref ++ dq ++ " class=" ++ dq ++ "sota-internal-link" ++ dq
   ++ " title=" ++ dq ++ linkTitle text ++ dq ++ ">" ++ text ++ "</a>")%string.

Definition spanOpen : string :=
  ("<span class=" ++ dq ++ "sota-text-highlight" ++ dq ++ " title=" ++ dq
   ++ "Link removed by validator (404 prevention)" ++ dq ++ ">")%string.

(** The template of a stripped link (line 74). *)
Definition removedLinkHtml (text : string) : string :=
  (spanOpen ++ text ++ "</span>")%string.

(** A string in a condition: the empty string is false. *)
Definition truthy (s : string) : bool := negb (String.eqb s EmptyString).

Definition isValidPath (validPaths : list string) (pathToCheck : string) : bool :=
  JsSet.has validPaths pathToCheck ||
  existsb (fun vp => endsWith vp pathToCheck || endsWith pathToCheck vp) validPaths.

Section Platform.
(** [new URL(u).pathname]; [None] when the constructor throws. *)
Variable URL_pathname : string -> option string.

Definition normalize (u : string) : string :=
  if startsWith u "http" then
    match URL_pathname u with
    | Some pathname => stripSlashLower pathname
    | None => stripSlashLower u
    end
  else stripSlashLower u.

Definition validPathsOf (validNodes : list SemanticNode.t) : list string :=
  JsSet.of_array (map (fun n => normalize (SemanticNode.url n)) validNodes).

(** The two assignments of [isInternal] and [pathToCheck]
    (lines 57-63). *)
Definition classify (siteUrl cleanHref : string) : bool * string :=
  let lowerHref := toLowerCase cleanHref in
  if startsWith lowerHref "/" || (truthy siteUrl && includes lowerHref siteUrl)
  then (true, normalize cleanHref)
  else if negb (startsWith lowerHref "http") && negb (startsWith lowerHref "#")
          && negb (startsWith lowerHref "mailto")
  then (true, normalize cleanHref)
  else (false, EmptyString).

(** The replacement callback [(match, quote, href, text) => ...]. *)
Definition sanitizeAnchor (validPaths : list string) (siteUrl : string)
    (mt : rmatch) : string :=
  let href := group 2 mt in
  let text := group 3 mt in
  let cleanHref := trim href in
  let '(isInternal, pathToCheck) := classify siteUrl cleanHref in
  if isInternal then
    if isValidPath validPaths pathToCheck
    then internalLinkHtml cleanHref text
    else removedLinkHtml text
  else whole mt.

Definition validateAndSanitizeLinks (html : string)
    (validNodes : list SemanticNode.t) (siteUrl : string) : string :=
  replace_all flag_i re_anchor
    (sanitizeAnchor (validPathsOf validNodes) siteUrl) html.
End Platform.

(** [/\(\d+\s*words,?\s*total\s*\d+\)/gi] *)
Definition re_wordcount : regex :=
  cat [Char "("; Plus true re_d; Star true re_s; lit "words"; Opt true (Char ",");
       Star true re_s; lit "total"; Star true re_s; Plus true re_d; Char ")"].

(** [/^##\s+(.*$)/gim], [/^###\s+(.*$)/gim], [/^####\s+(.*$)/gim] *)
Definition re_header (hashes : string) : regex :=
  cat [Bol; lit hashes; Plus true re_s; Group 1 (Seq (Star true Dot) Eol)].

(** [/\*\*(.*?)\*\*/g] *)
Definition re_bold : regex :=
  cat [lit "**"; Group 1 (Star false Dot); lit "**"].

(** [/(?:^|\n)[-*]\s+(G)/g], writing G for a dot under a greedy star *)
Definition re_bullet : regex :=
  cat [Alt Bol (Char newline); Class false [CsChar "-"; CsChar "*"];
       Plus true re_s; Group 1 (Star true Dot)].

(** [/(<li>.*<\/li>\n?)+/g] *)
Definition re_li_run : regex :=
  Plus true (Group 1 (cat [lit "<li>"; Star true Dot; lit "</li>";
                           Opt true (Char newline)])).

(** The replacement strings ['<h2>$1</h2>'] and the like. *)
Definition wrap1 (tag : string) (mt : rmatch) : string :=
  ("<" ++ tag ++ ">" ++ group 1 mt ++ "</" ++ tag ++ ">")%string.

(** ['<ul>$&</ul>'] *)
Definition wrapWhole (tag : string) (mt : rmatch) : string :=
  ("<" ++ tag ++ ">" ++ whole mt ++ "</" ++ tag ++ ">")%string.

(** The condition of step 4. *)
Definition hasLooseBullets (clean : string) : bool :=
  negb (includes clean "<ul>") &&
  (includes clean (nl ++ "- ")%string || includes clean (nl ++ "* ")%string).

Definition convertLists (clean : string) : string :=
  if hasLooseBullets clean then
    let clean := replace_all no_flags re_bullet (wrap1 "li") clean in
    replace_all no_flags re_li_run (wrapWhole "ul") clean
  else clean.

Definition forceHtmlStructure (text : string) : string :=
  let clean := text in
  let clean := replace_all flag_i re_wordcount (fun _ => EmptyString) clean in
  let clean := replace_all flag_im (re_header "##") (wrap1 "h2") clean in
  let clean := replace_all flag_im (re_header "###") (wrap1 "h3") clean in
  let clean := replace_all flag_im (re_header "####") (wrap1 "h4") clean in
  let clean := replace_all no_flags re_bold (wrap1 "strong") clean in
  let clean := convertLists clean in
  trim clean.

End AiService.

(** ** Vocabulary of the statements *)

Module Spec.

(** [st'] is [st] after some text [w] of the input was consumed. *)
Definition reaches (st st' : mstate) : Prop :=
  exists w, rest st = (w ++ rest st')%string /\ pos st' = pos st + String.length w.

(** What every matcher satisfies: a result comes from the continuation,
    called on a state further in the input. *)
Definition sound {A : Type} (f : mstate -> @cont A -> option A) : Prop :=
  forall st k res, f st k = Some res ->
    exists st', reaches st st' /\ k st' = Some res.

(** The result of a matcher depends on its continuation only at the states
    further in the input. *)
Definition local {A : Type} (f : mstate -> @cont A -> option A) : Prop :=
  forall st k1 k2, (forall st', reaches st st' -> k1 st' = k2 st') -> f st k1 = f st k2.

(** The input without its first [n] code units. *)
Fixpoint drop (n : nat) (a : string) : string :=
  match n, a with
  | O, _ => a
  | S n', String _ a' => drop n' a'
  | S _, EmptyString => EmptyString
  end.

(** The code units of a string that fail a test. *)
Fixpoint reject (q : ascii -> bool) (a : string) : string :=
  match a with
  | EmptyString => EmptyString
  | String c a' => if q c then reject q a' else String c (reject q a')
  end.

(** The text of a link with its double quotes taken out. *)
Definition unquoted (text : string) : string := reject (Ascii.eqb dquote) text.

(** A body of 1500 words with the marker, a cue, three links into the
    site and three out of it. *)
Fixpoint words (n : nat) : string :=
  match n with
  | O => EmptyString
  | S n' => ("word " ++ words n')%string
  end.

Definition sample_body : string :=
  (words 1500
   ++ "<script type='application/ld+json'>{}</script> The bottom line: "
   ++ "<a href='/a'>a</a><a href='/b'>b</a><a href='https://site.example/c'>c</a>"
   ++ "<a href='https://one.example'>1</a><a href='https://two.example'>2</a>"
   ++ "<a href='http://three.example'>3</a>")%string.

(** The body of the link-counting example. *)
Definition about_body : string :=
  ("<a href=" ++ dq ++ "/about" ++ dq ++ ">About</a> <a href=" ++ dq
   ++ "https://external.example.com" ++ dq ++ ">Out</a>")%string.

(** The node of the sanitizer example, and an anchor to it whose text
    holds double quotes, as the pattern captures it. *)
Definition widget_node : SemanticNode.t :=
  {| SemanticNode.id := 1; SemanticNode.title := "Widget";
     SemanticNode.url := "/reviews/widget"; SemanticNode.tokens := ["widget"] |}.

Definition quoted_anchor : rmatch :=
  {| index := 0;
     whole := ("<a href='/reviews/widget'>the " ++ dq ++ "Widget" ++ dq ++ "</a>")%string;
     groups := [(3, ("the " ++ dq ++ "Widget" ++ dq)%string);
                (2, "/reviews/widget"); (1, "'")] |}.

(** An anchor to the root of the site. *)
Definition home_anchor : rmatch :=
  {| index := 0;
     whole := ("<a href=" ++ dq ++ "/" ++ dq ++ ">Home</a>")%string;
     groups := [(3, "Home"); (2, "/"); (1, dq)] |}.

(** A platform without a URL parser: [new URL] always throws. The
    examples use it on [href] values that do not start with "http", for
    which the parser is not consulted. *)
Definition no_URL (u : string) : option string := None.

End Spec.

Import Spec.

(** ** [src/services/aiService.ts]: [extractTopKeywords] *)

Module Keywords.

Record ReferenceData : Type := {
  title : string;
  link : string;
  snippet : string
}.

(** [new Set([...])] of line 184, as written (with its repetition). *)
Definition stopWords : list string :=
  JsSet.of_array
    ["the"; "best"; "review"; "guide"; "top"; "with"; "what"; "how"; "check"; "price";
     "amazon"; "for"; "and"; "is"; "in"; "to"; "of"; "a"; "an"; "review"; "vs";
     "comparison"; "2024"; "2025"; "2023"; "buy"; "shop"; "online"].

(** [array.join(sep)] on strings. *)
Fixpoint join (sep : string) (l : list string) : string :=
  match l with
  | [] => EmptyString
  | x :: l' =>
      match l' with
      | [] => x
      | _ => (x ++ sep ++ join sep l')%string
      end
  end.

(** The lower-cased text of the references, and its words: the same two
    patterns as in the worker's tokenizer. *)
Definition textOf (refs : list ReferenceData) : string :=
  toLowerCase (join " " (map (fun r => (title r ++ " " ++ snippet r)%string) refs)).

Definition wordsOf (text : string) : list string :=
  split no_flags Worker.re_spaces
    (replace_all no_flags Worker.re_punct (fun _ => EmptyString) text).

(** [w.length > 3 && !stopWords.has(w)] *)
Definition counted (w : string) : bool :=
  (3 <? String.length w) && negb (JsSet.has stopWords w).

(** The value of a property of [freq]: a count, or the string that
    [(freq[w] || 0) + 1] gives when [freq[w]] is not a number. Only its
    being no number matters below. *)
Inductive fval : Type :=
| Count (n : nat)
| Junk.

(** [freq] is an object literal, so it inherits from [Object.prototype];
    of the inherited names only these two are words of lower-case
    letters, digits and underscores: [constructor], a function, and
    [__proto__], an accessor that gives the prototype. Both are truthy and
    no numbers. *)
Definition inherited (w : string) : bool :=
  String.eqb w "constructor" || String.eqb w "__proto__".

(** The own properties of [freq], in the order of their creation. *)
Definition object : Type := list (string * fval).

Fixpoint own (freq : object) (w : string) : option fval :=
  match freq with
  | [] => None
  | (k, v) :: freq' => if String.eqb w k then Some v else own freq' w
  end.

(** [(freq[w] || 0) + 1]: one more than a count (a stored count is at
    least 1), 1 for no property at all, and a string for a string or an
    inherited value. *)
Definition bumped (freq : object) (w : string) : fval :=
  match own freq w with
  | Some (Count n) => Count (S n)
  | Some Junk => Junk
  | None => if inherited w then Junk else Count 1
  end.

Fixpoint update (freq : object) (w : string) (v : fval) : object :=
  match freq with
  | [] => []
  | (k, x) :: freq' =>
      if String.eqb w k then (k, v) :: freq' else (k, x) :: update freq' w v
  end.

(** [freq[w] = v]: the [__proto__] setter ignores a value that is no
    object, and makes no property. *)
Definition assign (freq : object) (w : string) (v : fval) : object :=
  if String.eqb w "__proto__" then freq
  else match own freq w with
       | Some _ => update freq w v
       | None => freq ++ [(w, v)]
       end.

(** [words.forEach(w => { if (...) freq[w] = (freq[w] || 0) + 1; })] *)
Definition tally (words : list string) : object :=
  fold_left (fun freq w => if counted w then assign freq w (bumped freq w) else freq)
    words [].

Fixpoint digitsValue (acc : N) (w : string) : option N :=
  match w with
  | EmptyString => Some acc
  | String c w' =>
      if isDigit c then digitsValue (acc * 10 + (code c - 48))%N w' else None
  end.

(** An array index: the decimal form, without superfluous zero, of an
    integer up to 2^32 - 2. *)
Definition arrayIndex (w : string) : option N :=
  match w with
  | EmptyString => None
  | String c w' =>
      if Ascii.eqb c "0" && negb (String.eqb w' EmptyString) then None
      else match digitsValue 0 w with
           | Some v => if (v <=? 4294967294)%N then Some v else None
           | None => None
           end
  end.

Definition isIndexKey (e : string * fval) : bool :=
  match arrayIndex (fst e) with
  | Some _ => true
  | None => false
  end.

Definition indexKey (e : string * fval) : N :=
  match arrayIndex (fst e) with
  | Some v => v
  | None => 0%N
  end.

Fixpoint insertIndex (e : string * fval) (l : list (string * fval)) : list (string * fval) :=
  match l with
  | [] => [e]
  | x :: l' => if (indexKey e <? indexKey x)%N then e :: l else x :: insertIndex e l'
  end.

(** [Object.entries(freq)]: the array-index keys in ascending order, then
    the other keys in the order of their creation. *)
Definition entries (freq : object) : list (string * fval) :=
  fold_right insertIndex [] (filter isIndexKey freq)
  ++ filter (fun e => negb (isIndexKey e)) freq.

Definition countOf (e : string * fval) : nat :=
  match snd e with
  | Count n => n
  | Junk => 0
  end.

Definition isCount (e : string * fval) : bool :=
  match snd e with
  | Count _ => true
  | Junk => false
  end.

(** Where an entry goes into a list sorted by falling count: behind the
    entries that count more, in front of the others. *)
Fixpoint insertByCount (e : string * fval) (l : list (string * fval))
    : list (string * fval) :=
  match l with
  | [] => [e]
  | x :: l' => if countOf e <? countOf x then x :: insertByCount e l' else e :: l
  end.

(** The stable sort by [(a, b) => b[1] - a[1]] on counts. *)
Definition sortByCount (l : list (string * fval)) : list (string * fval) :=
  fold_right insertByCount [] l.

Definition sameCounts (l : list (string * fval)) : bool :=
  match filter isCount l with
  | [] => true
  | x :: l' => forallb (fun y => countOf y =? countOf x) l'
  end.

(** [entries.sort((a, b) => b[1] - a[1])] as far as the language fixes
    it. With a string among the values the comparison gives [NaN], which
    counts as a tie with everything: unless all counts are equal the
    comparator is not consistent and the order is left to the
    implementation, which is [None] here; [sortEntriesWith] below gives the
    list an engine returns there. *)
Definition sortEntries (l : list (string * fval)) : option (list (string * fval)) :=
  if forallb isCount l then Some (sortByCount l)
  else if sameCounts l then Some l
  else None.

(** The keywords as far as the language fixes them. *)
Definition extractTopKeywords (refs : list ReferenceData) : option (list string) :=
  match sortEntries (entries (tally (wordsOf (textOf refs)))) with
  | Some sorted => Some (map fst (firstn 40 sorted))
  | None => None
  end.

Section Platform.
(** [Array.prototype.sort] with the comparator of line 188 as the engine in
    use performs it on an array for which the comparator is not
    consistent, where the language leaves the order to the implementation.
    The engine sees the entries through the comparator only, that is, as
    counts and values that are no numbers. *)
Variable engineSort : list (string * fval) -> list (string * fval).

Definition sortEntriesWith (l : list (string * fval)) : list (string * fval) :=
  match sortEntries l with
  | Some sorted => sorted
  | None => engineSort l
  end.

(** The function as it runs on that engine: it returns a list for every
    argument. *)
Definition extractTopKeywordsWith (refs : list ReferenceData) : list string :=
  map fst (firstn 40 (sortEntriesWith (entries (tally (wordsOf (textOf refs)))))).
End Platform.

End Keywords.

(** ** [src/services/aiService.ts]: [parseAIResponse] *)

Module Parse.
Import Keywords.

(** What a call does: it returns, or throws an [Error] with a message. *)
Inductive result (A : Type) : Type :=
| Ok (a : A)
| Throw (message : string).
Arguments Ok {A} a.
Arguments Throw {A} message.

(** The values of [JSON.parse]; a number is a binary64 float. *)
#[warnings="-register-all"] Inductive json : Type :=
| JNull
| JBool (b : bool)
| JNum (f : float)
| JStr (s : string)
| JArr (items : list json)
| JObj (fields : list (string * json)).

(** ToBoolean. *)
Definition truthyJson (v : json) : bool :=
  match v with
  | JNull => false
  | JBool b => b
  | JNum f => negb (PrimFloat.eqb f 0%float || negb (PrimFloat.eqb f f))
  | JStr s => negb (String.eqb s EmptyString)
  | JArr _ | JObj _ => true
  end.

Fixpoint field (name : string) (fields : list (string * json)) : option json :=
  match fields with
  | [] => None
  | (k, v) :: fields' => if String.eqb name k then Some v else field name fields'
  end.

(** [parsed.name] on a value that is not [null]: [None] is [undefined].
    None of the names read below is a property of a string, a number, a
    boolean or an array. *)
Definition prop (parsed : json) (name : string) : option json :=
  match parsed with
  | JObj fields => field name fields
  | _ => None
  end.

(** [x || d] *)
Definition orElse (x : option json) (d : json) : json :=
  match x with
  | Some v => if truthyJson v then v else d
  | None => d
  end.

(** [x ?? d] *)
Definition coalesce (x : option json) (d : json) : json :=
  match x with
  | Some JNull | None => d
  | Some v => v
  end.

Record AIAnalysisResult : Type := {
  newTitle : json;
  metaDescription : json;
  blufSentence : json;
  sgeSummaryHTML : json;
  verdictData : json;
  productBoxHTML : json;
  comparisonTableHTML : json;
  faqHTML : json;
  schemaJSON : json;
  contentWithLinks : string;
  referencesHTML : string;
  detectedOldProduct : json;
  identifiedNewProduct : json;
  newProductSpecs : json;
  keywordsUsed : list string;
  commercialIntent : json;
  detectedProducts : json;
  usedInternalLinks : json
}.

Inductive AIProvider : Type :=
| gemini | openai | anthropic | groq | openrouter.

Record AIConfig : Type := {
  provider : AIProvider;
  apiKey : string;
  model : string;
  amazonAffiliateTag : option string;
  wpUrl : option string
}.

(** [s || d] on an optional string. *)
Definition orString (s : option string) (d : string) : string :=
  match s with
  | Some EmptyString | None => d
  | Some v => v
  end.

(** [[\s\S]]: a class of two members, white space and everything else,
    written as the alternation of the two. *)
Definition re_any : regex := Alt re_s (Class true [CsSpace]).

(** [/```(?:json)?\s*([\s\S]*?)\s*```/i] *)
Definition re_fence : regex :=
  cat [lit "```"; Opt true (lit "json"); Star true re_s;
       Group 1 (Star false re_any);
       Star true re_s; lit "```"].

(** [s.indexOf(c)] and [s.lastIndexOf(c)] for a one-character [c];
    [None] is -1. *)
Fixpoint indexOf (c : ascii) (s : string) : option nat :=
  match s with
  | EmptyString => None
  | String x s' =>
      if Ascii.eqb x c then Some 0
      else match indexOf c s' with
           | Some i => Some (S i)
           | None => None
           end
  end.

Fixpoint lastIndexOf (c : ascii) (s : string) : option nat :=
  match s with
  | EmptyString => None
  | String x s' =>
      match lastIndexOf c s' with
      | Some i => Some (S i)
      | None => if Ascii.eqb x c then Some 0 else None
      end
  end.

(** Lines 115-116: the inside of the first fenced block, when there is
    one. *)
Definition unfence (text : string) : string :=
  match search_from flag_i re_fence None 0 text with
  | Some codeBlockMatch => group 1 codeBlockMatch
  | None => text
  end.

(** Lines 118-122: from the first opening brace to the last closing
    brace. *)
Definition sliceBraces (cleanJson : string) : string :=
  match indexOf "{" cleanJson, lastIndexOf "}" cleanJson with
  | Some start, Some end_ =>
      if start <? end_ then substring start (end_ + 1 - start) cleanJson else cleanJson
  | _, _ => cleanJson
  end.

(** One item of the list of sources (lines 144-151). *)
Definition referenceItemHtml (ref : ReferenceData) : string :=
  (nl ++ "            <li style=" ++ dq
   ++ "background: white; border: 1px solid #e2e8f0; border-radius: 12px; padding: 20px; transition: all 0.2s; box-shadow: 0 4px 6px -1px rgba(0,0,0,0.02);"
   ++ dq ++ ">" ++ nl ++ "              <a href=" ++ dq ++ link ref ++ dq ++ " target="
   ++ dq ++ "_blank" ++ dq ++ " rel=" ++ dq ++ "nofollow noopener" ++ dq ++ " style="
   ++ dq ++ "text-decoration: none; display: block;" ++ dq ++ ">" ++ nl
   ++ "                <span style=" ++ dq
   ++ "color: #2563eb; font-weight: 800; font-size: 1rem; display: block; margin-bottom: 8px; line-height: 1.3;"
   ++ dq ++ ">" ++ title ref ++ "</span>" ++ nl ++ "                <span style=" ++ dq
   ++ "font-size: 0.85rem; color: #64748b; line-height: 1.6; display: block;" ++ dq
   ++ ">" ++ substring 0 120 (snippet ref) ++ "...</span>" ++ nl
   ++ "              </a>" ++ nl ++ "            </li>" ++ nl ++ "          ")%string.

(** Lines 137-155. *)
Definition referencesHtmlOf (references : list ReferenceData) : string :=
  if 0 <? List.length references then
    (nl ++ "      <section class=" ++ dq ++ "sota-references" ++ dq ++ " style=" ++ dq
    ++ "margin-top: 60px; padding: 30px; background: #f8fafc; border-radius: 16px; border: 1px solid #e2e8f0;"
    ++ dq ++ ">" ++ nl ++ "        <h2 style=" ++ dq
    ++ "font-size: 1.5rem; font-weight: 800; color: #0f172a; margin-bottom: 20px; display: flex; align-items: center;"
    ++ dq ++ ">" ++ nl ++ "            <span style=" ++ dq
    ++ "background: #0f172a; color: white; padding: 4px 10px; border-radius: 6px; font-size: 0.8rem; margin-right: 12px; text-transform: uppercase; letter-spacing: 1px;"
    ++ dq ++ ">Fact Checked</span> " ++ nl ++ "            Sources & Citations" ++ nl
    ++ "        </h2>" ++ nl ++ "        <ul style=" ++ dq
    ++ "display: grid; grid-template-columns: repeat(auto-fit, minmax(300px, 1fr)); gap: 16px; list-style: none; padding: 0;"
    ++ dq ++ ">" ++ nl ++ "          "
     ++ String.concat EmptyString (map referenceItemHtml (firstn 8 references))
     ++ nl ++ "        </ul>" ++ nl ++ "      </section>" ++ nl ++ "    ")%string
  else EmptyString.

Definition defaultVerdict : json :=
  JObj [("score", JNum 0%float); ("pros", JArr []); ("cons", JArr []);
        ("summary", JStr EmptyString); ("targetAudience", JStr EmptyString)].

Definition defaultSpecs : json :=
  JObj [("price", JStr "Check"); ("rating", JNum 0%float);
        ("reviewCount", JNum 0%float)].

Section Platform.
(** [JSON.parse]: [None] when it throws. [new URL(u).pathname] as in the
    link validator. *)
Variable JSON_parse : string -> option json.
Variable URL_pathname : string -> option string.

(** The body of the [try] block after [JSON.parse], on a value that is
    not [null]; [None] when [forceHtmlStructure] is handed a value without
    a [replace] method. Console output is not modelled. *)
Definition assemble (parsed : json) (references : list ReferenceData)
    (topKeywords : list string) (validNodes : list SemanticNode.t) (config : AIConfig)
    : option AIAnalysisResult :=
  match orElse (prop parsed "contentWithLinks") (JStr EmptyString) with
  | JStr content =>
      let structuredContent := AiService.forceHtmlStructure content in
      let sanitizedContent :=
        AiService.validateAndSanitizeLinks URL_pathname structuredContent validNodes
          (orString (wpUrl config) EmptyString) in
      Some
        {| newTitle := orElse (prop parsed "newTitle") (JStr "Updated Guide 2026");
           metaDescription := orElse (prop parsed "metaDescription") (JStr EmptyString);
           blufSentence := orElse (prop parsed "blufSentence") (JStr EmptyString);
           sgeSummaryHTML := orElse (prop parsed "sgeSummaryHTML") (JStr EmptyString);
           verdictData := orElse (prop parsed "verdictData") defaultVerdict;
           productBoxHTML := orElse (prop parsed "productBoxHTML") (JStr EmptyString);
           comparisonTableHTML :=
             orElse (prop parsed "comparisonTableHTML") (JStr EmptyString);
           faqHTML := orElse (prop parsed "faqHTML") (JStr EmptyString);
           schemaJSON := orElse (prop parsed "schemaJSON") (JStr "{}");
           contentWithLinks := sanitizedContent;
           referencesHTML := referencesHtmlOf references;
           detectedOldProduct := orElse (prop parsed "detectedOldProduct") (JStr "Unknown");
           identifiedNewProduct :=
             orElse (prop parsed "identifiedNewProduct") (JStr "New Model");
           newProductSpecs := orElse (prop parsed "newProductSpecs") defaultSpecs;
           keywordsUsed := topKeywords;
           commercialIntent := coalesce (prop parsed "commercialIntent") (JBool false);
           detectedProducts := orElse (prop parsed "detectedProducts") (JArr []);
           usedInternalLinks := orElse (prop parsed "usedInternalLinks") (JArr []) |}
  | _ => None
  end.

Definition parseAIResponse (text : option string) (references : list ReferenceData)
    (topKeywords : list string) (validNodes : list SemanticNode.t) (config : AIConfig)
    : result AIAnalysisResult :=
  match text with
  | None | Some EmptyString => Throw "AI returned empty text"
  | Some text =>
      let cleanJson := sliceBraces (unfence text) in
      match JSON_parse cleanJson with
      | Some JNull | None => Throw "Failed to parse AI JSON response"
      | Some parsed =>
          match assemble parsed references topKeywords validNodes config with
          | Some r => Ok r
          | None => Throw "Failed to parse AI JSON response"
          end
      end
  end.
End Platform.

End Parse.

(** ** [src/services/aiService.ts]: the adapters and the retry loop of
    [analyzeAndGenerateAssets] *)

Module Engine.
Import Keywords Parse.

(** What the run does to the outside, in order: a call of one of the two
    adapters with its arguments, or a pause of so many milliseconds.
    Console output is not modelled. *)
Inductive event : Type :=
| CallGemini (model apiKey system prompt : string)
| CallOpenAICompatible (url model apiKey system prompt : string)
| Wait (ms : nat).

(** What [fetch] resolves to: the two fields the adapter reads, and what
    [response.json()] resolves to or rejects with. *)
Record Response : Type := {
  ok : bool;
  status : nat;
  body : result json
}.

(** A status in a template literal: its decimal digits. *)
Definition decimal (n : nat) : string := NilEmpty.string_of_uint (Nat.to_uint n).

(** [x?.[0]] and [x?.name] on a value that is neither [undefined] nor
    [null]. *)
Definition item0 (x : json) : option json :=
  match x with
  | JArr items => nth_error items 0
  | JObj fields => field "0" fields
  | JStr (String c _) => Some (JStr (String c EmptyString))
  | _ => None
  end.

(** The step of an optional chain: nothing is read from [undefined] or
    [null]. *)
Definition chain (x : option json) (read : json -> option json) : option json :=
  match x with
  | None | Some JNull => None
  | Some v => read v
  end.

(** [data.choices?.[0]?.message?.content] for a [data] that is not
    [null]. *)
Definition contentOf (data : json) : option json :=
  chain (chain (chain (prop data "choices") item0) (fun v => prop v "message"))
    (fun v => prop v "content").

Definition MAX_RETRIES : nat := 3.

(** Lines 394-396. *)
Definition endpointOf (provider : AIProvider) : string :=
  match provider with
  | groq => "https://api.groq.com/openai/v1/chat/completions"
  | openrouter => "https://openrouter.ai/api/v1/chat/completions"
  | _ => "https://api.openai.com/v1/chat/completions"
  end.

Definition isGemini (provider : AIProvider) : bool :=
  match provider with
  | gemini => true
  | _ => false
  end.

Section Platform.
Variable JSON_parse : string -> option json.
Variable URL_pathname : string -> option string.

(** The engine's sort, where the language leaves the order of the keywords
    open (see [Keywords.sortEntriesWith]). *)
Variable engineSort : list (string * fval) -> list (string * fval).

(** The network. The [i]-th call of the run resolves or rejects with an
    [Error] that has a message: [fetch] with the request the adapter
    builds from its arguments, and the Gemini client, whose reply text is
    a string or [undefined]. *)
Variable fetch : nat -> string -> string -> string -> string -> string -> result Response.
Variable callGemini : nat -> string -> string -> string -> string -> result (option string).

(** The message of the [TypeError] for reading a property of [null]. *)
Variable nullReadMessage : string.

(** Lines 192-212. *)
Definition callOpenAICompatible (i : nat) (url model apiKey system prompt : string)
    : result json :=
  match fetch i url model apiKey system prompt with
  | Throw message => Throw message
  | Ok response =>
      if negb (ok response)
      then Throw ("Provider Error (" ++ decimal (status response) ++ ")")%string
      else
        match body response with
        | Throw message => Throw message
        | Ok JNull => Throw nullReadMessage
        | Ok data => Ok (orElse (contentOf data) (JStr EmptyString))
        end
  end.

(** The two prompts (lines 245-378) are built once, before the loop, from
    the arguments; every attempt sends the same two. *)
Variable systemPrompt userMessage : string.

Variable semanticNeighbors : list SemanticNode.t.
Variable externalRefs : list ReferenceData.
Variable config : AIConfig.

(** [parseAIResponse] on the value an adapter resolved to ([None] is
    [undefined]): a falsy value is an empty reply, and a truthy value
    that is no string has no [match] method. *)
Definition parseReply (semanticKeywords : list string) (responseText : option json)
    : result AIAnalysisResult :=
  match responseText with
  | None =>
      parseAIResponse JSON_parse URL_pathname None externalRefs semanticKeywords
        semanticNeighbors config
  | Some (JStr text) =>
      parseAIResponse JSON_parse URL_pathname (Some text) externalRefs semanticKeywords
        semanticNeighbors config
  | Some v =>
      if truthyJson v then Throw "Failed to parse AI JSON response"
      else Throw "AI returned empty text"
  end.

(** The body of the [try] block of attempt [i] (lines 383-400). *)
Definition attempt (semanticKeywords : list string) (i : nat)
    : event * result AIAnalysisResult :=
  let model_ := if i =? 0 then model config else "gemini-1.5-flash" in
  let provider_ := if i =? 0 then provider config else gemini in
  let call :=
    if isGemini provider_
    then (CallGemini model_ (apiKey config) systemPrompt userMessage,
          match callGemini i model_ (apiKey config) systemPrompt userMessage with
          | Ok (Some text) => Ok (Some (JStr text))
          | Ok None => Ok None
          | Throw message => Throw message
          end)
    else (CallOpenAICompatible (endpointOf provider_) model_ (apiKey config)
            systemPrompt userMessage,
          match callOpenAICompatible i (endpointOf provider_) model_ (apiKey config)
                  systemPrompt userMessage with
          | Ok content => Ok (Some content)
          | Throw message => Throw message
          end) in
  (fst call,
   match snd call with
   | Ok responseText => parseReply semanticKeywords responseText
   | Throw message => Throw message
   end).

(** The loop (lines 380-409) from attempt [i] on, with [n] attempts to
    go: [n] is [MAX_RETRIES - i]. *)
Fixpoint attempts (semanticKeywords : list string) (n i : nat)
    : list event * result AIAnalysisResult :=
  match n with
  | 0 => ([], Throw "AI Generation Failed after retries.")
  | S n' =>
      match attempt semanticKeywords i with
      | (call, Ok r) => ([call], Ok r)
      | (call, Throw message) =>
          if includes message "401" || includes message "403"
          then ([call], Throw message)
          else if i =? MAX_RETRIES - 1
          then ([call], Throw ("AI Generation Failed: " ++ message)%string)
          else
            let (trace, outcome) := attempts semanticKeywords n' (S i) in
            (call :: Wait (2000 + i * 1000) :: trace, outcome)
      end
  end.

(** The key check (line 239), the keywords (line 242) and the loop: what
    the run does to the outside, and what it returns or throws. *)
Definition analyzeAndGenerateAssets : list event * result AIAnalysisResult :=
  if String.eqb (apiKey config) EmptyString
  then ([], Throw "Missing API Key")
  else
    let semanticKeywords := extractTopKeywordsWith engineSort externalRefs in
    attempts semanticKeywords MAX_RETRIES 0.
End Platform.

End Engine.

(** ** Vocabulary of the further statements *)

Module SpecMore.

(** The longest prefix of word characters. *)
Fixpoint takeWord (a : string) : string :=
  match a with
  | EmptyString => EmptyString
  | String c a' => if isWordChar c then String c (takeWord a') else EmptyString
  end.

(** The state of the matcher after the word characters at the front of its
    input. *)
Fixpoint afterWord (st : mstate) (a : string) : mstate :=
  match a with
  | EmptyString => st
  | String c a' =>
      if isWordChar c then afterWord (advance c a' st) a' else st
  end.

(** The number of maximal runs of word characters, reading from a position
    that is ([inword]) or is not inside such a run. *)
Fixpoint wordRuns (inword : bool) (a : string) : nat :=
  match a with
  | EmptyString => 0
  | String c a' =>
      if isWordChar c then (if inword then 0 else 1) + wordRuns true a'
      else wordRuns false a'
  end.

(** A lower-case letter, a digit or the underscore. *)
Definition isTokenChar (c : ascii) : bool :=
  isLowerAZ c || isDigit c || (code c =? 95)%N.

(** A quote of either kind. *)
Definition isQuote (c : ascii) : bool :=
  Ascii.eqb c dquote || Ascii.eqb c "'".

(** A string without its last code unit when that is a slash: one slash
    at most is taken. *)
Fixpoint chopSlash (u : string) : string :=
  match u with
  | EmptyString => EmptyString
  | String c u' =>
      match u' with
      | EmptyString => if Ascii.eqb c "/" then EmptyString else u
      | _ => String c (chopSlash u')
      end
  end.

(** One of the three characters the patterns of the HTML corrector start
    with. *)
Definition isMarkdownChar (c : ascii) : bool :=
  Ascii.eqb c "(" || Ascii.eqb c "#" || Ascii.eqb c "*".

(** The code unit a string starts with passes a test. *)
Definition headIs (q : ascii -> bool) (a : string) : bool :=
  match a with
  | EmptyString => false
  | String c _ => q c
  end.

(** The last code unit of a string passes a test. *)
Fixpoint lastIs (q : ascii -> bool) (a : string) : bool :=
  match a with
  | EmptyString => false
  | String c a' =>
      match a' with
      | EmptyString => q c
      | _ => lastIs q a'
      end
  end.

(** No suffix of a string passes a test. *)
Fixpoint nowhere (Q : string -> bool) (a : string) : bool :=
  negb (Q a) &&
  match a with
  | EmptyString => true
  | String _ a' => nowhere Q a'
  end.

(** Entries sorted by falling count. *)
Definition falling (l : list (string * Keywords.fval)) : Prop :=
  StronglySorted (fun a b => Keywords.countOf b <= Keywords.countOf a) l.

(** The number of times a word stands in a list. *)
Definition occurrences (words : list string) (w : string) : nat :=
  count_occ string_dec words w.

(** What the own property [w] of [freq] is after the words [pre] were
    tallied. *)
Definition expected (pre : list string) (w : string) : option Keywords.fval :=
  if Keywords.counted w && negb (String.eqb w "__proto__") && (0 <? occurrences pre w)
  then Some (if String.eqb w "constructor" then Keywords.Junk
             else Keywords.Count (occurrences pre w))
  else None.

Definition tallied (pre : list string) (freq : Keywords.object) : Prop :=
  NoDup (map fst freq) /\ forall w, Keywords.own freq w = expected pre w.

(** Keywords in the order of falling occurrences, the word "constructor"
    aside (its count is no number). *)
Definition byOccurrences (words : list string) (a b : string) : Prop :=
  a = "constructor" \/ b = "constructor" \/ occurrences words b <= occurrences words a.

(** No code unit of a string passes a test. *)
Fixpoint free (q : ascii -> bool) (a : string) : bool :=
  match a with
  | EmptyString => true
  | String c a' => negb (q c) && free q a'
  end.

Definition isBacktick (c : ascii) : bool := Ascii.eqb c "`".
Definition isOpenBrace (c : ascii) : bool := Ascii.eqb c "{".
Definition isCloseBrace (c : ascii) : bool := Ascii.eqb c "}".

(** The code unit in front of the current position after a text was
    read. *)
Fixpoint lastc (pc : option ascii) (a : string) : option ascii :=
  match a with
  | EmptyString => pc
  | String c a' => lastc (Some c) a'
  end.

(** A fragment of Markdown, as the HTML corrector reads it: runs of text
    and of bold text, on plain lines and on header lines of level 2, 3
    or 4. *)
Inductive segment : Type :=
| Text (p : string)
| Bold (t : string).

Inductive line : Type :=
| Plain (segments : list segment)
| Header (level : nat) (spacing : string) (segments : list segment).

Definition segmentSource (s : segment) : string :=
  match s with
  | Text p => p
  | Bold t => ("**" ++ t ++ "**")%string
  end.

Definition segmentHtml (s : segment) : string :=
  match s with
  | Text p => p
  | Bold t => ("<strong>" ++ t ++ "</strong>")%string
  end.

Definition runSource (segments : list segment) : string :=
  String.concat EmptyString (map segmentSource segments).

Definition runHtml (segments : list segment) : string :=
  String.concat EmptyString (map segmentHtml segments).

Fixpoint hashes (level : nat) : string :=
  match level with
  | O => EmptyString
  | S n => String "#" (hashes n)
  end.

Definition tagOf (level : nat) : string :=
  match level with
  | 2 => "h2"
  | 3 => "h3"
  | _ => "h4"
  end.

Definition lineSource (l : line) : string :=
  match l with
  | Plain segments => runSource segments
  | Header level spacing segments => (hashes level ++ spacing ++ runSource segments)%string
  end.

Definition lineHtml (l : line) : string :=
  match l with
  | Plain segments => runHtml segments
  | Header level _ segments =>
      ("<" ++ tagOf level ++ ">" ++ runHtml segments ++ "</" ++ tagOf level ++ ">")%string
  end.

(** No parenthesis, hash sign or asterisk in the text of a segment, and no
    line terminator in it. *)
Definition plainSegment (s : segment) : bool :=
  match s with
  | Text p => free isMarkdownChar p && free isLineTerminator p
  | Bold t => free isMarkdownChar t && free isLineTerminator t
  end.

(** A header line has two to four hash signs, then white space within the
    line, then text that starts with something else than white space. *)
Definition wellFormed (l : line) : bool :=
  match l with
  | Plain segments => forallb plainSegment segments
  | Header level spacing segments =>
      (2 <=? level) && (level <=? 4)
      && negb (String.eqb spacing EmptyString)
      && free (fun c => negb (isWhiteSpace c)) spacing
      && free isLineTerminator spacing
      && forallb plainSegment segments
      && negb (String.eqb (runSource segments) EmptyString)
      && negb (headIs isWhiteSpace (runSource segments))
  end.

Definition documentSource (lines : list line) : string :=
  String.concat nl (map lineSource lines).

Definition documentHtml (lines : list line) : string :=
  String.concat nl (map lineHtml lines).

(** The start of a line: the start of the input or the place after a line
    terminator. *)
Definition lineStart (pc : option ascii) : bool :=
  match pc with
  | None => true
  | Some c => isLineTerminator c
  end.

(** A line as runs of text: the header tags are text. *)
Definition lineRuns (l : line) : list segment :=
  match l with
  | Plain segments => segments
  | Header level _ segments =>
      Text ("<" ++ tagOf level ++ ">") :: segments ++ [Text ("</" ++ tagOf level ++ ">")]
  end.

Fixpoint documentRuns (lines : list line) : list segment :=
  match lines with
  | [] => []
  | l :: lines' =>
      match lines' with
      | [] => lineRuns l
      | _ => lineRuns l ++ Text nl :: documentRuns lines'
      end
  end.

(** The lines after the pass for the headers of one level. *)
Definition convertLevel (level : nat) (l : line) : line :=
  match l with
  | Plain _ => l
  | Header lv _ _ => if lv =? level then Plain (lineRuns l) else l
  end.

(** What the pass for bold text asks of a run: no asterisk in the text,
    and no line terminator in bold text. *)
Definition boldReady (s : segment) : bool :=
  match s with
  | Text p => free (fun c => Ascii.eqb c "*") p
  | Bold t => free (fun c => Ascii.eqb c "*") t && free isLineTerminator t
  end.

(** A list of items with a dash as the marker, each on a line of its own,
    after a line of text and in front of nothing or of a further line. *)
Definition isLt (c : ascii) : bool := Ascii.eqb c "<".
Definition isDash (c : ascii) : bool := Ascii.eqb c "-".

Record listItem : Type := {
  gap : string;
  entry : string
}.

Definition itemSource (it : listItem) : string :=
  (nl ++ "-" ++ gap it ++ entry it)%string.

Definition itemHtml (it : listItem) : string :=
  ("<li>" ++ entry it ++ "</li>")%string.

(** Text of one line without a parenthesis, a hash sign, an asterisk or an
    opening angle bracket. *)
Definition plainText (x : string) : bool :=
  free isMarkdownChar x && free isLineTerminator x && free isLt x.

(** The marker is followed by a space, and possibly more white space within
    the line, and then by text that starts with something else. *)
Definition wellFormedItem (it : listItem) : bool :=
  startsWith (gap it) " "
  && free (fun c => negb (isWhiteSpace c)) (gap it)
  && free isLineTerminator (gap it)
  && plainText (entry it)
  && negb (headIs isWhiteSpace (entry it))
  && negb (String.eqb (entry it) EmptyString).

Definition followingSource (following : option string) : string :=
  match following with
  | None => EmptyString
  | Some q => (nl ++ q)%string
  end.

Definition followingHtml (following : option string) : string :=
  match following with
  | None => "</ul>"
  | Some q => (nl ++ "</ul>" ++ q)%string
  end.

Definition followingOk (following : option string) : bool :=
  match following with
  | None => true
  | Some q => plainText q && negb (headIs isDash q)
  end.

Definition listSource (pre : string) (items : list listItem) (following : option string)
    : string :=
  (pre ++ String.concat EmptyString (map itemSource items) ++ followingSource following)%string.

Definition listHtml (pre : string) (items : list listItem) (following : option string)
    : string :=
  (pre ++ "<ul>" ++ String.concat EmptyString (map itemHtml items)
   ++ followingHtml following)%string.


Record anchor : Type := {
  blank : string;
  mark : ascii;
  target : string;
  label : string
}.





Inductive piece : Type :=
| Prose (t : string)
| Link (a : anchor).




(** An address is internal when it starts with a slash or holds the site
    URL, or, as a fallback, starts with none of "http", "#" and "mailto";
    the test reads the address in lower case. *)
Definition internalHref (siteUrl href : string) : bool :=
  let lower := toLowerCase href in
  startsWith lower "/"
  || (negb (String.eqb siteUrl EmptyString) && includes lower siteUrl)
  || negb (startsWith lower "http" || startsWith lower "#" || startsWith lower "mailto").

(** A path is known when the normalized URL of some node equals it, ends
    with it, or is what it ends with. *)
Definition knownPath (URL_pathname : string -> option string)
    (validNodes : list SemanticNode.t) (path : string) : bool :=
  existsb (fun n =>
             let vp := AiService.normalize URL_pathname (SemanticNode.url n) in
             String.eqb vp path || endsWith vp path || endsWith path vp)
    validNodes.






Definition first_item : listItem := {| gap := " "; entry := "first" |}.

Definition more_items : list listItem := [{| gap := "  "; entry := "second one" |}].

Definition sample_document : list line :=
  [Header 2 " " [Text "Title"]; Plain [Text "Some "; Bold "bold"; Text " text."]].

(** A [JSON.parse] that knows two texts, and a configuration, for the
    examples. *)
Definition number_reply : string :=
  ("{" ++ dq ++ "contentWithLinks" ++ dq ++ ":5}")%string.

Definition parse_stub (s : string) : option Parse.json :=
  if String.eqb s "{}" then Some (Parse.JObj [])
  else if String.eqb s number_reply
       then Some (Parse.JObj [("contentWithLinks", Parse.JNum 5%float)])
       else None.

Definition sample_config : Parse.AIConfig :=
  {| Parse.provider := Parse.openai; Parse.apiKey := "sk-test"; Parse.model := "gpt-4o";
     Parse.amazonAffiliateTag := None; Parse.wpUrl := Some "https://site.example" |}.

(** The result for an object that has none of the fields. *)
Definition default_result (topKeywords : list string) : Parse.AIAnalysisResult :=
  {| Parse.newTitle := Parse.JStr "Updated Guide 2026";
     Parse.metaDescription := Parse.JStr EmptyString;
     Parse.blufSentence := Parse.JStr EmptyString;
     Parse.sgeSummaryHTML := Parse.JStr EmptyString;
     Parse.verdictData := Parse.defaultVerdict;
     Parse.productBoxHTML := Parse.JStr EmptyString;
     Parse.comparisonTableHTML := Parse.JStr EmptyString;
     Parse.faqHTML := Parse.JStr EmptyString;
     Parse.schemaJSON := Parse.JStr "{}";
     Parse.contentWithLinks := EmptyString;
     Parse.referencesHTML := EmptyString;
     Parse.detectedOldProduct := Parse.JStr "Unknown";
     Parse.identifiedNewProduct := Parse.JStr "New Model";
     Parse.newProductSpecs := Parse.defaultSpecs;
     Parse.keywordsUsed := topKeywords;
     Parse.commercialIntent := Parse.JBool false;
     Parse.detectedProducts := Parse.JArr [];
     Parse.usedInternalLinks := Parse.JArr [] |}.

(** The result for such an object when there are references: the same,
    with the section built from them. *)
Definition reply_result (references : list Keywords.ReferenceData)
    (topKeywords : list string) : Parse.AIAnalysisResult :=
  {| Parse.newTitle := Parse.JStr "Updated Guide 2026";
     Parse.metaDescription := Parse.JStr EmptyString;
     Parse.blufSentence := Parse.JStr EmptyString;
     Parse.sgeSummaryHTML := Parse.JStr EmptyString;
     Parse.verdictData := Parse.defaultVerdict;
     Parse.productBoxHTML := Parse.JStr EmptyString;
     Parse.comparisonTableHTML := Parse.JStr EmptyString;
     Parse.faqHTML := Parse.JStr EmptyString;
     Parse.schemaJSON := Parse.JStr "{}";
     Parse.contentWithLinks := EmptyString;
     Parse.referencesHTML := Parse.referencesHtmlOf references;
     Parse.detectedOldProduct := Parse.JStr "Unknown";
     Parse.identifiedNewProduct := Parse.JStr "New Model";
     Parse.newProductSpecs := Parse.defaultSpecs;
     Parse.keywordsUsed := topKeywords;
     Parse.commercialIntent := Parse.JBool false;
     Parse.detectedProducts := Parse.JArr [];
     Parse.usedInternalLinks := Parse.JArr [] |}.

(** The call of the first attempt and the call of the later ones. *)
Definition configuredCall (config : Parse.AIConfig) (system prompt : string) : Engine.event :=
  if Engine.isGemini (Parse.provider config)
  then Engine.CallGemini (Parse.model config) (Parse.apiKey config) system prompt
  else Engine.CallOpenAICompatible (Engine.endpointOf (Parse.provider config))
         (Parse.model config) (Parse.apiKey config) system prompt.

Definition fallbackCall (config : Parse.AIConfig) (system prompt : string) : Engine.event :=
  Engine.CallGemini "gemini-1.5-flash" (Parse.apiKey config) system prompt.

(** What a run has done to the outside when its attempt [i] is the last:
    the calls, with the pauses between them. *)
Definition traceUpTo (c0 fb : Engine.event) (i : nat) : list Engine.event :=
  match i with
  | 0 => [c0]
  | 1 => [c0; Engine.Wait 2000; fb]
  | _ => [c0; Engine.Wait 2000; fb; Engine.Wait 3000; fb]
  end.

(** An engine that leaves an array as it is where the order is open. *)
Definition idleSort (l : list (string * Keywords.fval)) : list (string * Keywords.fval) := l.

(** A message that makes the loop give up at once. *)
Definition isAuthError (message : string) : bool :=
  includes message "401" || includes message "403".

(** A network for the examples: a Gemini client that always rejects, a
    [fetch] that always answers with a server error, and one that always
    answers with the reply of a model that wraps an empty object. *)
Definition failingGemini (i : nat) (model apiKey system prompt : string)
    : Parse.result (option string) := Parse.Throw "Provider Error (500)".

Definition failingFetch (i : nat) (url model apiKey system prompt : string)
    : Parse.result Engine.Response :=
  Parse.Ok {| Engine.ok := false; Engine.status := 500; Engine.body := Parse.Ok Parse.JNull |}.

Definition deniedFetch (i : nat) (url model apiKey system prompt : string)
    : Parse.result Engine.Response :=
  Parse.Ok {| Engine.ok := false; Engine.status := 401; Engine.body := Parse.Ok Parse.JNull |}.

Definition replyingFetch (i : nat) (url model apiKey system prompt : string)
    : Parse.result Engine.Response :=
  Parse.Ok
    {| Engine.ok := true; Engine.status := 200;
       Engine.body :=
         Parse.Ok (Parse.JObj
                     [("choices",
                       Parse.JArr
                         [Parse.JObj
                            [("message",
                              Parse.JObj [("content", Parse.JStr "{}")])]])]) |}.

Definition laptop_refs : list Keywords.ReferenceData :=
  [{| Keywords.title := "Best Laptop 2026"; Keywords.link := "https://a.example";
      Keywords.snippet := "The laptop with the longest battery life." |};
   {| Keywords.title := "Laptop battery test"; Keywords.link := "https://b.example";
      Keywords.snippet := "Battery results for every laptop." |}].

(** What the failing adapters make of a run, and the call of a run that
    is answered at once. *)
Definition openai_call : Engine.event :=
  Engine.CallOpenAICompatible "https://api.openai.com/v1/chat/completions" "gpt-4o"
    "sk-test" "system" "prompt".

Definition flash_call : Engine.event :=
  Engine.CallGemini "gemini-1.5-flash" "sk-test" "system" "prompt".

Definition failing_trace : list Engine.event :=
  [openai_call; Engine.Wait 2000; flash_call; Engine.Wait 3000; flash_call].

(** The keywords of the two references about laptops. *)
Definition laptop_keywords : list string :=
  ["laptop"; "battery"; "2026"; "longest"; "life"; "test"; "results"; "every"].

(** Three runs on the references about laptops, on an engine that leaves
    an array as it is where the order is open: with a provider that
    always fails, one that denies access, and one that replies. *)
Definition failing_run : list Engine.event * Parse.result Parse.AIAnalysisResult :=
  Engine.analyzeAndGenerateAssets parse_stub no_URL idleSort failingFetch failingGemini
    EmptyString "system" "prompt" [] laptop_refs sample_config.

Definition failing_attempt (kws : list string) (i : nat)
    : Engine.event * Parse.result Parse.AIAnalysisResult :=
  Engine.attempt parse_stub no_URL failingFetch failingGemini EmptyString "system" "prompt"
    [] laptop_refs sample_config kws i.

Definition denied_run : list Engine.event * Parse.result Parse.AIAnalysisResult :=
  Engine.analyzeAndGenerateAssets parse_stub no_URL idleSort deniedFetch failingGemini
    EmptyString "system" "prompt" [] laptop_refs sample_config.

Definition replying_run : list Engine.event * Parse.result Parse.AIAnalysisResult :=
  Engine.analyzeAndGenerateAssets parse_stub no_URL idleSort replyingFetch failingGemini
    EmptyString "system" "prompt" [] laptop_refs sample_config.

End SpecMore.

Import SpecMore.

(** * Properties *)

(** ** Strings *)

Module StringFacts.

Lemma append_nil_r (a : string) : (a ++ "")%string = a.
Proof. induction a as [|c a IH]; simpl; [reflexivity | now rewrite IH]. Qed.

Lemma append_assoc (a b c : string) :
  ((a ++ b) ++ c)%string = (a ++ (b ++ c))%string.
Proof. induction a as [|x a IH]; simpl; [reflexivity | now rewrite IH]. Qed.

Lemma length_append (a b : string) :
  String.length (a ++ b) = String.length a + String.length b.
Proof. induction a as [|x a IH]; simpl; [reflexivity | now rewrite IH]. Qed.

Lemma substring_0_0 (a : string) : substring 0 0 a = EmptyString.
Proof. destruct a; reflexivity. Qed.

Lemma substring_n_0 (n : nat) (a : string) : substring n 0 a = EmptyString.
Proof.
  revert a; induction n as [|n IH]; intros a.
  - apply substring_0_0.
  - destruct a; simpl; [reflexivity | apply IH].
Qed.

Lemma substring_prefix (a b : string) :
  substring 0 (String.length a) (a ++ b) = a.
Proof.
  induction a as [|x a IH]; simpl.
  - apply substring_0_0.
  - now rewrite IH.
Qed.

Lemma chars_append (a b : string) : chars (a ++ b) = chars a ++ chars b.
Proof. induction a as [|x a IH]; simpl; [reflexivity | now rewrite <- IH]. Qed.

Lemma chars_nil_inv (a : string) : chars a = [] -> a = EmptyString.
Proof. destruct a; [reflexivity | discriminate]. Qed.

Lemma startsWith_nil (a : string) : startsWith a "" = true.
Proof. destruct a; reflexivity. Qed.

Lemma includes_nil (a : string) : includes a "" = true.
Proof. destruct a; reflexivity. Qed.

Lemma endsWith_nil (a : string) : endsWith a "" = true.
Proof.
  unfold endsWith; simpl. now rewrite substring_n_0.
Qed.

Lemma toLowerChar_idem (c : ascii) : toLowerChar (toLowerChar c) = toLowerChar c.
Proof. destruct c as [[] [] [] [] [] [] [] []]; reflexivity. Qed.

Lemma toLowerCase_idem (a : string) : toLowerCase (toLowerCase a) = toLowerCase a.
Proof.
  induction a as [|c a IH]; simpl; [reflexivity|].
  now rewrite toLowerChar_idem, IH.
Qed.

Lemma chars_toLowerCase (a : string) : chars (toLowerCase a) = map toLowerChar (chars a).
Proof. induction a as [|c a IH]; simpl; [reflexivity | now rewrite <- IH]. Qed.

Lemma whitespace_lower (c : ascii) : isWhiteSpace c = true -> toLowerChar c = c.
Proof. destruct c as [[] [] [] [] [] [] [] []]; simpl; solve [reflexivity | discriminate]. Qed.

(** A string whose characters are their own lower case is lower case. *)
Lemma toLowerCase_fixed (a : string) :
  (forall c, In c (chars a) -> toLowerChar c = c) -> toLowerCase a = a.
Proof.
  induction a as [|c a IH]; simpl; intros H; [reflexivity|].
  rewrite (H c (or_introl eq_refl)), IH; [reflexivity|].
  intros x Hx; apply H; now right.
Qed.

Lemma trimEnd_idem (a : string) : trimEnd (trimEnd a) = trimEnd a.
Proof.
  induction a as [|c a IH]; simpl; [reflexivity|].
  destruct (trimEnd a) as [|y t] eqn:E.
  - destruct (isWhiteSpace c) eqn:W; simpl; [reflexivity | now rewrite W].
  - simpl in *. now rewrite IH.
Qed.

Lemma trimStart_trimEnd (a : string) :
  trimStart a = a -> trimStart (trimEnd a) = trimEnd a.
Proof.
  destruct a as [|c a]; simpl; [reflexivity|].
  destruct (isWhiteSpace c) eqn:W.
  - intros H. exfalso.
    assert (L : String.length (trimStart a) <= String.length a).
    { clear. induction a as [|x a IH]; simpl; [lia|].
      destruct (isWhiteSpace x); simpl; lia. }
    rewrite H in L; simpl in L; lia.
  - intros _. destruct (trimEnd a); simpl; now rewrite W.
Qed.

Lemma trimStart_idem (a : string) : trimStart (trimStart a) = trimStart a.
Proof.
  induction a as [|c a IH]; simpl; [reflexivity|].
  destruct (isWhiteSpace c) eqn:W; [exact IH | simpl; now rewrite W].
Qed.

Lemma trim_idem (a : string) : trim (trim a) = trim a.
Proof.
  unfold trim.
  rewrite (trimStart_trimEnd (trimStart a) (trimStart_idem a)).
  apply trimEnd_idem.
Qed.

End StringFacts.

Import StringFacts.

(** ** The matcher and the built-ins *)

Module RegexFacts.

Lemma reaches_refl st : reaches st st.
Proof. exists EmptyString; simpl; split; [reflexivity | lia]. Qed.

Lemma reaches_trans a b c : reaches a b -> reaches b c -> reaches a c.
Proof.
  intros [u [Hu Pu]] [v [Hv Pv]]. exists (u ++ v)%string. split.
  - now rewrite Hu, Hv, append_assoc.
  - rewrite length_append; lia.
Qed.

Lemma reaches_advance st c s' : rest st = String c s' -> reaches st (advance c s' st).
Proof. intros H. exists (String c EmptyString); simpl; split; [exact H | lia]. Qed.

Lemma reaches_pos st st' : reaches st st' -> pos st <= pos st'.
Proof. intros [u [_ P]]; lia. Qed.

Section Sound.
Context {A : Type}.
Implicit Types (k : @cont A) (st : mstate).

Lemma m_char_sound p : @sound A (m_char p).
Proof.
  intros st k res. unfold m_char.
  destruct (rest st) as [|c s'] eqn:E; [discriminate|].
  destruct (p c); [|discriminate]. intros H.
  exists (advance c s' st); split; [now apply reaches_advance | exact H].
Qed.

Lemma m_text_sound fl t : @sound A (m_text fl t).
Proof.
  induction t as [|a t IH]; intros st k res; simpl.
  - intros H; exists st; split; [apply reaches_refl | exact H].
  - intros H. apply m_char_sound in H as [st1 [R1 H1]].
    apply IH in H1 as [st2 [R2 H2]].
    exists st2; split; [eapply reaches_trans; eauto | exact H2].
Qed.

Lemma orelse_some (a : option A) b res :
  orelse a b = Some res -> a = Some res \/ (a = None /\ b tt = Some res).
Proof. destruct a; simpl; intros H; [now left | now right]. Qed.

Lemma sound_clear gs f : sound f -> @sound A (fun x c => f (clear_caps gs x) c).
Proof.
  intros Hf st k res H. apply Hf in H as [st' [[u [Hu Pu]] H]].
  exists st'; split; [exists u; simpl in *; now split | exact H].
Qed.

Lemma repeat_loop_sound body g fuel : @sound A body -> @sound A (repeat_loop body g fuel).
Proof.
  intros Hb. induction fuel as [|f IH]; intros st k res; simpl.
  - intros H; exists st; split; [apply reaches_refl | exact H].
  - assert (Hiter : body st (fun st' => if pos st <? pos st'
                                       then repeat_loop body g f st' k else None)
                    = Some res -> exists st', reaches st st' /\ k st' = Some res).
    { intros H. apply Hb in H as [st1 [R1 H1]].
      destruct (pos st <? pos st1); [|discriminate].
      apply IH in H1 as [st2 [R2 H2]].
      exists st2; split; [eapply reaches_trans; eauto | exact H2]. }
    destruct g; intros H; apply orelse_some in H as [H | [_ H]]; auto;
      exists st; split; auto using reaches_refl.
Qed.

Lemma m_sound fl r : @sound A (m fl r).
Proof.
  induction r as [ | c | | neg items | r1 IH1 r2 IH2 | r1 IH1 r2 IH2
                 | g r1 IH1 | g r1 IH1 | g r1 IH1 | i r1 IH1 | i | | | ];
    intros st k res; simpl.
  - intros H; exists st; split; [apply reaches_refl | exact H].
  - apply m_char_sound.
  - apply m_char_sound.
  - apply m_char_sound.
  - intros H. apply IH1 in H as [st1 [R1 H1]]. apply IH2 in H1 as [st2 [R2 H2]].
    exists st2; split; [eapply reaches_trans; eauto | exact H2].
  - intros H. apply orelse_some in H as [H | [_ H]]; [now apply IH1 | now apply IH2].
  - apply repeat_loop_sound. now apply sound_clear.
  - intros H. apply (sound_clear _ _ IH1) in H as [st1 [R1 H1]].
    apply repeat_loop_sound in H1 as [st2 [R2 H2]]; [|now apply sound_clear].
    exists st2; split; [eapply reaches_trans; eauto | exact H2].
  - assert (Hiter : m fl r1 (clear_caps (groups_of r1) st)
                      (fun st' => if pos st <? pos st' then k st' else None) = Some res ->
                    exists st', reaches st st' /\ k st' = Some res).
    { intros H. apply (sound_clear _ _ IH1) in H as [st1 [R1 H1]].
      destruct (pos st <? pos st1); [|discriminate]. now exists st1. }
    destruct g; intros H; apply orelse_some in H as [H | [_ H]]; auto;
      exists st; split; auto using reaches_refl.
  - intros H. apply IH1 in H as [st1 [[u [Hu Pu]] H1]].
    eexists; split; [|exact H1]. exists u; simpl; now split.
  - destruct (lookup i (caps st)).
    + apply m_text_sound.
    + intros H; exists st; split; [apply reaches_refl | exact H].
  - destruct (at_bol fl st); [|discriminate].
    intros H; exists st; split; [apply reaches_refl | exact H].
  - destruct (at_eol fl st); [|discriminate].
    intros H; exists st; split; [apply reaches_refl | exact H].
  - destruct (xorb _ _); [|discriminate].
    intros H; exists st; split; [apply reaches_refl | exact H].
Qed.

Lemma m_char_local p : @local A (m_char p).
Proof.
  intros st k1 k2 H. unfold m_char.
  destruct (rest st) as [|c s'] eqn:E; [reflexivity|].
  destruct (p c); [|reflexivity]. apply H. now apply reaches_advance.
Qed.

Lemma m_text_local fl t : @local A (m_text fl t).
Proof.
  induction t as [|a t IH]; intros st k1 k2 H; simpl.
  - apply H, reaches_refl.
  - apply m_char_local. intros st1 R1. apply IH. intros st2 R2.
    apply H. eapply reaches_trans; eauto.
Qed.

Lemma local_clear gs f : @local A f -> @local A (fun x c => f (clear_caps gs x) c).
Proof.
  intros Hf st k1 k2 H. apply Hf. intros st' [u [Hu Pu]]. apply H.
  exists u. simpl in *. now split.
Qed.

Lemma repeat_loop_local body g fuel : @local A body -> @local A (repeat_loop body g fuel).
Proof.
  intros Hb. induction fuel as [|f IH]; intros st k1 k2 H; simpl.
  - apply H, reaches_refl.
  - rewrite (H st (reaches_refl st)).
    rewrite (Hb st _ (fun st' => if pos st <? pos st'
                                 then repeat_loop body g f st' k2 else None)).
    + reflexivity.
    + intros st1 R1. destruct (pos st <? pos st1); [|reflexivity].
      apply IH. intros st2 R2. apply H. eapply reaches_trans; eauto.
Qed.

Lemma m_local fl r : @local A (m fl r).
Proof.
  induction r as [ | c | | neg items | r1 IH1 r2 IH2 | r1 IH1 r2 IH2
                 | g r1 IH1 | g r1 IH1 | g r1 IH1 | i r1 IH1 | i | | | ];
    intros st k1 k2 H; simpl;
    try apply m_char_local; try (rewrite (H st (reaches_refl st)); reflexivity);
    try exact H.
  - apply IH1. intros st1 R1. apply IH2. intros st2 R2.
    apply H. eapply reaches_trans; eauto.
  - now rewrite (IH1 st k1 k2 H), (IH2 st k1 k2 H).
  - apply repeat_loop_local; [now apply local_clear | exact H].
  - apply (local_clear _ _ IH1). intros st1 R1.
    apply repeat_loop_local; [now apply local_clear|].
    intros st2 R2. apply H. eapply reaches_trans; eauto.
  - rewrite (H st (reaches_refl st)).
    rewrite (local_clear _ _ IH1 st _ (fun st' => if pos st <? pos st' then k2 st' else None)).
    + reflexivity.
    + intros st1 R1. destruct (pos st <? pos st1); [|reflexivity]. now apply H.
  - apply IH1. intros st1 [u [Hu Pu]]. apply H. exists u. simpl. now split.
  - destruct (lookup i (caps st)); [now apply m_text_local | apply H, reaches_refl].
Qed.

(** The fuel of the star is enough: with the remaining input or more, the
    loop gives the same result. *)
Lemma repeat_loop_fuel body g : @sound A body -> @local A body ->
  forall f1 f2 st k,
    String.length (rest st) <= f1 -> String.length (rest st) <= f2 ->
    repeat_loop body g f1 st k = repeat_loop body g f2 st k.
Proof.
  intros Hs Hl.
  assert (Hshrink : forall st st', reaches st st' -> pos st < pos st' ->
                      String.length (rest st') < String.length (rest st)).
  { intros st st' [u [Hu Pu]] Hp. rewrite Hu, length_append. lia. }
  assert (Hiter : forall f1 f2 st k,
            (forall st', String.length (rest st') <= f1 -> String.length (rest st') <= f2 ->
                         repeat_loop body g f1 st' k = repeat_loop body g f2 st' k) ->
            String.length (rest st) <= S f1 -> String.length (rest st) <= S f2 ->
            body st (fun st' => if pos st <? pos st' then repeat_loop body g f1 st' k else None)
            = body st (fun st' => if pos st <? pos st' then repeat_loop body g f2 st' k else None)).
  { intros f1 f2 st k IH L1 L2. apply Hl. intros st' R.
    destruct (pos st <? pos st') eqn:P; [|reflexivity].
    apply Nat.ltb_lt in P. pose proof (Hshrink _ _ R P). apply IH; lia. }
  assert (Hstop : forall f st k, String.length (rest st) = 0 ->
            body st (fun st' => if pos st <? pos st' then repeat_loop body g f st' k else None)
            = None).
  { intros f st k L.
    destruct (body st _) as [res|] eqn:E; [|reflexivity]. exfalso.
    apply Hs in E as [st' [R E]].
    destruct (pos st <? pos st') eqn:P; [|discriminate].
    apply Nat.ltb_lt in P. pose proof (Hshrink _ _ R P). lia. }
  induction f1 as [|f1 IH]; intros f2 st k L1 L2.
  - destruct f2 as [|f2]; [reflexivity|]. simpl.
    rewrite Hstop by lia. now destruct g, (k st).
  - destruct f2 as [|f2]; simpl.
    + rewrite Hstop by lia. now destruct g, (k st).
    + rewrite (Hiter f1 f2 st k); [reflexivity | | exact L1 | exact L2].
      intros st' A1 A2. now apply IH.
Qed.

Lemma star_fuel fl g r st k n :
  m fl (Star g r) st k =
  repeat_loop (fun x c => m fl r (clear_caps (groups_of r) x) c) g
    (String.length (rest st) + n) st k.
Proof.
  simpl. apply repeat_loop_fuel; try lia.
  - apply sound_clear, m_sound.
  - apply local_clear, m_local.
Qed.
End Sound.

Lemma drop_append (u v : string) : drop (String.length u) (u ++ v) = v.
Proof. induction u as [|c u IH]; simpl; [now destruct v | exact IH]. Qed.

Lemma drop_0 (a : string) : drop 0 a = a.
Proof. now destruct a. Qed.

Lemma m_char_inv {A} p st (k : @cont A) res :
  m_char p st k = Some res ->
  exists c s', rest st = String c s' /\ p c = true /\ k (advance c s' st) = Some res.
Proof.
  unfold m_char. destruct (rest st) as [|c s']; [discriminate|].
  destruct (p c) eqn:E; [|discriminate]. intros H. now exists c, s'.
Qed.

Section Builtins.
Variable fl : flags.
Variable r : regex.

(** A match covers a prefix of the input it was tried on. *)
Lemma match_at_sound pc p a mt :
  match_at fl r pc p a = Some mt ->
  index mt = p /\ exists a', a = (whole mt ++ a')%string.
Proof.
  unfold match_at. intros H.
  apply m_sound in H as [st' [[u [Hu Pu]] H]]. simpl in *.
  injection H as <-. simpl. split; [reflexivity|].
  exists (rest st'). replace (pos st' - p) with (String.length u) by lia.
  subst a. now rewrite substring_prefix.
Qed.

Lemma match_at_nil pc p mt :
  match_at fl r pc p EmptyString = Some mt -> whole mt = EmptyString.
Proof.
  intros H. apply match_at_sound in H as [_ [a' H]].
  destruct (whole mt); [reflexivity | discriminate].
Qed.

(** Without a match from a position on, the walk keeps everything. *)
Lemma scan_no_match f a : forall pc p,
  search_from fl r pc p a = None -> render f (scan_from fl r 0 pc p a) = a.
Proof.
  induction a as [|c a IH]; intros pc p; simpl;
    destruct (match_at fl r pc p _); try discriminate; [reflexivity|].
  intros H. simpl. now rewrite IH.
Qed.

Lemma replace_all_no_match f a :
  test fl r a = false -> replace_all fl r f a = a.
Proof.
  unfold test, replace_all, scan.
  destruct (search_from fl r None 0 a) eqn:E; [discriminate|].
  intros _. now apply scan_no_match.
Qed.

(** The kept code units and the matched texts make up the input: the
    walk loses and invents nothing. *)
Lemma render_whole_scan a : forall skip pc p,
  skip <= String.length a ->
  render whole (scan_from fl r skip pc p a) = drop skip a.
Proof.
  induction a as [|c a IH]; intros skip pc p Hs; simpl in Hs.
  - assert (skip = 0) by lia; subst skip. simpl.
    destruct (match_at fl r pc p "") as [mt|] eqn:E; [|reflexivity].
    simpl. now rewrite (match_at_nil _ _ _ E).
  - destruct skip as [|n]; [|simpl; apply IH; lia].
    simpl. destruct (match_at fl r pc p (String c a)) as [mt|] eqn:E.
    + apply match_at_sound in E as [_ [a' E]].
      destruct (whole mt) as [|x u] eqn:W; simpl.
      * rewrite W; simpl. rewrite IH by lia. now rewrite drop_0.
      * rewrite W; simpl. simpl in E. injection E as <- E.
        rewrite IH by (rewrite E, length_append; lia).
        now rewrite E, drop_append.
    + simpl. rewrite IH by lia. now rewrite drop_0.
Qed.

Lemma render_whole a : render whole (scan fl r a) = a.
Proof. unfold scan. rewrite render_whole_scan by lia. apply drop_0. Qed.

(** A global replacement by the empty string only removes code units. *)
Lemma render_empty_chars a x : forall skip pc p,
  In x (chars (render (fun _ => EmptyString) (scan_from fl r skip pc p a))) ->
  In x (chars a).
Proof.
  induction a as [|c a IH]; intros skip pc p.
  - destruct skip; simpl; [destruct (match_at fl r pc p "")|]; simpl; tauto.
  - destruct skip as [|n]; simpl.
    + destruct (match_at fl r pc p (String c a)) as [mt|]; simpl.
      * destruct (String.length (whole mt)); simpl; intros H.
        -- destruct H as [H | H]; [now left | right; eapply IH; eauto].
        -- right; eapply IH; eauto.
      * intros [H | H]; [now left | right; eapply IH; eauto].
    + intros H; right; eapply IH; eauto.
Qed.

(** The pieces of [split] are made of code units of the input. *)
Lemma split_from_chars x piece a : forall skip pc p cur,
  In piece (split_from fl r skip pc p a cur) -> In x (chars piece) ->
  In x (chars cur) \/ In x (chars a).
Proof.
  induction a as [|c a IH]; intros skip pc p cur; simpl.
  - intros [<- | []] Hx; now left.
  - destruct skip as [|n].
    + destruct (match_at fl r pc p (String c a)) as [mt|].
      * destruct (String.length (whole mt)).
        -- destruct cur as [|y cur].
           ++ intros H Hx. destruct (IH _ _ _ _ H Hx) as [Hc | Ha]; [|tauto].
              simpl in Hc. tauto.
           ++ intros [<- | H] Hx; [now left|].
              destruct (IH _ _ _ _ H Hx) as [Hc | Ha]; [|tauto].
              simpl in Hc. tauto.
        -- intros [<- | H] Hx; [now left|].
           destruct (IH _ _ _ _ H Hx) as [Hc | Ha]; [|tauto].
           simpl in Hc. tauto.
      * intros H Hx. destruct (IH _ _ _ _ H Hx) as [Hc | Ha]; [|tauto].
        rewrite chars_append in Hc. apply in_app_or in Hc as [Hc | Hc]; [now left|].
        simpl in Hc. tauto.
    + intros H Hx. destruct (IH _ _ _ _ H Hx) as [Hc | Ha]; tauto.
Qed.

Lemma split_chars x piece a :
  In piece (split fl r a) -> In x (chars piece) -> In x (chars a).
Proof.
  unfold split. destruct a as [|c a].
  - destruct (match_at fl r None 0 ""); simpl; [tauto|].
    intros [<- | []] H; exact H.
  - intros H Hx.
    destruct (split_from_chars _ _ _ _ _ _ _ H Hx) as [Hc | Ha]; [destruct Hc | exact Ha].
Qed.

(** A term that tests one code unit: a global replacement by the empty
    string removes exactly the code units that pass the test. *)
Lemma match_at_unit q pc p c a :
  (forall st (k : @cont rmatch), m fl r st k = m_char q st k) ->
  match_at fl r pc p (String c a) =
  if q c then Some {| index := p; whole := String c EmptyString; groups := [] |}
  else None.
Proof.
  intros Hq. unfold match_at. rewrite Hq. unfold m_char, advance.
  cbn [rest pos caps]. destruct (q c); [|reflexivity].
  replace (S p - p) with 1 by lia.
  cbn [substring]. now rewrite substring_0_0.
Qed.

Lemma remove_units q a :
  (forall st (k : @cont rmatch), m fl r st k = m_char q st k) ->
  replace_all fl r (fun _ => EmptyString) a = reject q a.
Proof.
  intros Hq. unfold replace_all, scan.
  enough (G : forall pc p,
             render (fun _ => EmptyString) (scan_from fl r 0 pc p a) = reject q a)
    by apply G.
  induction a as [|c a IH]; intros pc p.
  - simpl. unfold match_at. rewrite Hq. reflexivity.
  - cbn [scan_from reject]. rewrite (match_at_unit q) by exact Hq.
    destruct (q c); cbn [whole String.length render append]; now rewrite IH.
Qed.
End Builtins.

End RegexFacts.

(** ** Sets *)

Module JsSetFacts.
Import JsSet.

Lemma has_In set x : has set x = true <-> In x set.
Proof.
  unfold has. rewrite existsb_exists. split.
  - intros [y [Hy E]]. apply String.eqb_eq in E. now subst.
  - intros H. exists x. split; [exact H | apply String.eqb_refl].
Qed.

Lemma has_false set x : has set x = false <-> ~ In x set.
Proof.
  rewrite <- has_In. destruct (has set x); split; intros H; congruence.
Qed.

Lemma add_all_In l : forall set x, In x (add_all set l) <-> In x set \/ In x l.
Proof.
  induction l as [|y l IH]; intros set x; simpl; [tauto|].
  rewrite IH. unfold add. destruct (has set y) eqn:E.
  - apply has_In in E. intuition (subst; auto).
  - rewrite in_app_iff. simpl. tauto.
Qed.

Lemma add_all_NoDup l : forall set, NoDup set -> NoDup (add_all set l).
Proof.
  induction l as [|y l IH]; intros set H; simpl; [exact H|].
  apply IH. unfold add. destruct (has set y) eqn:E; [exact H|].
  apply has_false in E.
  apply NoDup_app; [exact H | repeat constructor; simpl; tauto |].
  intros a Ha [<- | []]. contradiction.
Qed.

Lemma of_array_In l x : In x (of_array l) <-> In x l.
Proof. unfold of_array. rewrite add_all_In. simpl. tauto. Qed.

Lemma of_array_NoDup l : NoDup (of_array l).
Proof. apply add_all_NoDup. constructor. Qed.

Lemma of_array_nonempty l : l <> [] -> of_array l <> [].
Proof.
  destruct l as [|x l]; [congruence|]. intros _ E.
  assert (H : In x (of_array (x :: l))) by (apply of_array_In; now left).
  rewrite E in H. destruct H.
Qed.

End JsSetFacts.

(** ** The tokenizer and the mesh builder *)

Module WorkerFacts.
Import Worker RegexFacts JsSetFacts.

Lemma repeat_loop_greedy_total {A} body fuel st (k : @cont A) :
  (forall x, k x <> None) -> repeat_loop body true fuel st k <> None.
Proof.
  intros Hk. destruct fuel; simpl; [apply Hk|].
  unfold orelse. destruct (body st _); [discriminate | apply Hk].
Qed.

(** [/\s+/] matches wherever a white space character stands. *)
Lemma spaces_match_at_none pc p c a :
  match_at no_flags re_spaces pc p (String c a) = None -> isWhiteSpace c = false.
Proof.
  destruct (isWhiteSpace c) eqn:W; [|reflexivity]. intros H. exfalso.
  revert H. unfold match_at, re_spaces, re_s. cbn [m]. unfold m_char.
  cbn [rest clear_caps class_mem no_flags ignoreCase existsb cset_mem].
  rewrite W. cbn [orb xorb].
  apply repeat_loop_greedy_total. discriminate.
Qed.

(** ... and its matches are never empty. *)
Lemma spaces_match_at_some pc p a mt :
  match_at no_flags re_spaces pc p a = Some mt -> String.length (whole mt) <> 0.
Proof.
  unfold match_at, re_spaces, re_s. cbn [m]. intros H.
  apply m_char_inv in H as [c [s' [Hr [_ H]]]].
  apply repeat_loop_sound in H as [st2 [[u [Hu Pu]] H]].
  2:{ apply (sound_clear _ (m_char _)). apply m_char_sound. }
  cbn [rest pos advance clear_caps] in *. injection H as <-. cbn [whole].
  subst a. replace (pos st2 - p) with (S (String.length u)) by lia.
  simpl. discriminate.
Qed.

(** The pieces of [split(/\s+/)] hold no white space. *)
Lemma split_spaces_clean a : forall skip pc p cur piece x,
  (forall y, In y (chars cur) -> isWhiteSpace y = false) ->
  In piece (split_from no_flags re_spaces skip pc p a cur) ->
  In x (chars piece) -> isWhiteSpace x = false.
Proof.
  induction a as [|c a IH]; intros skip pc p cur piece x Hcur; cbn [split_from].
  - intros [<- | []]. apply Hcur.
  - destruct skip as [|n]; [|now apply IH].
    destruct (match_at no_flags re_spaces pc p (String c a)) as [mt|] eqn:E.
    + apply spaces_match_at_some in E.
      destruct (String.length (whole mt)) as [|n]; [congruence|].
      intros [<- | H]; [apply Hcur|].
      eapply IH; [|exact H]. intros y [].
    + apply spaces_match_at_none in E.
      apply IH. intros y Hy. rewrite chars_append in Hy.
      apply in_app_or in Hy as [Hy | [<- | []]]; [now apply Hcur | exact E].
Qed.

Lemma split_spaces_no_space a piece x :
  In piece (split no_flags re_spaces a) -> In x (chars piece) -> isWhiteSpace x = false.
Proof.
  unfold split. destruct a as [|c a].
  - destruct (match_at no_flags re_spaces None 0 ""); [intros []|].
    intros [<- | []] [].
  - apply split_spaces_clean. intros y [].
Qed.

(** The words the filter of [tokenize] sees are made of lower-cased code
    units of the text. *)
Lemma word_chars text piece x :
  In piece (split no_flags re_spaces
              (replace_all no_flags re_punct (fun _ => EmptyString) (toLowerCase text))) ->
  In x (chars piece) -> exists y, In y (chars text) /\ x = toLowerChar y.
Proof.
  intros Hp Hx.
  pose proof (split_chars _ _ _ _ _ Hp Hx) as H.
  apply render_empty_chars in H.
  rewrite chars_toLowerCase in H. apply in_map_iff in H as [y [E Hy]].
  now exists y.
Qed.

Lemma filter_none {A} (f : A -> bool) l :
  (forall x, In x l -> f x = false) -> filter f l = [].
Proof.
  induction l as [|x l IH]; simpl; intros H; [reflexivity|].
  rewrite (H x (or_introl eq_refl)). apply IH. intros y Hy. apply H. now right.
Qed.

Lemma tokenize_In text token :
  In token (tokenize text) <->
  In token (split no_flags re_spaces
              (replace_all no_flags re_punct (fun _ => EmptyString) (toLowerCase text)))
  /\ significant token = true.
Proof. unfold tokenize. now rewrite of_array_In, filter_In. Qed.

(** C5. Every token of [tokenize text] is longer than 2 code units, is
    lower case and is no stop word; the tokens are pairwise distinct;
    two texts with the same lower-case form (as "Cats" and "cats") have
    the same tokens; and a text of white space only, the empty text
    included, has none. *)
Theorem tokenize_spec (text : string) :
  (forall token, In token (tokenize text) ->
     2 < String.length token /\ toLowerCase token = token /\
     ~ In token stopWords) /\
  NoDup (tokenize text) /\
  (forall text', toLowerCase text' = toLowerCase text -> tokenize text' = tokenize text) /\
  tokenize "Cats" = tokenize "cats" /\
  tokenize "" = [] /\
  ((forall c, In c (chars text) -> isWhiteSpace c = true) -> tokenize text = []).
Proof.
  repeat split.
  - apply tokenize_In in H as [_ H]. unfold significant in H.
    apply andb_true_iff in H as [H _]. now apply Nat.ltb_lt in H.
  - apply tokenize_In in H as [H _]. apply toLowerCase_fixed. intros c Hc.
    destruct (word_chars _ _ _ H Hc) as [y [_ ->]]. apply toLowerChar_idem.
  - apply tokenize_In in H as [_ H]. unfold significant in H.
    apply andb_true_iff in H as [_ H]. apply negb_true_iff in H.
    now apply has_false in H.
  - apply of_array_NoDup.
  - intros text' E. unfold tokenize. now rewrite E.
  - intros Hws. unfold tokenize.
    rewrite filter_none; [reflexivity|]. intros piece Hp.
    rewrite (chars_nil_inv piece); [reflexivity|].
    destruct (chars piece) as [|x l] eqn:E; [reflexivity|]. exfalso.
    assert (Hx : In x (chars piece)) by (rewrite E; now left).
    pose proof (split_spaces_no_space _ _ _ Hp Hx) as Hn.
    destruct (word_chars _ _ _ Hp Hx) as [y [Hy ->]].
    rewrite (whitespace_lower y (Hws y Hy)) in Hn.
    rewrite (Hws y Hy) in Hn. discriminate.
Qed.

(** C5, on a concrete text: punctuation, case, stop words, short words
    and repetitions. *)
Lemma tokenize_spec_witness :
  tokenize "The Cats, and the DOGS! cats  it's" = ["cats"; "dogs"; "its"] /\
  (forall token, In token (tokenize "The Cats, and the DOGS! cats  it's") ->
     2 < String.length token /\ toLowerCase token = token /\
     ~ In token stopWords).
Proof.
  split; [vm_compute; reflexivity|].
  apply (tokenize_spec "The Cats, and the DOGS! cats  it's").
Defined.

(** C6. [BUILD_MESH] answers with one node per post, in the order of the
    posts; the node of a post carries its id, title and link, and the
    tokens of its title, a space and its slug. *)
Theorem buildMesh_spec (posts : list WPPostHeader.t) :
  List.length (buildMesh posts) = List.length posts /\
  forall i, nth_error (buildMesh posts) i =
    option_map (fun p =>
      {| SemanticNode.id := WPPostHeader.id p;
         SemanticNode.title := WPPostHeader.title_rendered p;
         SemanticNode.url := WPPostHeader.link p;
         SemanticNode.tokens :=
           tokenize (WPPostHeader.title_rendered p ++ " " ++ WPPostHeader.slug p)%string |})
      (nth_error posts i).
Proof.
  unfold buildMesh. split; [apply length_map|].
  intros i. apply nth_error_map.
Qed.

Lemma filter_all {A} (f : A -> bool) l :
  (forall x, In x l -> f x = true) -> filter f l = l.
Proof.
  induction l as [|x l IH]; simpl; intros H; [reflexivity|].
  rewrite (H x (or_introl eq_refl)). f_equal. apply IH. intros y Hy. apply H. now right.
Qed.

(** The [while] loop as two counts over the [href] values. *)
Lemma countLinks_fold cs l : forall i e,
  fold_left (countLink cs) l (i, e) =
  (i + List.length (filter (isInternalUrl cs) (map (group 1) l)),
   e + List.length (filter (fun u => negb (isInternalUrl cs u) && startsWith u "http")
                      (map (group 1) l))).
Proof.
  induction l as [|mt l IH]; intros i e; simpl.
  - f_equal; lia.
  - unfold countLink at 2. cbn [fst snd].
    destruct (isInternalUrl cs (group 1 mt)); cbn [negb andb].
    + rewrite IH. simpl. f_equal; lia.
    + destruct (startsWith (group 1 mt) "http"); rewrite IH; simpl; f_equal; lia.
Qed.

Lemma countLinks_counts content siteUrl :
  countLinks content siteUrl =
  (List.length (filter (isInternalUrl (cleanSiteOf siteUrl)) (hrefs content)),
   List.length (filter (fun u => negb (isInternalUrl (cleanSiteOf siteUrl) u)
                                 && startsWith u "http") (hrefs content))).
Proof. unfold countLinks, hrefs. now rewrite countLinks_fold. Qed.

Section Platform.
Variable now : Z.
Variable Date_parse : string -> option Z.

(** C3. A body of at least 1500 words that holds the structured-data
    marker and a verdict cue and has at least three internal and three
    external links, modified at most 365 days from now (today
    included), scores 100 and 100. *)
Theorem analyzeHealth_full_marks (id : Z) (content modified siteUrl : string) (t : Z) :
  1500 <= countWords content ->
  includes content "application/ld+json" = true ->
  test flag_i re_verdict content = true ->
  3 <= fst (countLinks content siteUrl) ->
  3 <= snd (countLinks content siteUrl) ->
  Date_parse modified = Some t ->
  (Z.abs (now - t) <= 365 * 86400000)%Z ->
  let result := analyzeHealth now Date_parse id content (JString modified) siteUrl in
  PostHealth.score result = 100%Z /\ PostHealth.aeoScore result = 100%Z.
Proof.
  intros Hw Hs Hv Hi He Hd Ht. unfold analyzeHealth.
  destruct (countLinks content siteUrl) as [i e]. cbn [fst snd] in Hi, He.
  cbn [PostHealth.score PostHealth.aeoScore]. unfold seoOf, aeoOf.
  cbn [PostHealth.wordCount PostHealth.hasSchema PostHealth.hasVerdict
       PostHealth.internalLinks PostHealth.externalLinks
       PostHealth.lastUpdatedDayCount getTime].
  rewrite Hs, Hv, Hd. cbn [diffDaysOf number_gt negb].
  assert (D : (365 <? (Z.abs (now - t) + 86399999) / 86400000)%Z = false).
  { apply Z.ltb_ge.
    assert ((Z.abs (now - t) + 86399999) / 86400000 < 366)%Z; [|lia].
    apply Z.div_lt_upper_bound; lia. }
  rewrite D.
  replace (countWords content <? 1000) with false by (symmetry; apply Nat.ltb_ge; lia).
  replace (countWords content <? 1500) with false by (symmetry; apply Nat.ltb_ge; lia).
  replace (i <? 3) with false by (symmetry; apply Nat.ltb_ge; lia).
  replace (e <? 3) with false by (symmetry; apply Nat.ltb_ge; lia).
  split; reflexivity.
Qed.

(** C8. On string fields the handler posts one [HEALTH_RESULT] and does
    not throw, whatever the timestamp; the result carries the request's
    id and the idle status, its scores lie between 0 and 100, and when
    the timestamp does not parse the day count is [NaN]. *)
Theorem onmessage_health_total (id : Z) (content modified siteUrl : string) :
  exists result,
    onmessage now Date_parse
      (ANALYZE_HEALTH {| Worker.id := id; Worker.content := JString content;
                         Worker.modified := JString modified;
                         Worker.siteUrl := JString siteUrl |})
    = Posted [HEALTH_RESULT result] /\
    PostHealth.id result = id /\
    PostHealth.status result = PostHealth.idle /\
    (0 <= PostHealth.score result <= 100)%Z /\
    (0 <= PostHealth.aeoScore result <= 100)%Z /\
    (Date_parse modified = None ->
     PostHealth.lastUpdatedDayCount (PostHealth.metrics result) = NaN).
Proof.
  eexists. split; [reflexivity|]. unfold analyzeHealth.
  destruct (countLinks content siteUrl) as [i e].
  cbn [PostHealth.id PostHealth.status PostHealth.score PostHealth.aeoScore
       PostHealth.metrics PostHealth.lastUpdatedDayCount getTime].
  repeat split; try apply Z.le_max_l.
  - unfold seoOf, penalty.
    repeat match goal with |- context [if ?b then _ else _] => destruct b end; lia.
  - unfold aeoOf, penalty.
    repeat match goal with |- context [if ?b then _ else _] => destruct b end; lia.
  - intros H. cbn [Worker.modified getTime]. now rewrite H.
Qed.

(** C9. With the empty site URL every [href] counts as internal: no
    link is external, so the SEO score always loses the 10 points of
    the external-link penalty. *)
Theorem analyzeHealth_empty_site (id : Z) (content : string) (modified : jsval) :
  let result := analyzeHealth now Date_parse id content modified "" in
  let mt := PostHealth.metrics result in
  (forall url, isInternalUrl (cleanSiteOf "") url = true) /\
  PostHealth.internalLinks mt = List.length (hrefs content) /\
  PostHealth.externalLinks mt = 0 /\
  PostHealth.score result =
    Z.max 0 (100 - (if number_gt (PostHealth.lastUpdatedDayCount mt) 365 then 20 else 0)
                 - (if (PostHealth.wordCount mt <? 1000)%nat then 15 else 0)
                 - (if (PostHealth.internalLinks mt <? 3)%nat then 15 else 0)
                 - 10
                 - (if PostHealth.hasSchema mt then 0 else 10))%Z /\
  (PostHealth.score result <= 90)%Z.
Proof.
  assert (I : forall url, isInternalUrl (cleanSiteOf "") url = true).
  { intros url. unfold isInternalUrl. change (cleanSiteOf "") with EmptyString.
    now rewrite includes_nil. }
  assert (C : countLinks content "" = (List.length (hrefs content), 0)).
  { rewrite countLinks_counts. f_equal.
    - rewrite filter_all; [reflexivity | intros; apply I].
    - rewrite filter_none; [reflexivity | intros; now rewrite I]. }
  cbv zeta. unfold analyzeHealth. rewrite C.
  cbn [PostHealth.metrics PostHealth.score PostHealth.internalLinks
       PostHealth.externalLinks PostHealth.wordCount PostHealth.hasSchema
       PostHealth.lastUpdatedDayCount].
  split; [exact I|]. split; [reflexivity|]. split; [reflexivity|].
  assert (S : forall a b : bool,
             seoOf {| PostHealth.wordCount := countWords content;
                      PostHealth.hasSchema := a; PostHealth.hasVerdict := b;
                      PostHealth.brokenMedia := 0;
                      PostHealth.internalLinks := List.length (hrefs content);
                      PostHealth.externalLinks := 0; PostHealth.entityDensity := 0;
                      PostHealth.lastUpdatedDayCount :=
                        diffDaysOf now (getTime Date_parse modified) |}
             = (100 - (if number_gt (diffDaysOf now (getTime Date_parse modified)) 365
                       then 20 else 0)
                    - (if (countWords content <? 1000)%nat then 15 else 0)
                    - (if (List.length (hrefs content) <? 3)%nat then 15 else 0)
                    - 10 - (if a then 0 else 10))%Z).
  { intros a b. unfold seoOf, penalty.
    cbn [PostHealth.wordCount PostHealth.hasSchema PostHealth.internalLinks
         PostHealth.externalLinks PostHealth.lastUpdatedDayCount].
    change (0 <? 3) with true. cbv iota. destruct a; cbn [negb];
    repeat match goal with |- context [if ?b then _ else _] => destruct b end;
      lia. }
  rewrite S. split; [reflexivity|].
  repeat match goal with |- context [if ?b then _ else _] => destruct b end; lia.
Qed.
End Platform.

(** Taking the structured data away, and nothing else, costs 10 points of
    the SEO sum and 25 of the answer-engine sum. *)
Theorem schema_penalties (wc : nat) (verdict : bool) (bm i e ed : nat) (days : number) :
  let mk schema :=
    {| PostHealth.wordCount := wc; PostHealth.hasSchema := schema;
       PostHealth.hasVerdict := verdict; PostHealth.brokenMedia := bm;
       PostHealth.internalLinks := i; PostHealth.externalLinks := e;
       PostHealth.entityDensity := ed; PostHealth.lastUpdatedDayCount := days |} in
  seoOf (mk false) = (seoOf (mk true) - 10)%Z /\
  aeoOf (mk false) = (aeoOf (mk true) - 25)%Z.
Proof.
  cbv zeta. unfold seoOf, aeoOf, penalty.
  cbn [PostHealth.wordCount PostHealth.hasSchema PostHealth.hasVerdict
       PostHealth.internalLinks PostHealth.externalLinks
       PostHealth.lastUpdatedDayCount negb].
  split; reflexivity.
Qed.

(** C3 on [sample_body], parsed timestamp one hour before now. *)
Lemma analyzeHealth_full_marks_witness :
  let result :=
    analyzeHealth 1700003600000 (fun _ => Some 1700000000000%Z) 7 sample_body
      (JString "2023-11-14T22:13:20") "https://site.example/" in
  PostHealth.score result = 100%Z /\ PostHealth.aeoScore result = 100%Z.
Proof.
  apply (analyzeHealth_full_marks 1700003600000 (fun _ => Some 1700000000000%Z) 7
           sample_body "2023-11-14T22:13:20" "https://site.example/" 1700000000000).
  - apply Nat.leb_le. vm_compute. reflexivity.
  - vm_compute. reflexivity.
  - vm_compute. reflexivity.
  - apply Nat.leb_le. vm_compute. reflexivity.
  - apply Nat.leb_le. vm_compute. reflexivity.
  - reflexivity.
  - vm_compute. discriminate.
Defined.

(** C4, as stated, fails: the site URL with a trailing slash is no part
    of the external URL, yet its canonical form is the external URL, and
    both links count as internal. *)
Lemma countLinks_slash_site_counterexample :
  includes "https://external.example.com" "https://external.example.com/" = false /\
  hrefs about_body = ["/about"; "https://external.example.com"] /\
  countLinks about_body "https://external.example.com/" = (2, 0).
Proof. vm_compute. repeat split; reflexivity. Qed.

(** C4. Each [href] value counts as internal when it contains the site
    URL without its trailing slash or starts with a slash, as external
    when it does not and starts with "http", and is not counted
    otherwise. When the site URL without its trailing slash is no part
    of "https://external.example.com", a body whose [href] values are
    "/about" and that URL, once each, has one internal and one external
    link. *)
Theorem countLinks_spec (content siteUrl : string) :
  countLinks content siteUrl =
    (List.length (filter (isInternalUrl (cleanSiteOf siteUrl)) (hrefs content)),
     List.length (filter (fun u => negb (isInternalUrl (cleanSiteOf siteUrl) u)
                                   && startsWith u "http") (hrefs content))) /\
  (forall url, isInternalUrl (cleanSiteOf siteUrl) url =
               includes url (cleanSiteOf siteUrl) || startsWith url "/") /\
  (includes "https://external.example.com" (cleanSiteOf siteUrl) = false ->
   Permutation.Permutation ["/about"; "https://external.example.com"] (hrefs content) ->
   countLinks content siteUrl = (1, 1)).
Proof.
  split; [apply countLinks_counts|]. split; [reflexivity|].
  intros Hs Hp. rewrite countLinks_counts.
  assert (A : isInternalUrl (cleanSiteOf siteUrl) "/about" = true).
  { unfold isInternalUrl. apply orb_true_r. }
  assert (B : isInternalUrl (cleanSiteOf siteUrl) "https://external.example.com" = false).
  { unfold isInternalUrl. now rewrite Hs. }
  apply Permutation.Permutation_length_2_inv in Hp as [-> | ->];
    cbn [filter]; rewrite A, B; reflexivity.
Qed.

Lemma countLinks_spec_witness :
  includes "https://external.example.com" (cleanSiteOf "https://mysite.example/") = false /\
  Permutation.Permutation ["/about"; "https://external.example.com"] (hrefs about_body) /\
  countLinks about_body "https://mysite.example/" = (1, 1).
Proof.
  assert (H1 : includes "https://external.example.com"
                 (cleanSiteOf "https://mysite.example/") = false)
    by (vm_compute; reflexivity).
  assert (H2 : Permutation.Permutation ["/about"; "https://external.example.com"]
                 (hrefs about_body))
    by (vm_compute; apply Permutation.Permutation_refl).
  split; [exact H1|]. split; [exact H2|].
  exact (proj2 (proj2 (countLinks_spec about_body "https://mysite.example/")) H1 H2).
Defined.

End WorkerFacts.

(** ** The link validator and the HTML corrector *)

Module AiServiceFacts.
Import AiService RegexFacts JsSetFacts.

Lemma linkTitle_unquoted text : linkTitle text = ("Read more: " ++ unquoted text)%string.
Proof.
  unfold linkTitle, unquoted. f_equal.
  apply remove_units. intros st k. reflexivity.
Qed.

Lemma reject_chars q a c : In c (chars (reject q a)) -> In c (chars a) /\ q c = false.
Proof.
  induction a as [|x a IH]; simpl; [tauto|].
  destruct (q x) eqn:E; simpl.
  - intros H. apply IH in H. tauto.
  - intros [<- | H]; [tauto|]. apply IH in H. tauto.
Qed.

Lemma unquoted_no_quote text : ~ In dquote (chars (unquoted text)).
Proof. intros H. apply reject_chars in H as [_ H]. discriminate. Qed.

(** C1. The corrector at the input of a space and a level-2 header: the
    header step runs before the final trim and finds no header at the
    start of a line, so the result is the Markdown header itself, and a
    second run converts it. *)
Theorem forceHtmlStructure_twice :
  forceHtmlStructure " ## Title" = "## Title" /\
  forceHtmlStructure (forceHtmlStructure " ## Title") = "<h2>Title</h2>" /\
  forceHtmlStructure (forceHtmlStructure " ## Title") <> forceHtmlStructure " ## Title".
Proof. vm_compute. split; [reflexivity | split; [reflexivity | discriminate]]. Qed.

(** C7, as stated, fails: the double quotes of the text are left out of
    the title, not escaped, so the title does not echo the text and two
    texts share one title. *)
Lemma linkTitle_quotes_counterexample :
  linkTitle ("say " ++ dq ++ "hi" ++ dq) = "Read more: say hi" /\
  linkTitle ("say " ++ dq ++ "hi" ++ dq) = linkTitle "say hi" /\
  internalLinkHtml "/p" ("say " ++ dq ++ "hi" ++ dq) =
    ("<a href=" ++ dq ++ "/p" ++ dq ++ " class=" ++ dq ++ "sota-internal-link" ++ dq
     ++ " title=" ++ dq ++ "Read more: say hi" ++ dq ++ ">say " ++ dq ++ "hi" ++ dq
     ++ "</a>")%string.
Proof. vm_compute. repeat split; reflexivity. Qed.

Section Platform.
Variable URL_pathname : string -> option string.

Lemma classify_path siteUrl cleanHref path :
  classify URL_pathname siteUrl cleanHref = (true, path) -> path = normalize URL_pathname cleanHref.
Proof.
  unfold AiService.classify.
  destruct (_ || _); [congruence|]. destruct (_ && _); congruence.
Qed.

Lemma isValidPath_iff validPaths path :
  isValidPath validPaths path = true <->
  exists vp, In vp validPaths /\
             (vp = path \/ endsWith vp path = true \/ endsWith path vp = true).
Proof.
  unfold isValidPath. rewrite orb_true_iff, has_In, existsb_exists. split.
  - intros [H | [vp [Hv H]]].
    + exists path. auto.
    + exists vp. apply orb_true_iff in H. tauto.
  - intros [vp [Hv [-> | H]]]; [now left|].
    right. exists vp. split; [exact Hv | now apply orb_true_iff].
Qed.

Lemma validPathsOf_In validNodes vp :
  In vp (validPathsOf URL_pathname validNodes) <->
  exists n, In n validNodes /\ vp = normalize URL_pathname (SemanticNode.url n).
Proof.
  unfold AiService.validPathsOf. rewrite of_array_In, in_map_iff.
  split; intros [n [H1 H2]]; exists n; [now split | now split].
Qed.

(** C7, amended. A kept internal anchor carries the title "Read more: "
    followed by the link text without its double quotes: they are
    removed, not escaped, and the title holds none. *)
Theorem sanitizeAnchor_title (validPaths : list string) (siteUrl : string)
    (mt : rmatch) (path : string) :
  classify URL_pathname siteUrl (trim (group 2 mt)) = (true, path) ->
  isValidPath validPaths path = true ->
  sanitizeAnchor URL_pathname validPaths siteUrl mt =
    ("<a href=" ++ dq ++ trim (group 2 mt) ++ dq ++ " class=" ++ dq
     ++ "sota-internal-link" ++ dq ++ " title=" ++ dq
     ++ "Read more: " ++ unquoted (group 3 mt)
     ++ dq ++ ">" ++ group 3 mt ++ "</a>")%string /\
  ~ In dquote (chars ("Read more: " ++ unquoted (group 3 mt))).
Proof.
  intros E V. unfold AiService.sanitizeAnchor. rewrite E, V. split.
  - unfold internalLinkHtml. rewrite linkTitle_unquoted. now rewrite !append_assoc.
  - rewrite chars_append. intros H. apply in_app_or in H as [H | H].
    + revert H. vm_compute. intuition discriminate.
    + now apply unquoted_no_quote in H.
Qed.

(** The valid-path set is empty only without nodes. *)
Lemma validPathsOf_nonempty (validNodes : list SemanticNode.t) :
  validNodes <> [] -> validPathsOf URL_pathname validNodes <> [].
Proof.
  intros H. unfold validPathsOf. apply of_array_nonempty.
  destruct validNodes; [congruence | discriminate].
Qed.

End Platform.

(** The anchors of the examples are what the pattern finds. *)
Example scan_quoted_anchor :
  scan flag_i re_anchor (whole quoted_anchor) = [Hit quoted_anchor].
Proof. vm_compute. reflexivity. Qed.

Example scan_home_anchor :
  scan flag_i re_anchor (whole home_anchor) = [Hit home_anchor].
Proof. vm_compute. reflexivity. Qed.

Lemma sanitizeAnchor_title_witness :
  sanitizeAnchor no_URL ["/reviews/widget"] "https://site.example" quoted_anchor =
    ("<a href=" ++ dq ++ "/reviews/widget" ++ dq ++ " class=" ++ dq
     ++ "sota-internal-link" ++ dq ++ " title=" ++ dq
     ++ "Read more: " ++ unquoted ("the " ++ dq ++ "Widget" ++ dq)
     ++ dq ++ ">" ++ "the " ++ dq ++ "Widget" ++ dq ++ "</a>")%string /\
  ~ In dquote (chars ("Read more: " ++ unquoted ("the " ++ dq ++ "Widget" ++ dq))).
Proof.
  apply (sanitizeAnchor_title no_URL ["/reviews/widget"] "https://site.example"
           quoted_anchor "/reviews/widget"); vm_compute; reflexivity.
Defined.

(** The sanitizer examples of the specification: a link to a known path
    is kept, a link to an unknown one becomes a [span] around its text,
    a link out of the site is left alone. *)
Example sanitize_known_unknown_external :
  validateAndSanitizeLinks no_URL
    ("<a href=" ++ dq ++ "/reviews/widget" ++ dq ++ ">Widget</a>, "
     ++ "<a href=" ++ dq ++ "/made-up-page" ++ dq ++ ">X</a>, "
     ++ "<a href='mailto:me@site.example'>mail</a>")
    [widget_node] "https://site.example"
  = ("<a href=" ++ dq ++ "/reviews/widget" ++ dq ++ " class=" ++ dq
     ++ "sota-internal-link" ++ dq ++ " title=" ++ dq ++ "Read more: Widget" ++ dq
     ++ ">Widget</a>, "
     ++ "<span class=" ++ dq ++ "sota-text-highlight" ++ dq ++ " title=" ++ dq
     ++ "Link removed by validator (404 prevention)" ++ dq ++ ">X</span>, "
     ++ "<a href='mailto:me@site.example'>mail</a>")%string.
Proof. vm_compute. reflexivity. Qed.

(** Links to the root and with an empty [href] are kept whatever the
    nodes are. *)
Example sanitize_root_and_empty :
  validateAndSanitizeLinks no_URL
    ("<a href=" ++ dq ++ "/" ++ dq ++ ">Home</a><a href=''>Here</a>")
    [widget_node] "https://site.example"
  = (internalLinkHtml "/" "Home" ++ internalLinkHtml "" "Here")%string.
Proof. vm_compute. reflexivity. Qed.

(** The conversions of the specification: a header and a bold span. *)
Theorem forceHtmlStructure_conversions :
  forceHtmlStructure "## Title" = "<h2>Title</h2>" /\
  forceHtmlStructure "**bold**" = "<strong>bold</strong>".
Proof. vm_compute. split; reflexivity. Qed.

Example forceHtmlStructure_list :
  forceHtmlStructure ("Intro" ++ nl ++ "- one" ++ nl ++ "- two")
  = "Intro<ul><li>one</li><li>two</li></ul>".
Proof. vm_compute. reflexivity. Qed.

End AiServiceFacts.


(** ** The matcher, read forward *)

Module MatcherMore.
Import StringFacts RegexFacts.

Lemma m_char_hit {A} p st (k : @cont A) c s' :
  rest st = String c s' -> p c = true -> m_char p st k = k (advance c s' st).
Proof. intros R P. unfold m_char. now rewrite R, P. Qed.

Lemma m_char_step {A} p pc n c s cs (k : @cont A) :
  p c = true ->
  m_char p {| prevc := pc; pos := n; rest := String c s; caps := cs |} k
  = k {| prevc := Some c; pos := S n; rest := s; caps := cs |}.
Proof. intros H. unfold m_char. cbn [rest]. now rewrite H. Qed.

Lemma m_char_miss {A} p st (k : @cont A) :
  headIs p (rest st) = false -> m_char p st k = None.
Proof.
  unfold m_char. destruct (rest st) as [|c s']; [reflexivity|].
  cbn [headIs]. now intros ->.
Qed.

Lemma orelse_hit {A} (a : option A) b : a <> None -> orelse a b = a.
Proof. destruct a; [reflexivity | congruence]. Qed.

Lemma clear_caps_none st : clear_caps [] st = st.
Proof.
  destruct st as [pc p s cs]. unfold clear_caps. cbn [prevc pos rest caps existsb negb].
  f_equal. induction cs as [|x cs IH]; [reflexivity|]. cbn [filter]. now rewrite IH.
Qed.

Lemma m_seq {A} fl r1 r2 st (k : @cont A) :
  m fl (Seq r1 r2) st k = m fl r1 st (fun st' => m fl r2 st' k).
Proof. reflexivity. Qed.

Lemma m_star {A} fl g r st (k : @cont A) :
  m fl (Star g r) st k
  = repeat_loop (fun x c => m fl r (clear_caps (groups_of r) x) c) g
      (String.length (rest st)) st k.
Proof. reflexivity. Qed.

Lemma m_group {A} fl i r st (k : @cont A) :
  m fl (Group i r) st k
  = m fl r st (fun st' => k (set_cap i (substring 0 (pos st' - pos st) (rest st)) st')).
Proof. reflexivity. Qed.

Lemma m_opt {A} fl g r st (k : @cont A) :
  m fl (Opt g r) st k
  = let iter (_ : unit) :=
      m fl r (clear_caps (groups_of r) st)
        (fun st' => if pos st <? pos st' then k st' else None) in
    if g then orelse (iter tt) (fun _ => k st) else orelse (k st) iter.
Proof. reflexivity. Qed.

Lemma free_append q a b : free q (a ++ b) = free q a && free q b.
Proof.
  induction a as [|c a IH]; [reflexivity|]. cbn [append free]. now rewrite IH, andb_assoc.
Qed.

Lemma lastIs_append q a b : b <> EmptyString -> lastIs q (a ++ b) = lastIs q b.
Proof.
  intros H. induction a as [|c a IH]; [reflexivity|]. cbn [append lastIs].
  destruct (a ++ b)%string eqn:E; [|exact IH].
  destruct a; [simpl in E; congruence | discriminate].
Qed.

Lemma trimStart_split a :
  exists ws, a = (ws ++ trimStart a)%string /\
             free (fun c => negb (isWhiteSpace c)) ws = true.
Proof.
  induction a as [|c a [ws [E W]]]; [now exists EmptyString|].
  cbn [trimStart]. destruct (isWhiteSpace c) eqn:Hc.
  - exists (String c ws). cbn [append free]. rewrite Hc, W. now rewrite <- E.
  - now exists EmptyString.
Qed.

Lemma trimEnd_split a :
  exists ws, a = (trimEnd a ++ ws)%string /\
             free (fun c => negb (isWhiteSpace c)) ws = true.
Proof.
  induction a as [|c a [ws [E W]]]; [now exists EmptyString|].
  cbn [trimEnd]. destruct (trimEnd a) as [|x t] eqn:T.
  - destruct (isWhiteSpace c) eqn:Hc.
    + exists (String c ws). cbn [append free]. rewrite Hc, W. simpl in E. now rewrite <- E.
    + exists ws. cbn [append]. simpl in E. split; [now rewrite <- E | exact W].
  - exists ws. cbn [append]. cbn [append] in E. split; [now rewrite <- E | exact W].
Qed.

Lemma free_trimStart q a : free q a = true -> free q (trimStart a) = true.
Proof.
  destruct (trimStart_split a) as [ws [E _]]. rewrite E at 1. rewrite free_append.
  intros H. now apply andb_true_iff in H.
Qed.

Lemma free_trimEnd q a : free q a = true -> free q (trimEnd a) = true.
Proof.
  destruct (trimEnd_split a) as [ws [E _]]. rewrite E at 1. rewrite free_append.
  intros H. now apply andb_true_iff in H.
Qed.

Lemma m_plus {A} fl g r st (k : @cont A) :
  m fl (Plus g r) st k
  = m fl r (clear_caps (groups_of r) st)
      (fun st' =>
         repeat_loop (fun x c => m fl r (clear_caps (groups_of r) x) c) g
           (String.length (rest st')) st' k).
Proof. reflexivity. Qed.

Lemma char_eq_refl fl c : char_eq fl c c = true.
Proof. unfold char_eq. destruct (ignoreCase fl); apply Ascii.eqb_refl. Qed.

Lemma space_class_any fl c : xorb false (class_mem fl [CsSpace] c) = isWhiteSpace c.
Proof.
  destruct fl as [[] ml]; destruct c as [[] [] [] [] [] [] [] []]; reflexivity.
Qed.

Lemma m_char_ext {A} (q q' : ascii -> bool) st (k : @cont A) :
  (forall c, q c = q' c) -> m_char q st k = m_char q' st k.
Proof.
  intros E. unfold m_char. destruct (rest st) as [|c s]; [reflexivity|]. now rewrite E.
Qed.

Lemma m_space {A} fl st (k : @cont A) : m fl re_s st k = m_char isWhiteSpace st k.
Proof. cbn [re_s m]. apply m_char_ext. apply space_class_any. Qed.

Lemma m_dot {A} fl st (k : @cont A) :
  m fl Dot st k = m_char (fun c => negb (isLineTerminator c)) st k.
Proof. reflexivity. Qed.

Lemma lastc_append pc a b : lastc pc (a ++ b) = lastc (lastc pc a) b.
Proof. revert pc. induction a as [|c a IH]; intros pc; [reflexivity | apply IH]. Qed.

(** A literal text, read forward. *)
Lemma lit_forward {A} fl w : w <> EmptyString -> forall st s (k : @cont A),
  rest st = (w ++ s)%string ->
  exists st', rest st' = s /\ pos st' = pos st + String.length w /\
              caps st' = caps st /\ prevc st' = lastc (prevc st) w /\
              m fl (lit w) st k = k st'.
Proof.
  induction w as [|c w IH]; [congruence|]. intros _ st s k R.
  destruct w as [|c2 w].
  - exists (advance c s st). cbn [lit m]. rewrite (m_char_hit _ st k c s R (char_eq_refl fl c)).
    repeat split. cbn [pos advance String.length]. lia.
  - change (lit (String c (String c2 w))) with (Seq (Char c) (lit (String c2 w))).
    rewrite m_seq. cbn [m].
    rewrite (m_char_hit _ st _ c (String c2 w ++ s)%string R (char_eq_refl fl c)).
    destruct (IH ltac:(discriminate) (advance c (String c2 w ++ s)%string st) s k eq_refl)
      as [st' [R' [P' [C' [L' E]]]]].
    exists st'. cbn [pos advance caps prevc] in *.
    repeat split; [exact R' | | exact C' | exact L' | exact E].
    rewrite P'. cbn [String.length]. lia.
Qed.

(** A greedy run of single code units of one class takes all there are,
    when what follows it succeeds there. *)
Lemma greedy_forward {A} fl r1 (q : ascii -> bool) (k : @cont A) :
  (forall st (k' : @cont A), m fl r1 st k' = m_char q st k') -> groups_of r1 = [] ->
  forall w fuel st s,
  free (fun c => negb (q c)) w = true ->
  headIs q s = false ->
  rest st = (w ++ s)%string ->
  String.length w <= fuel ->
  (forall st', rest st' = s -> k st' <> None) ->
  exists st', rest st' = s /\ pos st' = pos st + String.length w /\
              caps st' = caps st /\ prevc st' = lastc (prevc st) w /\
              repeat_loop (fun x c => m fl r1 (clear_caps (groups_of r1) x) c)
                true fuel st k = k st'.
Proof.
  intros M G. rewrite G.
  set (body := fun x c => m fl r1 (clear_caps [] x) c).
  induction w as [|c w IH]; intros fuel st s W H R F K.
  - exists st. repeat split; [exact R | simpl; lia |].
    destruct fuel as [|f]; cbn [repeat_loop]; [reflexivity|].
    unfold body at 1. rewrite clear_caps_none, M, m_char_miss; [reflexivity|].
    simpl in R. now rewrite R.
  - destruct fuel as [|f]; [simpl in F; lia|].
    cbn [free] in W. apply andb_true_iff in W as [W1 W2].
    apply negb_true_iff, negb_false_iff in W1.
    cbn [repeat_loop]. unfold body at 1. rewrite clear_caps_none, M.
    rewrite (m_char_hit _ st _ c (w ++ s)%string R W1).
    cbn [pos advance]. replace (pos st <? S (pos st)) with true
      by (symmetry; apply Nat.ltb_lt; lia).
    destruct (IH f (advance c (w ++ s)%string st) s W2 H eq_refl)
      as [st' [R' [P' [C' [L' E]]]]]; [simpl in F; lia | exact K |].
    exists st'. cbn [pos advance caps prevc] in *.
    repeat split; [exact R' | simpl; lia | exact C' | exact L' |].
    rewrite E. apply orelse_hit. now apply K.
Qed.

(** A lazy run of single code units of one class stops at the first place
    where what follows it succeeds. *)
Lemma lazy_forward {A} fl r1 (q : ascii -> bool) (k : @cont A) :
  (forall st (k' : @cont A), m fl r1 st k' = m_char q st k') -> groups_of r1 = [] ->
  forall w fuel st s,
  free (fun c => negb (q c)) w = true ->
  rest st = (w ++ s)%string ->
  String.length w <= fuel ->
  (forall w1 w2 st', w = (w1 ++ w2)%string -> w2 <> EmptyString ->
     rest st' = (w2 ++ s)%string -> k st' = None) ->
  (forall st', rest st' = s -> k st' <> None) ->
  exists st', rest st' = s /\ pos st' = pos st + String.length w /\
              caps st' = caps st /\ prevc st' = lastc (prevc st) w /\
              repeat_loop (fun x c => m fl r1 (clear_caps (groups_of r1) x) c)
                false fuel st k = k st'.
Proof.
  intros M G. rewrite G.
  set (body := fun x c => m fl r1 (clear_caps [] x) c).
  induction w as [|c w IH]; intros fuel st s W R F N K.
  - exists st. repeat split; [exact R | simpl; lia |].
    destruct fuel as [|f]; cbn [repeat_loop]; [reflexivity|].
    apply orelse_hit. apply K. exact R.
  - destruct fuel as [|f]; [simpl in F; lia|].
    cbn [free] in W. apply andb_true_iff in W as [W1 W2].
    apply negb_true_iff, negb_false_iff in W1.
    destruct (IH f (advance c (w ++ s)%string st) s W2 eq_refl)
      as [st' [R' [P' [C' [L' E]]]]].
    + simpl in F. lia.
    + intros w1 w2 st' E1 E2 E3. apply (N (String c w1) w2 st'); [|exact E2|exact E3].
      simpl. now rewrite E1.
    + exact K.
    + exists st'. cbn [pos advance caps prevc] in *.
      repeat split; [exact R' | simpl; lia | exact C' | exact L' |].
      cbn [repeat_loop]. rewrite (N EmptyString (String c w) st eq_refl); [|discriminate|exact R].
      cbn [orelse]. unfold body at 1. rewrite clear_caps_none, M.
      rewrite (m_char_hit _ st _ c (w ++ s)%string R W1).
      cbn [pos advance]. replace (pos st <? S (pos st)) with true
        by (symmetry; apply Nat.ltb_lt; lia).
      exact E.
Qed.

Lemma m_alt {A} fl r1 r2 st (k : @cont A) :
  m fl (Alt r1 r2) st k = orelse (m fl r1 st k) (fun _ => m fl r2 st k).
Proof. reflexivity. Qed.

Lemma m_char_lit {A} fl c st (k : @cont A) : m fl (Char c) st k = m_char (char_eq fl c) st k.
Proof. reflexivity. Qed.

Lemma lit_cons {A} fl c w st (k : @cont A) :
  m fl (lit (String c w)) st k
  = m_char (char_eq fl c) st (fun st' => m fl (lit w) st' k).
Proof. destruct w; reflexivity. Qed.

(** A literal text is no match where the input starts with another code
    unit. *)
Lemma lit_miss {A} fl c w st (k : @cont A) :
  headIs (char_eq fl c) (rest st) = false -> m fl (lit (String c w)) st k = None.
Proof. intros H. rewrite lit_cons. now apply m_char_miss. Qed.

Lemma lastc_some pc a : a <> EmptyString -> exists c, lastc pc a = Some c.
Proof.
  revert pc. induction a as [|x a IH]; intros pc N; [congruence|]. cbn [lastc].
  destruct a as [|y a]; [now exists x|]. apply IH. discriminate.
Qed.

(** A greedy run that finds no way on from any of its later stops goes on
    from where it started. *)
Lemma greedy_fail {A} fl r1 (q : ascii -> bool) (k : @cont A) :
  (forall st (k' : @cont A), m fl r1 st k' = m_char q st k') -> groups_of r1 = [] ->
  forall w fuel st s,
  headIs q s = false ->
  rest st = (w ++ s)%string ->
  (forall y1 y2 st', w = (y1 ++ y2)%string -> y1 <> EmptyString ->
     rest st' = (y2 ++ s)%string -> k st' = None) ->
  repeat_loop (fun x c => m fl r1 (clear_caps (groups_of r1) x) c) true fuel st k = k st.
Proof.
  intros M G. rewrite G.
  set (body := fun x c => m fl r1 (clear_caps [] x) c).
  induction w as [|c w IH]; intros fuel st s H R N.
  - destruct fuel as [|f]; cbn [repeat_loop]; [reflexivity|].
    unfold body at 1. rewrite clear_caps_none, M, m_char_miss; [reflexivity|].
    simpl in R. now rewrite R.
  - destruct fuel as [|f]; cbn [repeat_loop]; [reflexivity|].
    unfold body at 1. rewrite clear_caps_none, M. unfold m_char. rewrite R. cbn [append].
    destruct (q c); [|reflexivity].
    cbn [pos advance]. replace (pos st <? S (pos st)) with true
      by (symmetry; apply Nat.ltb_lt; lia).
    rewrite (IH f (advance c (w ++ s)%string st) s H eq_refl).
    + rewrite (N (String c EmptyString) w (advance c (w ++ s)%string st));
        [reflexivity | reflexivity | discriminate | reflexivity].
    + intros y1 y2 st' E1 E2 E3. apply (N (String c y1) y2 st'); [|discriminate|exact E3].
      cbn [append]. now rewrite E1.
Qed.

(** A greedy run gives back what it took until there is a way on: it
    stops at the last place from which what follows succeeds. *)
Lemma greedy_back {A} fl r1 (q : ascii -> bool) (k : @cont A) :
  (forall st (k' : @cont A), m fl r1 st k' = m_char q st k') -> groups_of r1 = [] ->
  forall w1 w2 fuel st s,
  free (fun c => negb (q c)) w1 = true ->
  headIs q s = false ->
  rest st = (w1 ++ w2 ++ s)%string ->
  String.length w1 <= fuel ->
  (forall y1 y2 st', w2 = (y1 ++ y2)%string -> y1 <> EmptyString ->
     rest st' = (y2 ++ s)%string -> k st' = None) ->
  (forall st', rest st' = (w2 ++ s)%string -> k st' <> None) ->
  exists st', rest st' = (w2 ++ s)%string /\ pos st' = pos st + String.length w1 /\
              caps st' = caps st /\ prevc st' = lastc (prevc st) w1 /\
              repeat_loop (fun x c => m fl r1 (clear_caps (groups_of r1) x) c)
                true fuel st k = k st'.
Proof.
  intros M G w1. induction w1 as [|c w1 IH]; intros w2 fuel st s W H R F N K.
  - exists st. repeat split; [exact R | simpl; lia |].
    now apply (greedy_fail fl r1 q k M G w2 fuel st s).
  - destruct fuel as [|f]; [simpl in F; lia|].
    cbn [free] in W. apply andb_true_iff in W as [W1 W2].
    apply negb_true_iff, negb_false_iff in W1.
    destruct (IH w2 f (advance c (w1 ++ w2 ++ s)%string st) s W2 H eq_refl)
      as [st' [R' [P' [C' [L' E]]]]]; [simpl in F; lia | exact N | exact K |].
    exists st'. cbn [pos advance caps prevc] in *.
    repeat split; [exact R' | simpl; lia | exact C' | exact L' |].
    cbn [repeat_loop]. rewrite G in *. rewrite clear_caps_none, M.
    rewrite (m_char_hit _ st _ c (w1 ++ w2 ++ s)%string R W1).
    cbn [pos advance]. replace (pos st <? S (pos st)) with true
      by (symmetry; apply Nat.ltb_lt; lia).
    rewrite E. apply orelse_hit. now apply K.
Qed.

Lemma render_app f l1 l2 : render f (l1 ++ l2) = (render f l1 ++ render f l2)%string.
Proof.
  induction l1 as [|[c|mt] l1 IH]; cbn [app render]; [reflexivity | now rewrite IH |].
  now rewrite IH, append_assoc.
Qed.

Lemma render_keep f a : render f (map Keep (chars a)) = a.
Proof.
  induction a as [|c a IH]; [reflexivity|].
  cbn [chars list_ascii_of_string map render]. fold (chars a). now rewrite IH.
Qed.

Section Scan.
Variable fl : flags.
Variable r : regex.

Lemma scan_skip x : forall pc p s,
  scan_from fl r (String.length x) pc p (x ++ s)
  = scan_from fl r 0 (lastc pc x) (p + String.length x) s.
Proof.
  induction x as [|c x IH]; intros pc p s.
  - cbn [String.length append lastc]. now rewrite Nat.add_0_r.
  - cbn [String.length append lastc]. cbn [scan_from]. rewrite IH. f_equal. lia.
Qed.

Lemma scan_miss c a pc p :
  match_at fl r pc p (String c a) = None ->
  scan_from fl r 0 pc p (String c a) = Keep c :: scan_from fl r 0 (Some c) (S p) a.
Proof. intros E. cbn [scan_from]. now rewrite E. Qed.

Lemma scan_hit pc p M s mt :
  M <> EmptyString ->
  match_at fl r pc p (M ++ s) = Some mt ->
  whole mt = M ->
  scan_from fl r 0 pc p (M ++ s)
  = Hit mt :: scan_from fl r 0 (lastc pc M) (p + String.length M) s.
Proof.
  destruct M as [|c M]; [congruence|]. intros _ E W. cbn [append] in *.
  cbn [scan_from]. rewrite E, W. cbn [String.length lastc]. rewrite scan_skip.
  do 2 f_equal. lia.
Qed.

Lemma scan_end pc p :
  match_at fl r pc p EmptyString = None -> scan_from fl r 0 pc p EmptyString = [].
Proof. intros E. cbn [scan_from]. now rewrite E. Qed.

(** No match starts at a code unit that fails the test a match has to
    start with. *)
Lemma scan_free q a :
  (forall pc p s, headIs q s = false -> match_at fl r pc p s = None) ->
  free q a = true ->
  forall pc p s,
    scan_from fl r 0 pc p (a ++ s)
    = map Keep (chars a) ++ scan_from fl r 0 (lastc pc a) (p + String.length a) s.
Proof.
  intros Q. induction a as [|c a IH]; intros F pc p s.
  - cbn [append chars list_ascii_of_string map app lastc String.length].
    now rewrite Nat.add_0_r.
  - cbn [free] in F. apply andb_true_iff in F as [F1 F2]. apply negb_true_iff in F1.
    cbn [append]. rewrite scan_miss by (apply Q; exact F1).
    rewrite (IH F2). cbn [chars list_ascii_of_string map app lastc String.length].
    do 3 f_equal. lia.
Qed.

(** Past the first code unit of the input: no match where a test on
    what follows fails, whatever stands in front. *)
Lemma scan_inside q a :
  (forall c p s, headIs q s = false -> match_at fl r (Some c) p s = None) ->
  free q a = true ->
  forall c p s,
    scan_from fl r 0 (Some c) p (a ++ s)
    = map Keep (chars a)
      ++ scan_from fl r 0 (lastc (Some c) a) (p + String.length a) s.
Proof.
  intros Q. induction a as [|x a IH]; intros F c p s.
  - cbn [append chars list_ascii_of_string map app lastc String.length].
    now rewrite Nat.add_0_r.
  - cbn [free] in F. apply andb_true_iff in F as [F1 F2]. apply negb_true_iff in F1.
    cbn [append]. rewrite scan_miss by (apply Q; exact F1).
    rewrite (IH F2 x (S p) s). cbn [chars list_ascii_of_string map app lastc String.length].
    do 3 f_equal. lia.
Qed.

(** A pattern that starts at the start of a line has no match inside a
    line. *)
Lemma scan_anchored a :
  (forall c p s, isLineTerminator c = false -> match_at fl r (Some c) p s = None) ->
  free isLineTerminator a = true ->
  forall c p s, isLineTerminator c = false ->
    scan_from fl r 0 (Some c) p (a ++ s)
    = map Keep (chars a)
      ++ scan_from fl r 0 (lastc (Some c) a) (p + String.length a) s.
Proof.
  intros Q. induction a as [|x a IH]; intros F c p s L.
  - cbn [append chars list_ascii_of_string map app lastc String.length].
    now rewrite Nat.add_0_r.
  - cbn [free] in F. apply andb_true_iff in F as [F1 F2]. apply negb_true_iff in F1.
    cbn [append]. rewrite scan_miss by (apply Q; exact L).
    rewrite (IH F2 x (S p) s F1). cbn [chars list_ascii_of_string map app lastc String.length].
    do 3 f_equal. lia.
Qed.
End Scan.

End MatcherMore.

(** ** The worker: word count, link values, score ranges *)

Module WorkerMore.
Import Worker RegexFacts JsSetFacts WorkerFacts.

Lemma takeWord_prefix a : exists b, a = (takeWord a ++ b)%string.
Proof.
  induction a as [|c a [b IH]]; simpl; [now exists EmptyString|].
  destruct (isWordChar c); [|now exists (String c a)].
  exists b. simpl. now rewrite <- IH.
Qed.

Lemma substring_takeWord a : substring 0 (String.length (takeWord a)) a = takeWord a.
Proof.
  destruct (takeWord_prefix a) as [b E]. rewrite E at 2. apply substring_prefix.
Qed.

Lemma afterWord_pos a : forall st,
  rest st = a -> pos (afterWord st a) = pos st + String.length (takeWord a).
Proof.
  induction a as [|c a IH]; intros st E; simpl; [lia|].
  destruct (isWordChar c); simpl; [|lia].
  rewrite IH by reflexivity. simpl. lia.
Qed.

Lemma afterWord_caps a : forall st, caps (afterWord st a) = caps st.
Proof.
  induction a as [|c a IH]; intros st; simpl; [reflexivity|].
  destruct (isWordChar c); [now rewrite IH | reflexivity].
Qed.

Lemma clear_caps_nil gs st : caps st = [] -> clear_caps gs st = st.
Proof. destruct st as [a b c d]; simpl; intros ->; reflexivity. Qed.

(** After a word character, the greedy [\w+] loop followed by [\b] runs to
    the end of the run of word characters and succeeds there. *)
Lemma words_loop {A} (k : @cont A) a : forall fuel st z,
  rest st = a -> caps st = [] -> is_word (prevc st) = true ->
  String.length a <= fuel ->
  k (afterWord st a) = Some z ->
  repeat_loop (fun x c => m no_flags re_w (clear_caps (groups_of re_w) x) c) true fuel st
    (fun st1 => m no_flags WordBoundary st1 k) = Some z.
Proof.
  induction a as [|c a IH]; intros fuel st z Hr Hc Hp Hf Hk; simpl in Hk.
  - assert (B : m no_flags WordBoundary st k = Some z).
    { simpl. unfold next_char. rewrite Hr, Hp. exact Hk. }
    destruct fuel; simpl; [exact B|].
    unfold m_char. cbn [clear_caps rest]. rewrite Hr. simpl. exact B.
  - destruct fuel as [|fuel]; [simpl in Hf; lia|]. simpl in Hf.
    cbn [repeat_loop]. rewrite (clear_caps_nil _ st Hc).
    unfold re_w at 1. cbn [m]. unfold m_char. rewrite Hr.
    cbn [class_mem no_flags ignoreCase existsb cset_mem xorb orb].
    rewrite orb_false_r.
    destruct (isWordChar c) eqn:W.
    + replace (pos st <? pos (advance c a st)) with true
        by (symmetry; apply Nat.ltb_lt; simpl; lia).
      rewrite (IH fuel _ z); [reflexivity | reflexivity | exact Hc | | lia | exact Hk].
      simpl. exact W.
    + simpl. unfold next_char. rewrite Hr, Hp. simpl. rewrite W. simpl. exact Hk.
Qed.

(** [/\b\w+\b/] matches exactly at the start of a run of word characters,
    and takes the whole run. *)
Lemma words_match_at pc p a :
  match_at no_flags re_words pc p a =
  match a with
  | EmptyString => None
  | String c a' =>
      if isWordChar c && negb (is_word pc)
      then Some {| index := p; whole := String c (takeWord a'); groups := [] |}
      else None
  end.
Proof.
  unfold match_at, re_words. cbn [cat m]. unfold next_char. cbn [rest prevc].
  destruct a as [|c a'].
  - simpl. destruct (is_word pc); reflexivity.
  - cbn [is_word]. destruct (isWordChar c) eqn:W; destruct (is_word pc) eqn:P;
      cbn [xorb andb negb]; try reflexivity.
    + unfold re_w at 1. cbn [m]. unfold m_char. cbn [clear_caps rest caps filter].
      cbn [class_mem no_flags ignoreCase existsb cset_mem xorb orb].
      rewrite orb_false_r, W.
      apply (words_loop
               (fun st' => Some {| index := p;
                                   whole := substring 0 (pos st' - p) (String c a');
                                   groups := caps st' |}) a'); try reflexivity.
      * simpl. exact W.
      * f_equal. rewrite afterWord_pos by reflexivity.
        rewrite afterWord_caps. cbn [pos advance caps clear_caps filter].
        replace (S p + String.length (takeWord a') - p)
          with (S (String.length (takeWord a'))) by lia.
        cbn [substring]. now rewrite substring_takeWord.
    + unfold re_w at 1. cbn [m]. unfold m_char. cbn [clear_caps rest].
      cbn [class_mem no_flags ignoreCase existsb cset_mem xorb orb].
      now rewrite orb_false_r, W.
Qed.

Lemma wordRuns_boundary a b :
  takeWord a = EmptyString -> wordRuns b a = wordRuns false a.
Proof.
  destruct a as [|c a]; simpl; [reflexivity|].
  destruct (isWordChar c); [discriminate | reflexivity].
Qed.

(** The walk of [/\b\w+\b/g], from outside a match and from inside one. *)
Lemma words_scan a : forall pc p,
  List.length (hits (scan_from no_flags re_words 0 pc p a)) = wordRuns (is_word pc) a /\
  List.length (hits (scan_from no_flags re_words (String.length (takeWord a)) pc p a))
    = wordRuns true a.
Proof.
  induction a as [|c a IH]; intros pc p.
  - cbn [takeWord String.length scan_from]. rewrite words_match_at. simpl. now split.
  - assert (G : List.length (hits (scan_from no_flags re_words 0 pc p (String c a)))
                = wordRuns (is_word pc) (String c a)).
    { cbn [scan_from]. rewrite words_match_at.
      destruct (isWordChar c) eqn:W; destruct (is_word pc) eqn:P; cbn [andb negb].
      - cbn [hits wordRuns]. rewrite W.
        destruct (IH (Some c) (S p)) as [H _]. simpl in H. rewrite W in H. now rewrite H.
      - cbn [hits whole String.length List.length wordRuns]. rewrite W.
        destruct (IH (Some c) (S p)) as [_ H]. now rewrite H.
      - cbn [hits wordRuns]. rewrite W.
        destruct (IH (Some c) (S p)) as [H _]. simpl in H. rewrite W in H. now rewrite H.
      - cbn [hits wordRuns]. rewrite W.
        destruct (IH (Some c) (S p)) as [H _]. simpl in H. rewrite W in H. now rewrite H. }
    split; [exact G|].
    cbn [takeWord]. destruct (isWordChar c) eqn:W.
    + cbn [String.length scan_from wordRuns]. rewrite W.
      destruct (takeWord a) as [|x t] eqn:T.
      * destruct (IH (Some c) (S p)) as [H _]. simpl in H. rewrite W in H.
        cbn [String.length]. now rewrite H.
      * destruct (IH (Some c) (S p)) as [_ H]. exact H.
    + cbn [String.length]. rewrite G. cbn [wordRuns]. rewrite W.
      destruct (is_word pc); reflexivity.
Qed.

(** The word count is the number of maximal runs of word characters of the
    body, tags and attribute names included. *)
Theorem countWords_runs (content : string) :
  countWords content = wordRuns false content.
Proof. unfold countWords, matchAll, scan. apply (proj1 (words_scan content None 0)). Qed.


(** Every match of a walk was found by a match attempt. *)
Lemma hit_match_at fl r mt a : forall skip pc p,
  In (Hit mt) (scan_from fl r skip pc p a) ->
  exists pc' p' a', match_at fl r pc' p' a' = Some mt.
Proof.
  induction a as [|c a IH]; intros skip pc p; destruct skip as [|n]; cbn [scan_from].
  - destruct (match_at fl r pc p "") as [mt'|] eqn:E; [|intros []].
    intros [H | []]. injection H as ->. eauto.
  - intros [].
  - destruct (match_at fl r pc p (String c a)) as [mt'|] eqn:E.
    + intros [H | H]; [injection H as ->; eauto|].
      destruct (String.length (whole mt')); [destruct H as [H | H]; [discriminate|]|];
        eapply IH; eauto.
    + intros [H | H]; [discriminate | eapply IH; eauto].
  - apply IH.
Qed.

(** The lazy [.*?] loop stops at the first place where what follows
    succeeds: in front of a closing quote it never takes a quote, and a dot
    never takes a line terminator. *)
Lemma lazy_dot_loop {A} (K : @cont A) fuel : forall st res,
  (forall x c s', rest x = String c s' -> isQuote c = true -> K x <> None) ->
  repeat_loop (fun x c => m no_flags Dot (clear_caps (groups_of Dot) x) c) false fuel st K
    = Some res ->
  exists w st', rest st = (w ++ rest st')%string /\ pos st' = pos st + String.length w /\
                K st' = Some res /\
                Forall (fun c => isQuote c = false /\ isLineTerminator c = false) (chars w).
Proof.
  induction fuel as [|f IH]; intros st res HK; cbn [repeat_loop].
  - intros H. exists EmptyString, st. simpl. repeat split; auto; lia.
  - intros H. apply orelse_some in H as [H | [N H]].
    + exists EmptyString, st. simpl. repeat split; auto; lia.
    + cbn [m] in H. apply m_char_inv in H as [c [s' [Hr [Hd H]]]].
      cbn [clear_caps rest] in Hr.
      destruct (pos st <? pos _); [|discriminate].
      apply IH in H as [w [st' [Hw [Hp [Hk Hc]]]]]; [|exact HK].
      exists (String c w), st'. cbn [rest advance pos clear_caps] in *.
      repeat split.
      * rewrite Hr. simpl. now rewrite Hw.
      * rewrite Hp. simpl. lia.
      * exact Hk.
      * simpl. constructor; [|exact Hc]. split.
        -- destruct (isQuote c) eqn:Q; [|reflexivity].
           exfalso. exact (HK st c s' Hr Q N).
        -- now apply negb_true_iff in Hd.
Qed.

Lemma quote_class c :
  xorb false (class_mem no_flags [CsChar dquote; CsChar "'"] c) = isQuote c.
Proof.
  unfold isQuote. cbn [class_mem no_flags ignoreCase existsb cset_mem xorb].
  now rewrite orb_false_r.
Qed.

(** The captured value of a match of the link pattern. *)
Lemma linkRegex_value pc p a mt :
  match_at no_flags linkRegex pc p a = Some mt ->
  Forall (fun c => isQuote c = false /\ isLineTerminator c = false) (chars (group 1 mt)).
Proof.
  unfold match_at, linkRegex. cbn [cat]. intros H.
  cbn [m] in H. apply (m_sound no_flags (lit "href=")) in H as [st1 [_ H]].
  apply m_char_inv in H as [c1 [s1 [_ [_ H]]]].
  apply lazy_dot_loop in H as [w [st' [Hw [Hp [H Hc]]]]].
  - apply m_char_inv in H as [c2 [s2 [_ [_ H]]]].
    injection H as <-. unfold group.
    cbn [groups caps advance set_cap lookup Nat.eqb rest pos] in *.
    replace (pos st' - S (pos st1)) with (String.length w) by lia.
    rewrite Hw, substring_prefix. exact Hc.
  - intros x c s' Hr Q. unfold m_char. cbn [rest set_cap]. rewrite Hr, quote_class, Q.
    discriminate.
Qed.

(** No [href] value the link counter sees holds a quote of either kind or
    a line terminator: the value ends at the first quote after [href=],
    whichever quote opened it, and does not span lines. *)
Theorem hrefs_clean (content : string) :
  Forall (fun url =>
            Forall (fun c => isQuote c = false /\ isLineTerminator c = false) (chars url))
    (hrefs content).
Proof.
  unfold hrefs, matchAll, scan. apply Forall_forall. intros url H.
  apply in_map_iff in H as [mt [<- H]].
  assert (Hit_in : In (Hit mt) (scan_from no_flags linkRegex 0 None 0 content)).
  { revert H. generalize (scan_from no_flags linkRegex 0 None 0 content).
    intros l. induction l as [|[c|x] l IH]; simpl; [tauto | auto |].
    intros [-> | H]; auto. }
  apply hit_match_at in Hit_in as [pc [p [a E]]].
  eapply linkRegex_value; eauto.
Qed.

Lemma filter_split_length {A} (f g : A -> bool) l :
  List.length (filter f l) + List.length (filter (fun x => negb (f x) && g x) l)
  <= List.length l.
Proof.
  induction l as [|x l IH]; simpl; [lia|].
  destruct (f x); simpl; [lia|]. destruct (g x); simpl; lia.
Qed.

(** No [href] is counted twice: the internal and external counts together
    do not exceed the number of [href] occurrences, and they reach it
    exactly when every value is internal or starts with "http". *)
Theorem countLinks_bound (content siteUrl : string) :
  fst (countLinks content siteUrl) + snd (countLinks content siteUrl)
    <= List.length (hrefs content) /\
  (fst (countLinks content siteUrl) + snd (countLinks content siteUrl)
     = List.length (hrefs content) <->
   Forall (fun url => isInternalUrl (cleanSiteOf siteUrl) url = true
                      \/ startsWith url "http" = true) (hrefs content)).
Proof.
  rewrite countLinks_counts. cbn [fst snd].
  generalize (hrefs content) as l. intros l.
  split; [apply filter_split_length|].
  induction l as [|x l IH]; simpl; [split; [constructor | reflexivity]|].
  pose proof (filter_split_length (isInternalUrl (cleanSiteOf siteUrl))
                (fun u => startsWith u "http") l) as B.
  destruct (isInternalUrl (cleanSiteOf siteUrl) x) eqn:I; simpl.
  - split.
    + intros H. constructor; [now left|]. apply IH. lia.
    + intros H. inversion H; subst. apply IH in H3. lia.
  - destruct (startsWith x "http") eqn:S; simpl.
    + split.
      * intros H. constructor; [now right|]. apply IH. lia.
      * intros H. inversion H; subst. apply IH in H3. lia.
    + split; [lia|]. intros H. inversion H; subst. destruct H2; congruence.
Qed.

Lemma token_char_cases c :
  isWordChar c = true -> toLowerChar c = c -> isTokenChar c = true.
Proof.
  destruct c as [[] [] [] [] [] [] [] []]; vm_compute; intros; congruence.
Qed.

(** The words that come out of lower-casing, stripping and splitting are
    made of lower-case letters, digits and underscores. *)
Lemma piece_token_chars text piece :
  In piece (split no_flags re_spaces
              (replace_all no_flags re_punct (fun _ => EmptyString) (toLowerCase text))) ->
  Forall (fun c => isTokenChar c = true) (chars piece).
Proof.
  intros H. apply Forall_forall. intros c Hc.
  pose proof (split_spaces_no_space _ _ _ H Hc) as Hs.
  destruct (word_chars _ _ _ H Hc) as [y [_ Ey]].
  pose proof (split_chars _ _ _ _ _ H Hc) as Hin.
  rewrite (remove_units no_flags re_punct
             (fun x => xorb true (class_mem no_flags [CsWord; CsSpace] x))) in Hin
    by reflexivity.
  apply AiServiceFacts.reject_chars in Hin as [_ Hq].
  apply token_char_cases.
  - cbn [class_mem no_flags ignoreCase existsb cset_mem xorb] in Hq.
    rewrite orb_false_r in Hq. apply negb_false_iff in Hq.
    apply orb_true_iff in Hq as [Hq | Hq]; [exact Hq | congruence].
  - subst c. apply toLowerChar_idem.
Qed.

(** Every token of [tokenize] is made of lower-case letters, digits and
    underscores only: punctuation and every other code unit is gone. *)
Theorem tokenize_chars (text : string) :
  Forall (fun token => Forall (fun c => isTokenChar c = true) (chars token))
    (tokenize text).
Proof.
  apply Forall_forall. intros token H.
  apply tokenize_In in H as [H _]. now apply piece_token_chars in H.
Qed.

(** The floor at 0 of the two scores never applies: the penalties add up
    to at most 70 and 65, so the SEO score lies between 30 and 100 and the
    answer-engine score between 35 and 100, both multiples of 5. *)
Theorem score_ranges (now : Z) (Date_parse : string -> option Z)
    (id : Z) (content : string) (modified : jsval) (siteUrl : string) :
  let result := analyzeHealth now Date_parse id content modified siteUrl in
  PostHealth.score result = seoOf (PostHealth.metrics result) /\
  PostHealth.aeoScore result = aeoOf (PostHealth.metrics result) /\
  (30 <= PostHealth.score result <= 100)%Z /\
  (35 <= PostHealth.aeoScore result <= 100)%Z /\
  (PostHealth.score result mod 5 = 0)%Z /\
  (PostHealth.aeoScore result mod 5 = 0)%Z.
Proof.
  cbv zeta. unfold analyzeHealth. destruct (countLinks content siteUrl) as [i e].
  cbn [PostHealth.score PostHealth.aeoScore PostHealth.metrics].
  unfold seoOf, aeoOf, penalty.
  cbn [PostHealth.wordCount PostHealth.hasSchema PostHealth.hasVerdict
       PostHealth.internalLinks PostHealth.externalLinks PostHealth.lastUpdatedDayCount].
  repeat match goal with |- context [if ?b then _ else _] => destruct b end;
    vm_compute; intuition congruence.
Qed.

(** The day count of a parsed timestamp less than 2^26 days away from now,
    both of them time values (at most 8.64e15 ms from the epoch): it is
    the least number of whole days that covers the distance between the
    two, it is never negative and at most 2^26, and a timestamp in the
    future counts like one in the past. In this range the quotient of the
    code, which is one of binary64 numbers, has the ceiling of the exact
    quotient. *)
Theorem diffDays_ceiling (now t : Z) :
  (Z.abs now <= 8640000000000000)%Z ->
  (Z.abs t <= 8640000000000000)%Z ->
  (Z.abs (now - t) < 2 ^ 26 * 86400000)%Z ->
  exists n,
    diffDaysOf now (Some t) = Num n /\
    (0 <= n <= 2 ^ 26)%Z /\
    ((n - 1) * 86400000 < Z.abs (now - t) <= n * 86400000)%Z /\
    diffDaysOf t (Some now) = Num n.
Proof.
  intros _ _ R.
  exists ((Z.abs (now - t) + 86399999) / 86400000)%Z.
  split; [reflexivity|].
  pose proof (Z.abs_nonneg (now - t)) as Ha.
  pose proof (Z.div_mod (Z.abs (now - t) + 86399999) 86400000 ltac:(lia)) as D.
  pose proof (Z.mod_pos_bound (Z.abs (now - t) + 86399999) 86400000 ltac:(lia)) as M.
  change (2 ^ 26)%Z with 67108864%Z in *.
  split; [lia|]. split; [lia|].
  unfold diffDaysOf. do 3 f_equal. lia.
Qed.

Lemma diffDays_ceiling_witness :
  diffDaysOf 1762041600000%Z (Some 1730419200000%Z) = Num 366%Z /\
  diffDaysOf 1730419200000%Z (Some 1762041600000%Z) = Num 366%Z /\
  exists n,
    diffDaysOf 1762041600001%Z (Some 1730419200000%Z) = Num n /\
    (0 <= n <= 2 ^ 26)%Z /\
    ((n - 1) * 86400000 < Z.abs (1762041600001 - 1730419200000) <= n * 86400000)%Z /\
    diffDaysOf 1730419200000%Z (Some 1762041600001%Z) = Num n.
Proof.
  split; [reflexivity|]. split; [reflexivity|].
  apply (diffDays_ceiling 1762041600001%Z 1730419200000%Z); vm_compute; congruence.
Defined.

End WorkerMore.

(** ** The link validator and the HTML corrector: normalization, links that
    stay, text that stays *)

Module AiServiceMore.
Import AiService RegexFacts JsSetFacts AiServiceFacts.

(** [/\/$/] matches at the last code unit when that is a slash, and nowhere
    else. *)
Lemma slash_match_at pc p a :
  match_at no_flags re_trailing_slash pc p a =
  match a with
  | String c EmptyString =>
      if Ascii.eqb "/" c
      then Some {| index := p; whole := String c EmptyString; groups := [] |}
      else None
  | _ => None
  end.
Proof.
  unfold match_at, re_trailing_slash. cbn [m]. unfold m_char. cbn [rest].
  destruct a as [|c a]; [reflexivity|].
  cbn [char_eq no_flags ignoreCase]. destruct (Ascii.eqb "/" c); [|now destruct a].
  unfold at_eol, next_char, advance. cbn [rest multiline andb pos caps].
  destruct a as [|x a]; [|reflexivity].
  replace (S p - p) with 1 by lia. reflexivity.
Qed.

Lemma slash_search a : forall pc p,
  search_from no_flags re_trailing_slash pc p a =
  if endsWith a "/"
  then Some {| index := p + (String.length a - 1); whole := "/"; groups := [] |}
  else None.
Proof.
  induction a as [|c a IH]; intros pc p.
  - reflexivity.
  - cbn [search_from]. rewrite slash_match_at. destruct a as [|x a].
    + unfold endsWith. cbn [String.length Nat.leb Nat.sub substring andb].
      rewrite String.eqb_sym. cbn [String.eqb].
      destruct (Ascii.eqb "/" c) eqn:E.
      * apply Ascii.eqb_eq in E. subst c. cbn [String.length Nat.sub].
        now rewrite Nat.add_0_r.
      * reflexivity.
    + rewrite IH. 
      replace (endsWith (String c (String x a)) "/") with (endsWith (String x a) "/").
      * destruct (endsWith (String x a) "/"); [|reflexivity].
        do 2 f_equal. cbn [String.length]. lia.
      * unfold endsWith. cbn [String.length Nat.leb].
        replace (S (S (String.length a)) - 1) with (S (S (String.length a) - 1)) by lia.
        reflexivity.
Qed.

Lemma endsWith_slash_cons c x a :
  endsWith (String c (String x a)) "/" = endsWith (String x a) "/".
Proof.
  unfold endsWith. cbn [String.length Nat.leb].
  replace (S (S (String.length a)) - 1) with (S (S (String.length a) - 1)) by lia.
  reflexivity.
Qed.

Lemma chopSlash_substring a :
  endsWith a "/" = true -> substring 0 (String.length a - 1) a = chopSlash a.
Proof.
  induction a as [|c a IH]; [discriminate|].
  destruct a as [|x a].
  - unfold endsWith. cbn. destruct (Ascii.eqb c "/") eqn:E; [reflexivity|].
    rewrite Ascii.eqb_sym in E. 
    destruct c as [[] [] [] [] [] [] [] []]; discriminate.
  - rewrite endsWith_slash_cons. intros H. specialize (IH H).
    replace (String.length (String c (String x a)) - 1)
      with (S (String.length (String x a) - 1)) by (cbn [String.length]; lia).
    change (substring 0 (S ?n) (String c ?s)) with (String c (substring 0 n s)).
    change (chopSlash (String c (String x a))) with (String c (chopSlash (String x a))).
    now rewrite IH.
Qed.

Lemma chopSlash_id a : endsWith a "/" = false -> chopSlash a = a.
Proof.
  induction a as [|c a IH]; [reflexivity|].
  destruct a as [|x a].
  - unfold endsWith. cbn. destruct (Ascii.eqb c "/") eqn:E; [|reflexivity].
    apply Ascii.eqb_eq in E. subst c. discriminate.
  - rewrite endsWith_slash_cons. intros H.
    change (chopSlash (String c (String x a))) with (String c (chopSlash (String x a))).
    now rewrite IH.
Qed.

Lemma substring_end n a : substring n 0 a = EmptyString.
Proof. apply substring_n_0. Qed.

(** [u.replace(/\/$/, '')] takes one trailing slash away and nothing
    else. *)
Lemma replace_trailing_slash u :
  replace_first no_flags re_trailing_slash (fun _ => EmptyString) u = chopSlash u.
Proof.
  unfold replace_first. rewrite slash_search.
  destruct (endsWith u "/") eqn:E; [|now rewrite chopSlash_id].
  cbn [index whole String.length append].
  assert (L : 1 <= String.length u).
  { destruct u; [discriminate | simpl; lia]. }
  replace (String.length u - (0 + (String.length u - 1) + 1)) with 0 by lia.
  rewrite substring_n_0, append_nil_r. now apply chopSlash_substring.
Qed.

Lemma chopSlash_append u : chopSlash (u ++ "/") = u.
Proof.
  induction u as [|c u IH]; [reflexivity|].
  cbn [append chopSlash]. rewrite IH.
  destruct u; reflexivity.
Qed.


(** Normalization lower-cases a URL and takes one trailing slash away, no
    more; a URL that starts with "http" is first replaced by its parsed
    path, when it parses. The site URL of the health scorer is cleaned the
    same way, without the change of case. *)
Theorem normalize_one_slash (URL_pathname : string -> option string) (u : string) :
  normalize URL_pathname u =
    toLowerCase (chopSlash (if startsWith u "http"
                            then match URL_pathname u with
                                 | Some pathname => pathname
                                 | None => u
                                 end
                            else u)) /\
  Worker.cleanSiteOf u = chopSlash u /\
  chopSlash (u ++ "/") = u /\
  (endsWith u "/" = false -> chopSlash u = u).
Proof.
  split; [|split; [apply replace_trailing_slash | split; [apply chopSlash_append|]]].
  - unfold normalize, stripSlashLower.
    destruct (startsWith u "http"); [destruct (URL_pathname u)|];
      now rewrite replace_trailing_slash.
  - apply chopSlash_id.
Qed.

Section Platform.
Variable URL_pathname : string -> option string.

(** A link is never stripped when its [href] normalizes to the normalized
    URL of one of the nodes: it is kept as an internal link, or left as it
    is when it is not classified internal. *)
Theorem sanitizeAnchor_keeps_known (validNodes : list SemanticNode.t)
    (siteUrl : string) (mt : rmatch) (n : SemanticNode.t) :
  In n validNodes ->
  normalize URL_pathname (trim (group 2 mt)) = normalize URL_pathname (SemanticNode.url n) ->
  sanitizeAnchor URL_pathname (validPathsOf URL_pathname validNodes) siteUrl mt =
    if fst (classify URL_pathname siteUrl (trim (group 2 mt)))
    then ("<a href=" ++ dq ++ trim (group 2 mt) ++ dq ++ " class=" ++ dq
          ++ "sota-internal-link" ++ dq ++ " title=" ++ dq
          ++ "Read more: " ++ unquoted (group 3 mt) ++ dq ++ ">" ++ group 3 mt
          ++ "</a>")%string
    else whole mt.
Proof.
  intros Hn E. unfold sanitizeAnchor.
  destruct (classify URL_pathname siteUrl (trim (group 2 mt))) as [[|] path] eqn:C;
    [|reflexivity].
  cbn [fst]. apply classify_path in C. subst path.
  assert (V : isValidPath (validPathsOf URL_pathname validNodes)
                (normalize URL_pathname (trim (group 2 mt))) = true).
  { apply (isValidPath_iff URL_pathname).
    exists (normalize URL_pathname (SemanticNode.url n)). split.
    - apply validPathsOf_In. now exists n.
    - left. now rewrite E. }
  rewrite V. unfold internalLinkHtml. rewrite linkTitle_unquoted.
  now rewrite !append_assoc.
Qed.
End Platform.

Lemma sanitizeAnchor_keeps_known_witness :
  In widget_node [widget_node] /\
  sanitizeAnchor no_URL (validPathsOf no_URL [widget_node]) "https://site.example"
    {| index := 0; whole := "<a href='/Reviews/Widget/'>W</a>";
       groups := [(3, "W"); (2, "/Reviews/Widget/"); (1, "'")] |}
  = ("<a href=" ++ dq ++ "/Reviews/Widget/" ++ dq ++ " class=" ++ dq
     ++ "sota-internal-link" ++ dq ++ " title=" ++ dq ++ "Read more: W" ++ dq
     ++ ">W</a>")%string.
Proof.
  split; [now left|].
  apply (sanitizeAnchor_keeps_known no_URL [widget_node] "https://site.example"
           {| index := 0; whole := "<a href='/Reviews/Widget/'>W</a>";
              groups := [(3, "W"); (2, "/Reviews/Widget/"); (1, "'")] |} widget_node).
  - now left.
  - vm_compute. reflexivity.
Defined.

(** When no match attempt succeeds where a test on the input fails, and
    the test fails on every suffix, the search finds nothing. *)
Lemma search_from_nowhere fl r (Q : string -> bool) :
  (forall pc p a, Q a = false -> match_at fl r pc p a = None) ->
  forall a pc p, nowhere Q a = true -> search_from fl r pc p a = None.
Proof.
  intros HQ. induction a as [|c a IH]; intros pc p H; cbn [nowhere] in H;
    apply andb_true_iff in H as [H1 H2]; apply negb_true_iff in H1;
    cbn [search_from]; rewrite (HQ _ _ _ H1); [reflexivity | now apply IH].
Qed.

Lemma test_nowhere fl r (Q : string -> bool) a :
  (forall pc p a, Q a = false -> match_at fl r pc p a = None) ->
  nowhere Q a = true -> test fl r a = false.
Proof.
  intros HQ H. unfold test. now rewrite (search_from_nowhere fl r Q HQ a None 0 H).
Qed.

Lemma nowhere_includes a sub :
  includes a sub = false -> nowhere (fun x => startsWith x sub) a = true.
Proof.
  induction a as [|c a IH]; cbn [includes nowhere]; intros H;
    apply orb_false_iff in H as [H1 H2]; rewrite H1; [reflexivity|].
  now rewrite IH.
Qed.

Lemma nowhere_head q a :
  Forall (fun c => q c = false) (chars a) -> nowhere (headIs q) a = true.
Proof.
  induction a as [|c a IH]; cbn [nowhere headIs]; intros H; [reflexivity|].
  inversion H; subst. rewrite H2. now rewrite IH.
Qed.

Lemma nowhere_lower (Q : string -> bool) a :
  nowhere Q (toLowerCase a) = true -> nowhere (fun x => Q (toLowerCase x)) a = true.
Proof.
  induction a as [|c a IH]; cbn [toLowerCase nowhere]; intros H;
    apply andb_true_iff in H as [H1 H2]; rewrite H1; [reflexivity|].
  now rewrite IH.
Qed.

Lemma char_eq_i_lt x : char_eq flag_i "<" x = true -> toLowerChar x = "<"%char.
Proof. destruct x as [[] [] [] [] [] [] [] []]; vm_compute; congruence. Qed.

Lemma char_eq_i_a x : char_eq flag_i "a" x = true -> toLowerChar x = "a"%char.
Proof. destruct x as [[] [] [] [] [] [] [] []]; vm_compute; congruence. Qed.

(** A match of the anchor pattern starts with "<a" or "<A". *)
Lemma anchor_match_start pc p a :
  startsWith (toLowerCase a) "<a" = false -> match_at flag_i re_anchor pc p a = None.
Proof.
  intros H. destruct (match_at flag_i re_anchor pc p a) as [mt|] eqn:E; [|reflexivity].
  exfalso. unfold match_at, re_anchor in E. cbn [cat lit] in E.
  change (m flag_i (Seq (Seq (Char "<") (Char "a")) ?r) ?st ?k)
    with (m_char (char_eq flag_i "<") st
            (fun st1 => m_char (char_eq flag_i "a") st1 (fun st' => m flag_i r st' k))) in E.
  apply m_char_inv in E as [c1 [s1 [R1 [Q1 E]]]].
  apply m_char_inv in E as [c2 [s2 [R2 [Q2 _]]]].
  cbn [rest advance] in R1, R2. subst a s1.
  cbn [toLowerCase startsWith] in H.
  rewrite (char_eq_i_lt _ Q1), (char_eq_i_a _ Q2), startsWith_nil in H. discriminate.
Qed.

(** Text that holds no "<a" in either case goes through the link validator
    unchanged: markup the anchor pattern does not match is left alone. *)
Theorem validateAndSanitizeLinks_no_anchor (URL_pathname : string -> option string)
    (html : string) (validNodes : list SemanticNode.t) (siteUrl : string) :
  includes (toLowerCase html) "<a" = false ->
  validateAndSanitizeLinks URL_pathname html validNodes siteUrl = html.
Proof.
  intros H. unfold validateAndSanitizeLinks. apply replace_all_no_match.
  apply (test_nowhere flag_i re_anchor (fun x => startsWith (toLowerCase x) "<a")).
  - intros pc p a. apply anchor_match_start.
  - apply (nowhere_lower (fun x => startsWith x "<a")). now apply nowhere_includes.
Qed.

Lemma validateAndSanitizeLinks_no_anchor_witness :
  validateAndSanitizeLinks no_URL "<p>See <b>href='/x'</b> below.</p>" [widget_node]
    "https://site.example"
  = "<p>See <b>href='/x'</b> below.</p>".
Proof.
  apply (validateAndSanitizeLinks_no_anchor no_URL). vm_compute. reflexivity.
Defined.


Lemma char_eq_i_punct a x :
  isMarkdownChar a = true -> char_eq flag_im a x = Ascii.eqb x a /\
                             char_eq flag_i a x = Ascii.eqb x a.
Proof.
  unfold isMarkdownChar. intros H.
  apply orb_true_iff in H as [H | H]; [apply orb_true_iff in H as [H | H]|];
    apply Ascii.eqb_eq in H; subst a;
    destruct x as [[] [] [] [] [] [] [] []]; split; reflexivity.
Qed.

Lemma wordcount_match_start pc p a :
  headIs (fun c => Ascii.eqb c "(") a = false ->
  match_at flag_i re_wordcount pc p a = None.
Proof.
  intros H. unfold match_at, re_wordcount. cbn [cat].
  change (m flag_i (Seq (Char "(") ?r) ?st ?k)
    with (m_char (char_eq flag_i "(") st (fun st' => m flag_i r st' k)).
  unfold m_char. cbn [rest]. destruct a as [|c a]; [reflexivity|].
  rewrite (proj2 (char_eq_i_punct "(" c eq_refl)). cbn [headIs] in H. now rewrite H.
Qed.

Lemma header_match_start hashes pc p a :
  headIs (fun c => Ascii.eqb c "#") a = false ->
  match_at flag_im (re_header (String "#" (String "#" hashes))) pc p a = None.
Proof.
  intros H. unfold match_at, re_header. cbn [cat].
  assert (L : forall A st (k : @cont A),
             m flag_im (lit (String "#" (String "#" hashes))) st k
             = m_char (char_eq flag_im "#") st
                 (fun st' => m flag_im (lit (String "#" hashes)) st' k)) by reflexivity.
  cbn [m]. destruct (at_bol _ _); [|reflexivity].
  change (m flag_im (lit (String "#" (String "#" hashes))) ?st ?k)
    with (m_char (char_eq flag_im "#") st
            (fun st' => m flag_im (lit (String "#" hashes)) st' k)).
  unfold m_char at 1. cbn [rest]. destruct a as [|c a]; [reflexivity|].
  rewrite (proj1 (char_eq_i_punct "#" c eq_refl)). cbn [headIs] in H. now rewrite H.
Qed.

Lemma bold_match_start pc p a :
  headIs (fun c => Ascii.eqb c "*") a = false ->
  match_at no_flags re_bold pc p a = None.
Proof.
  intros H. unfold match_at, re_bold. cbn [cat lit].
  change (m no_flags (Seq (Seq (Char "*") (Char "*")) ?r) ?st ?k)
    with (m_char (char_eq no_flags "*") st
            (fun st1 => m_char (char_eq no_flags "*") st1
                          (fun st' => m no_flags r st' k))).
  unfold m_char at 1. cbn [rest]. destruct a as [|c a]; [reflexivity|].
  cbn [char_eq no_flags ignoreCase]. cbn [headIs] in H.
  rewrite Ascii.eqb_sym. now rewrite H.
Qed.

Lemma Forall_weaken_chars (q1 q2 : ascii -> bool) a :
  (forall c, q1 c = false -> q2 c = false) ->
  Forall (fun c => q1 c = false) (chars a) -> Forall (fun c => q2 c = false) (chars a).
Proof. intros H F. eapply Forall_impl; [|exact F]. exact H. Qed.

(** Text without an opening parenthesis, a hash sign or an asterisk, and
    without loose bullet lines, is only trimmed: the corrector does not
    touch HTML that holds none of the patterns it repairs. *)
Theorem forceHtmlStructure_plain (x : string) :
  Forall (fun c => isMarkdownChar c = false) (chars x) ->
  hasLooseBullets x = false ->
  forceHtmlStructure x = trim x.
Proof.
  intros F B. unfold forceHtmlStructure. cbv zeta.
  assert (P1 : nowhere (headIs (fun c => Ascii.eqb c "(")) x = true).
  { apply nowhere_head. eapply Forall_weaken_chars; [|exact F].
    unfold isMarkdownChar. intros c H.
    apply orb_false_iff in H as [H _]. now apply orb_false_iff in H as [H _]. }
  assert (P2 : nowhere (headIs (fun c => Ascii.eqb c "#")) x = true).
  { apply nowhere_head. eapply Forall_weaken_chars; [|exact F].
    unfold isMarkdownChar. intros c H.
    apply orb_false_iff in H as [H _]. now apply orb_false_iff in H as [_ H]. }
  assert (P3 : nowhere (headIs (fun c => Ascii.eqb c "*")) x = true).
  { apply nowhere_head. eapply Forall_weaken_chars; [|exact F].
    unfold isMarkdownChar. intros c H. now apply orb_false_iff in H as [_ H]. }
  rewrite (replace_all_no_match flag_i re_wordcount).
  2:{ eapply test_nowhere; [|exact P1]. intros; now apply wordcount_match_start. }
  rewrite (replace_all_no_match flag_im (re_header "##")).
  2:{ eapply test_nowhere; [|exact P2]. intros; now apply header_match_start. }
  rewrite (replace_all_no_match flag_im (re_header "###")).
  2:{ eapply test_nowhere; [|exact P2]. intros; now apply header_match_start. }
  rewrite (replace_all_no_match flag_im (re_header "####")).
  2:{ eapply test_nowhere; [|exact P2]. intros; now apply header_match_start. }
  rewrite (replace_all_no_match no_flags re_bold).
  2:{ eapply test_nowhere; [|exact P3]. intros; now apply bold_match_start. }
  unfold convertLists. now rewrite B.
Qed.

Lemma forceHtmlStructure_plain_witness :
  forceHtmlStructure ("  <p>Plain text - no markers.</p>" ++ nl)
  = "<p>Plain text - no markers.</p>".
Proof.
  change "<p>Plain text - no markers.</p>"
    with (trim ("  <p>Plain text - no markers.</p>" ++ nl)).
  apply (forceHtmlStructure_plain ("  <p>Plain text - no markers.</p>" ++ nl)).
  - vm_compute. repeat constructor.
  - vm_compute. reflexivity.
Defined.

Lemma headIs_trimStart a : headIs isWhiteSpace (trimStart a) = false.
Proof.
  induction a as [|c a IH]; [reflexivity|]. simpl.
  destruct (isWhiteSpace c) eqn:W; [exact IH | simpl; exact W].
Qed.

Lemma headIs_trimEnd a :
  headIs isWhiteSpace a = false -> headIs isWhiteSpace (trimEnd a) = false.
Proof.
  destruct a as [|c a]; [reflexivity|]. cbn [headIs trimEnd]. intros W.
  destruct (trimEnd a); [rewrite W|]; simpl; auto.
Qed.

Lemma lastIs_trimEnd a : lastIs isWhiteSpace (trimEnd a) = false.
Proof.
  induction a as [|c a IH]; [reflexivity|]. cbn [trimEnd].
  destruct (trimEnd a) as [|y t] eqn:E.
  - destruct (isWhiteSpace c) eqn:W; simpl; auto.
  - exact IH.
Qed.

(** The corrector's output never starts and never ends with white space,
    whatever the input: a further [trim] changes nothing. *)
Theorem forceHtmlStructure_trimmed (x : string) :
  headIs isWhiteSpace (forceHtmlStructure x) = false /\
  lastIs isWhiteSpace (forceHtmlStructure x) = false /\
  trim (forceHtmlStructure x) = forceHtmlStructure x.
Proof.
  unfold forceHtmlStructure. cbv zeta. unfold trim at 1 2.
  split; [apply headIs_trimEnd, headIs_trimStart|].
  split; [apply lastIs_trimEnd | apply trim_idem].
Qed.

End AiServiceMore.


(** ** The HTML corrector on a fragment of Markdown *)

Module CorrectorFacts.
Import AiService StringFacts RegexFacts MatcherMore AiServiceMore.

Lemma m_bol {A} fl st (k : @cont A) :
  m fl Bol st k = if at_bol fl st then k st else None.
Proof. reflexivity. Qed.

Lemma m_eol {A} fl st (k : @cont A) :
  m fl Eol st k = if at_eol fl st then k st else None.
Proof. reflexivity. Qed.

Lemma space_no_hash c : isWhiteSpace c = true -> Ascii.eqb c "#" = false.
Proof. destruct c as [[] [] [] [] [] [] [] []]; vm_compute; congruence. Qed.

Lemma space_no_markdown c : isWhiteSpace c = true -> isMarkdownChar c = false.
Proof. destruct c as [[] [] [] [] [] [] [] []]; vm_compute; congruence. Qed.


(** The header pattern does not match inside a line. *)
Lemma header_not_bol h c p s :
  isLineTerminator c = false -> match_at flag_im (re_header h) (Some c) p s = None.
Proof.
  intros L. unfold match_at, re_header. cbn [cat]. rewrite m_seq, m_bol.
  unfold at_bol. cbn [prevc multiline flag_im andb]. now rewrite L.
Qed.

(** The text of a header line and the end of the line, read forward: the
    group takes the text. *)
Lemma header_text {A} (k : @cont A) x tail st :
  rest st = (x ++ tail)%string ->
  free isLineTerminator x = true ->
  tail = EmptyString \/ headIs isLineTerminator tail = true ->
  (forall st', k st' <> None) ->
  exists st', pos st' = pos st + String.length x /\
              caps st' = (1, x) :: filter (fun p => negb (Nat.eqb (fst p) 1)) (caps st) /\
              m flag_im (Group 1 (Seq (Star true Dot) Eol)) st k = k st'.
Proof.
  intros R F T K. rewrite m_group, m_seq, m_star.
  assert (E : forall st', rest st' = tail -> at_eol flag_im st' = true).
  { intros st' R'. unfold at_eol, next_char. rewrite R'.
    destruct T as [-> | T]; [reflexivity|]. destruct tail as [|c tail]; [reflexivity|].
    cbn [headIs] in T. cbn [multiline flag_im andb]. exact T. }
  destruct (greedy_forward flag_im Dot (fun c => negb (isLineTerminator c))
              (fun st' => m flag_im Eol st'
                 (fun st2 => k (set_cap 1 (substring 0 (pos st2 - pos st) (rest st)) st2)))
              (fun st0 k' => m_dot flag_im st0 k') eq_refl x (String.length (rest st)) st tail)
    as [st' [R' [P' [C' [_ E']]]]].
  - clear - F. induction x as [|c x IH]; [reflexivity|]. cbn [free] in *.
    apply andb_true_iff in F as [F1 F2]. now rewrite negb_involutive, F1, IH.
  - destruct T as [-> | T]; [reflexivity|]. destruct tail as [|c tail]; [reflexivity|].
    cbn [headIs] in *. now rewrite T.
  - exact R.
  - rewrite R, length_append. lia.
  - intros st' R'. rewrite m_eol, (E st' R'). apply K.
  - rewrite E', m_eol, (E st' R').
    eexists. split; [|split; [|reflexivity]]; cbn [pos caps set_cap].
    + exact P'.
    + rewrite C', P', R. replace (pos st + String.length x - pos st) with (String.length x) by lia.
      now rewrite substring_prefix.
Qed.

(** A header line of the level of the pattern is matched whole, and the
    group is its text. *)
Lemma header_hit h ws x tail pc p :
  h <> EmptyString ->
  lineStart pc = true ->
  ws <> EmptyString ->
  free (fun c => negb (isWhiteSpace c)) ws = true ->
  headIs isWhiteSpace (x ++ tail) = false ->
  free isLineTerminator x = true ->
  tail = EmptyString \/ headIs isLineTerminator tail = true ->
  exists mt, match_at flag_im (re_header h) pc p (h ++ ws ++ x ++ tail) = Some mt /\
             whole mt = (h ++ ws ++ x)%string /\ group 1 mt = x.
Proof.
  intros Hh B Hw W H F T. unfold match_at, re_header. cbn [cat].
  set (final := fun st' : mstate => Some _).
  assert (K : forall st', final st' <> None) by (intros st'; discriminate).
  rewrite m_seq, m_bol.
  replace (at_bol flag_im _) with true
    by (unfold at_bol; cbn [prevc]; destruct pc as [c|]; [|reflexivity];
        cbn [lineStart] in B; now rewrite B).
  rewrite m_seq.
  destruct (lit_forward flag_im h Hh
              {| prevc := pc; pos := p; rest := (h ++ ws ++ x ++ tail)%string; caps := [] |}
              (ws ++ x ++ tail)%string
              (fun st' => m flag_im (Seq (Plus true re_s) (Group 1 (Seq (Star true Dot) Eol)))
                            st' final) eq_refl) as [s1 [R1 [P1 [C1 [_ E1]]]]].
  rewrite E1. rewrite m_seq, m_plus. cbn [groups_of re_s]. rewrite clear_caps_none.
  fold re_s. rewrite m_space.
  destruct ws as [|c ws]; [congruence|].
  cbn [free] in W. apply andb_true_iff in W as [W1 W2].
  apply negb_true_iff, negb_false_iff in W1.
  rewrite (m_char_hit _ s1 _ c (ws ++ x ++ tail)%string R1 W1).
  destruct (greedy_forward flag_im re_s isWhiteSpace
              (fun st' => m flag_im (Group 1 (Seq (Star true Dot) Eol)) st' final)
              (fun st0 k' => m_space flag_im st0 k') eq_refl ws
              (String.length (ws ++ x ++ tail))
              (advance c (ws ++ x ++ tail)%string s1) (x ++ tail)%string W2 H eq_refl)
    as [s2 [R2 [P2 [C2 [_ E2]]]]].
  - rewrite length_append. lia.
  - intros st' R'.
    destruct (header_text final x tail st' R' F T K) as [st'' [_ [_ E'']]].
    rewrite E''. apply K.
  - cbn [rest advance groups_of re_s] in *. rewrite E2.
    destruct (header_text final x tail s2 R2 F T K) as [s3 [P3 [C3 E3]]].
    rewrite E3. eexists. split; [reflexivity|].
    cbn [whole groups pos advance caps] in *. split.
    + replace (pos s3 - p) with (String.length (h ++ String c ws ++ x)%string)
        by (rewrite !length_append; cbn [String.length]; lia).
      replace (h ++ String c ws ++ x ++ tail)%string
        with ((h ++ String c ws ++ x) ++ tail)%string
        by (now rewrite !append_assoc).
      apply substring_prefix.
    + unfold group. cbn [groups]. rewrite C3. reflexivity.
Qed.

(** A header line of another level is no match for the pattern. *)
Lemma header_miss n lv ws s pc p :
  2 <= n <= 4 -> 2 <= lv <= 4 -> n <> lv ->
  ws <> EmptyString ->
  free (fun c => negb (isWhiteSpace c)) ws = true ->
  match_at flag_im (re_header (hashes n)) pc p (hashes lv ++ ws ++ s) = None.
Proof.
  intros Hn Hl D Hw W.
  destruct ws as [|c ws]; [congruence|].
  cbn [free] in W. apply andb_true_iff in W as [W _].
  apply negb_true_iff, negb_false_iff in W.
  assert (C1 : char_eq flag_im "#" c = false)
    by (rewrite (proj1 (char_eq_i_punct "#" c eq_refl)); now apply space_no_hash).
  unfold match_at, re_header. cbn [cat]. rewrite m_seq, m_bol.
  destruct (at_bol _ _); [|reflexivity].
  destruct n as [|[|[|[|[|n]]]]]; try lia; destruct lv as [|[|[|[|[|lv]]]]]; try lia;
    cbn [hashes lit append m]; unfold m_char; cbn [rest advance clear_caps];
    change (char_eq flag_im "#" "#") with true; cbv iota;
    rewrite ?C1; try reflexivity;
    change (xorb false (class_mem flag_im [CsSpace] "#")) with false; reflexivity.
Qed.

Lemma concat_cons sep x xs :
  String.concat sep (x :: xs)
  = (x ++ match xs with [] => EmptyString | _ => sep ++ String.concat sep xs end)%string.
Proof. cbn [String.concat]. destruct xs; [now rewrite append_nil_r | reflexivity]. Qed.

Lemma runSource_cons s segments :
  runSource (s :: segments) = (segmentSource s ++ runSource segments)%string.
Proof.
  unfold runSource. cbn [map]. rewrite concat_cons.
  destruct (map segmentSource segments); [|reflexivity]. reflexivity.
Qed.

Lemma runHtml_cons s segments :
  runHtml (s :: segments) = (segmentHtml s ++ runHtml segments)%string.
Proof.
  unfold runHtml. cbn [map]. rewrite concat_cons.
  destruct (map segmentHtml segments); [|reflexivity]. reflexivity.
Qed.

Lemma runSource_app a b : runSource (a ++ b) = (runSource a ++ runSource b)%string.
Proof.
  induction a as [|s a IH]; [reflexivity|]. cbn [app].
  now rewrite !runSource_cons, IH, append_assoc.
Qed.

Lemma runHtml_app a b : runHtml (a ++ b) = (runHtml a ++ runHtml b)%string.
Proof.
  induction a as [|s a IH]; [reflexivity|]. cbn [app].
  now rewrite !runHtml_cons, IH, append_assoc.
Qed.

Lemma free_weaken (q1 q2 : ascii -> bool) a :
  (forall c, q1 c = false -> q2 c = false) -> free q1 a = true -> free q2 a = true.
Proof.
  intros H. induction a as [|c a IH]; [reflexivity|]. cbn [free]. intros F.
  apply andb_true_iff in F as [F1 F2]. apply negb_true_iff in F1.
  now rewrite (H c F1), (IH F2).
Qed.

Lemma markdown_hash c : isMarkdownChar c = false -> Ascii.eqb c "#" = false.
Proof.
  unfold isMarkdownChar. intros H. apply orb_false_iff in H as [H _].
  now apply orb_false_iff in H as [_ H].
Qed.

Lemma markdown_paren c : isMarkdownChar c = false -> Ascii.eqb c "(" = false.
Proof.
  unfold isMarkdownChar. intros H. apply orb_false_iff in H as [H _].
  now apply orb_false_iff in H as [H _].
Qed.

Lemma markdown_star c : isMarkdownChar c = false -> Ascii.eqb c "*" = false.
Proof. unfold isMarkdownChar. intros H. now apply orb_false_iff in H as [_ H]. Qed.

(** The runs of a well-formed line hold no line terminator, and none of
    the characters in the way of the other passes. *)
Lemma runs_free (q : ascii -> bool) segments :
  (forall c, isMarkdownChar c = false -> q c = false) -> q "*"%char = false ->
  forallb plainSegment segments = true -> free q (runSource segments) = true.
Proof.
  intros Q S. induction segments as [|s segments IH]; [reflexivity|]. cbn [forallb]. intros F.
  apply andb_true_iff in F as [F1 F2]. rewrite runSource_cons, free_append, (IH F2), andb_true_r.
  destruct s as [p | t]; cbn [plainSegment segmentSource] in *;
    apply andb_true_iff in F1 as [F1 _].
  - exact (free_weaken _ _ _ Q F1).
  - rewrite !free_append. cbn [free]. rewrite S, (free_weaken _ _ _ Q F1). reflexivity.
Qed.

Lemma runs_one_line segments :
  forallb plainSegment segments = true ->
  free isLineTerminator (runSource segments) = true.
Proof.
  induction segments as [|s segments IH]; [reflexivity|]. cbn [forallb]. intros F.
  apply andb_true_iff in F as [F1 F2]. rewrite runSource_cons, free_append, (IH F2), andb_true_r.
  destruct s as [p | t]; cbn [plainSegment segmentSource] in *;
    apply andb_true_iff in F1 as [_ F1]; [exact F1|].
  rewrite !free_append. cbn [free]. now rewrite F1.
Qed.

Lemma hashes_two n : 2 <= n -> exists h, hashes n = String "#" (String "#" h).
Proof. destruct n as [|[|n]]; try lia. intros _. now exists (hashes n). Qed.

Lemma hashes_free q n : q "#"%char = false -> free q (hashes n) = true.
Proof. intros H. induction n as [|n IH]; [reflexivity|]. cbn [hashes free]. now rewrite H, IH. Qed.

Lemma tag_cases n : tagOf n = "h2" \/ tagOf n = "h3" \/ tagOf n = "h4".
Proof. destruct n as [|[|[|[|n]]]]; cbn [tagOf]; auto. Qed.

Lemma header_nowhere n pc p s :
  2 <= n ->
  headIs (fun c => Ascii.eqb c "#") s = false ->
  match_at flag_im (re_header (hashes n)) pc p s = None.
Proof. intros H. destruct (hashes_two n H) as [h ->]. apply header_match_start. Qed.

Lemma lineRuns_source level spacing segments :
  runSource (lineRuns (Header level spacing segments))
  = ("<" ++ tagOf level ++ ">" ++ runSource segments ++ "</" ++ tagOf level ++ ">")%string.
Proof.
  cbn [lineRuns]. rewrite runSource_cons, runSource_app. cbn [segmentSource].
  unfold runSource at 2. cbn [map String.concat].
  now rewrite !append_assoc.
Qed.

Lemma lineRuns_html l : runHtml (lineRuns l) = lineHtml l.
Proof.
  destruct l as [segments | level spacing segments]; [reflexivity|].
  cbn [lineRuns lineHtml]. rewrite runHtml_cons, runHtml_app. cbn [segmentHtml].
  unfold runHtml at 2. cbn [map String.concat].
  now rewrite !append_assoc.
Qed.

(** One line under the pass for the headers of one level. *)
Lemma header_line n l tail pc p :
  2 <= n <= 4 ->
  wellFormed l = true ->
  lineStart pc = true ->
  tail = EmptyString \/ headIs isLineTerminator tail = true ->
  render (wrap1 (tagOf n))
    (scan_from flag_im (re_header (hashes n)) 0 pc p (lineSource l ++ tail))
  = (lineSource (convertLevel n l)
     ++ render (wrap1 (tagOf n))
          (scan_from flag_im (re_header (hashes n)) 0 (lastc pc (lineSource l))
             (p + String.length (lineSource l)) tail))%string.
Proof.
  intros Hn W B T. destruct l as [segments | lv ws segments].
  - cbn [wellFormed lineSource convertLevel] in *.
    rewrite (scan_free flag_im (re_header (hashes n)) (fun c => Ascii.eqb c "#")).
    + now rewrite render_app, render_keep.
    + intros pc' p' s. apply header_nowhere. lia.
    + apply runs_free; [exact markdown_hash | reflexivity | exact W].
  - cbn [wellFormed] in W.
    repeat (apply andb_true_iff in W as [W ?]).
    apply Nat.leb_le in W.
    repeat match goal with
           | H : (_ <=? _) = true |- _ => apply Nat.leb_le in H
           | H : negb _ = true |- _ => apply negb_true_iff in H
           end.
    assert (Nw : ws <> EmptyString) by (intros ->; discriminate).
    assert (Nx : runSource segments <> EmptyString)
      by (intros E; rewrite E in *; discriminate).
    pose proof (runs_one_line segments ltac:(assumption)) as Lx.
    cbn [lineSource convertLevel].
    destruct (Nat.eqb_spec lv n) as [-> | D].
    + destruct (header_hit (hashes n) ws (runSource segments) tail pc p) as [mt [E [Wh G]]];
        try assumption.
      * destruct (hashes_two n ltac:(lia)) as [h ->]. discriminate.
      * destruct (runSource segments) as [|c x]; [congruence|]. assumption.
      * rewrite (scan_hit flag_im (re_header (hashes n)) pc p
                   (hashes n ++ ws ++ runSource segments) tail mt).
        -- cbn [render]. unfold wrap1 at 1. rewrite G.
           change (lineSource (Plain (lineRuns (Header n ws segments))))
             with (runSource (lineRuns (Header n ws segments))).
           rewrite lineRuns_source. now rewrite !append_assoc.
        -- destruct (hashes_two n ltac:(lia)) as [h ->]. discriminate.
        -- now rewrite !append_assoc.
        -- exact Wh.
    + destruct lv as [|lv]; [lia|]. cbn [hashes append].
      rewrite scan_miss.
      2:{ change (String "#" (hashes lv ++ ws ++ runSource segments) ++ tail)%string
            with (String "#" ((hashes lv ++ ws ++ runSource segments) ++ tail)).
          rewrite !append_assoc.
          apply (header_miss n (S lv) ws (runSource segments ++ tail) pc p); try assumption; lia. }
      rewrite (scan_anchored flag_im (re_header (hashes n))).
      * cbn [render chars list_ascii_of_string map lastc String.length].
        rewrite render_app, render_keep. cbn [lineSource hashes append].
        replace (p + S (String.length (hashes lv ++ ws ++ runSource segments)))
          with (S p + String.length (hashes lv ++ ws ++ runSource segments)) by lia.
        reflexivity.
      * intros c p' s. apply header_not_bol.
      * rewrite !free_append. rewrite hashes_free by reflexivity.
        now rewrite Lx, andb_true_r.
      * reflexivity.
Qed.

Lemma documentSource_cons l lines :
  documentSource (l :: lines)
  = (lineSource l
     ++ match lines with
        | [] => EmptyString
        | _ => nl ++ documentSource lines
        end)%string.
Proof.
  unfold documentSource. cbn [map]. rewrite concat_cons. now destruct lines.
Qed.

(** The pass for the headers of one level over a document. *)
Lemma header_scan n lines :
  2 <= n <= 4 ->
  forallb wellFormed lines = true ->
  forall pc p, lineStart pc = true ->
    render (wrap1 (tagOf n))
      (scan_from flag_im (re_header (hashes n)) 0 pc p (documentSource lines))
    = documentSource (map (convertLevel n) lines).
Proof.
  intros Hn. induction lines as [|l lines IH]; intros W pc p B.
  - cbn [map]. unfold documentSource. cbn [map String.concat].
    rewrite scan_end; [reflexivity|]. apply header_nowhere; [lia | reflexivity].
  - cbn [forallb] in W. apply andb_true_iff in W as [W1 W2].
    cbn [map]. rewrite !documentSource_cons.
    destruct lines as [|l2 lines].
    + rewrite (header_line n l EmptyString pc p Hn W1 B (or_introl eq_refl)).
      rewrite scan_end; [reflexivity|]. apply header_nowhere; [lia | reflexivity].
    + rewrite (header_line n l (nl ++ documentSource (l2 :: lines)) pc p Hn W1 B
                 (or_intror eq_refl)).
      cbn [map]. f_equal.
      change (nl ++ documentSource (l2 :: lines))%string
        with (String newline (documentSource (l2 :: lines))).
      rewrite scan_miss by (apply header_nowhere; [lia | reflexivity]).
      cbn [render]. rewrite (IH W2 (Some newline) _ eq_refl). reflexivity.
Qed.

Lemma header_pass n lines :
  2 <= n <= 4 ->
  forallb wellFormed lines = true ->
  replace_all flag_im (re_header (hashes n)) (wrap1 (tagOf n)) (documentSource lines)
  = documentSource (map (convertLevel n) lines).
Proof. intros Hn W. unfold replace_all, scan. now apply header_scan. Qed.

Lemma tag_plain n :
  plainSegment (Text ("<" ++ tagOf n ++ ">")) = true /\
  plainSegment (Text ("</" ++ tagOf n ++ ">")) = true.
Proof. destruct (tag_cases n) as [-> | [-> | ->]]; split; reflexivity. Qed.

Lemma convertLevel_wellFormed n l :
  wellFormed l = true -> wellFormed (convertLevel n l) = true.
Proof.
  destruct l as [segments | lv ws segments]; [auto|]. intros W. cbn [convertLevel].
  destruct (lv =? n); [|exact W]. cbn [wellFormed lineRuns] in *.
  repeat (apply andb_true_iff in W as [W ?]).
  cbn [forallb]. rewrite forallb_app. cbn [forallb].
  rewrite (proj1 (tag_plain lv)), (proj2 (tag_plain lv)). cbn [andb].
  now rewrite andb_true_r.
Qed.

Lemma convertLevel_all l :
  wellFormed l = true ->
  convertLevel 4 (convertLevel 3 (convertLevel 2 l)) = Plain (lineRuns l).
Proof.
  destruct l as [segments | lv ws segments]; [reflexivity|]. cbn [wellFormed]. intros W.
  repeat (apply andb_true_iff in W as [W ?]).
  apply Nat.leb_le in W.
  match goal with H : (lv <=? 4) = true |- _ => apply Nat.leb_le in H end.
  destruct lv as [|[|[|[|[|lv]]]]]; try lia; reflexivity.
Qed.

Lemma documentRuns_source lines :
  documentSource (map (fun l => Plain (lineRuns l)) lines) = runSource (documentRuns lines).
Proof.
  induction lines as [|l lines IH]; [reflexivity|].
  cbn [map]. rewrite documentSource_cons. cbn [documentRuns lineSource].
  destruct lines as [|l2 lines]; [now rewrite append_nil_r|].
  rewrite runSource_app, runSource_cons. cbn [segmentSource].
  cbn [map] in IH |- *. now rewrite IH.
Qed.

Lemma documentRuns_html lines : runHtml (documentRuns lines) = documentHtml lines.
Proof.
  induction lines as [|l lines IH]; [reflexivity|].
  unfold documentHtml. cbn [map]. rewrite concat_cons. cbn [documentRuns].
  destruct lines as [|l2 lines]; [now rewrite append_nil_r, lineRuns_html|].
  rewrite runHtml_app, runHtml_cons, lineRuns_html. cbn [segmentHtml].
  now rewrite IH.
Qed.

Lemma plain_boldReady s : plainSegment s = true -> boldReady s = true.
Proof.
  destruct s as [p | t]; cbn [plainSegment boldReady]; intros H;
    apply andb_true_iff in H as [H1 H2];
    rewrite (free_weaken _ _ _ markdown_star H1); [reflexivity | exact H2].
Qed.

Lemma lineRuns_boldReady l : wellFormed l = true -> forallb boldReady (lineRuns l) = true.
Proof.
  intros W.
  assert (P : forallb plainSegment (lineRuns l) = true).
  { destruct l as [segments | lv ws segments]; [exact W|].
    pose proof (convertLevel_wellFormed lv _ W) as C. cbn [convertLevel] in C.
    now rewrite Nat.eqb_refl in C. }
  apply forallb_forall. intros s Hs. apply plain_boldReady.
  rewrite forallb_forall in P. now apply P.
Qed.

Lemma documentRuns_boldReady lines :
  forallb wellFormed lines = true -> forallb boldReady (documentRuns lines) = true.
Proof.
  induction lines as [|l lines IH]; [reflexivity|]. cbn [forallb]. intros W.
  apply andb_true_iff in W as [W1 W2]. cbn [documentRuns].
  destruct lines as [|l2 lines]; [now apply lineRuns_boldReady|].
  rewrite forallb_app. cbn [forallb]. rewrite (lineRuns_boldReady l W1), (IH W2).
  reflexivity.
Qed.

Lemma stars_miss {A} st (k : @cont A) :
  headIs (fun c => Ascii.eqb c "*") (rest st) = false ->
  m no_flags (lit "**") st k = None.
Proof.
  intros H. cbn [lit m]. apply m_char_miss.
  destruct (rest st) as [|c s]; [reflexivity|]. cbn [headIs] in *.
  cbn [char_eq no_flags ignoreCase]. now rewrite Ascii.eqb_sym.
Qed.

(** Bold text between its markers is matched whole, and the group is the
    text. *)
Lemma bold_hit t s pc p :
  free (fun c => Ascii.eqb c "*") t = true ->
  free isLineTerminator t = true ->
  exists mt, match_at no_flags re_bold pc p (("**" ++ t ++ "**") ++ s) = Some mt /\
             whole mt = ("**" ++ t ++ "**")%string /\ group 1 mt = t.
Proof.
  intros S L. unfold match_at, re_bold. cbn [cat].
  set (final := fun st' : mstate => Some _).
  assert (K : forall st', final st' <> None) by (intros st'; discriminate).
  rewrite m_seq.
  destruct (lit_forward no_flags "**" ltac:(discriminate)
              {| prevc := pc; pos := p; rest := (("**" ++ t ++ "**") ++ s)%string; caps := [] |}
              (t ++ "**" ++ s)%string
              (fun st' => m no_flags (Seq (Group 1 (Star false Dot)) (lit "**")) st' final))
    as [s1 [R1 [P1 [C1 [_ E1]]]]].
  { cbn [rest append]. now rewrite !append_assoc. }
  rewrite E1, m_seq, m_group, m_star.
  destruct (lazy_forward no_flags Dot (fun c => negb (isLineTerminator c))
              (fun st' => m no_flags (lit "**")
                            (set_cap 1 (substring 0 (pos st' - pos s1) (rest s1)) st') final)
              (fun st0 k' => m_dot no_flags st0 k') eq_refl t (String.length (rest s1)) s1
              ("**" ++ s)%string) as [s2 [R2 [P2 [C2 [_ E2]]]]].
  - clear - L. induction t as [|c t IH]; [reflexivity|]. cbn [free] in *.
    apply andb_true_iff in L as [L1 L2]. now rewrite negb_involutive, L1, IH.
  - exact R1.
  - rewrite R1, length_append. lia.
  - intros w1 w2 st' E N R'. apply stars_miss. cbn [rest set_cap]. rewrite R'.
    destruct w2 as [|c w2]; [congruence|]. cbn [append headIs].
    rewrite E, free_append in S. apply andb_true_iff in S as [_ S]. cbn [free] in S.
    apply andb_true_iff in S as [S _]. now apply negb_true_iff in S.
  - intros st' R'.
    destruct (lit_forward no_flags "**" ltac:(discriminate)
                (set_cap 1 (substring 0 (pos st' - pos s1) (rest s1)) st') s final R')
      as [st'' [_ [_ [_ [_ E'']]]]].
    rewrite E''. apply K.
  - rewrite E2.
    destruct (lit_forward no_flags "**" ltac:(discriminate)
                (set_cap 1 (substring 0 (pos s2 - pos s1) (rest s1)) s2) s final R2)
      as [s3 [R3 [P3 [C3 [_ E3]]]]].
    rewrite E3. eexists. split; [reflexivity|].
    cbn [whole groups pos caps set_cap String.length] in *. split.
    + replace (pos s3 - p) with (String.length ("**" ++ t ++ "**")%string)
        by (rewrite P3, P2, P1; cbn [append String.length]; rewrite length_append;
            cbn [String.length]; lia).
      apply substring_prefix.
    + unfold group. cbn [groups]. rewrite C3. cbn [lookup Nat.eqb].
      rewrite P2, R1. replace (pos s1 + String.length t - pos s1) with (String.length t) by lia.
      apply substring_prefix.
Qed.

(** The pass for bold text over runs of text. *)
Lemma bold_scan segments :
  forallb boldReady segments = true ->
  forall pc p s,
    render (wrap1 "strong") (scan_from no_flags re_bold 0 pc p (runSource segments ++ s))
    = (runHtml segments
       ++ render (wrap1 "strong")
            (scan_from no_flags re_bold 0 (lastc pc (runSource segments))
               (p + String.length (runSource segments)) s))%string.
Proof.
  induction segments as [|x segments IH]; intros W pc p s.
  - cbn [runSource runHtml map String.concat append lastc String.length].
    now rewrite Nat.add_0_r.
  - cbn [forallb] in W. apply andb_true_iff in W as [W1 W2].
    rewrite runSource_cons, runHtml_cons, !append_assoc, lastc_append, length_append.
    destruct x as [q | t]; cbn [boldReady segmentSource segmentHtml] in *.
    + rewrite (scan_free no_flags re_bold (fun c => Ascii.eqb c "*")).
      * rewrite render_app, render_keep, (IH W2). now rewrite Nat.add_assoc.
      * intros pc' p' a. apply bold_match_start.
      * exact W1.
    + apply andb_true_iff in W1 as [S L].
      destruct (bold_hit t (runSource segments ++ s) pc p S L) as [mt [E [Wh G]]].
      rewrite (scan_hit no_flags re_bold pc p ("**" ++ t ++ "**") _ mt);
        [| discriminate | exact E | exact Wh].
      cbn [render]. unfold wrap1 at 1. rewrite G, (IH W2), Nat.add_assoc.
      now rewrite !append_assoc.
Qed.

Lemma bold_pass segments :
  forallb boldReady segments = true ->
  replace_all no_flags re_bold (wrap1 "strong") (runSource segments) = runHtml segments.
Proof.
  intros W. unfold replace_all, scan.
  rewrite <- (append_nil_r (runSource segments)) at 1.
  rewrite (bold_scan segments W), scan_end; [apply append_nil_r|].
  now apply bold_match_start.
Qed.

Lemma free_nowhere q a : free q a = true -> nowhere (headIs q) a = true.
Proof.
  induction a as [|c a IH]; [reflexivity|]. cbn [free nowhere headIs]. intros H.
  apply andb_true_iff in H as [H1 H2]. now rewrite H1, (IH H2).
Qed.

(** No opening parenthesis in a well-formed document. *)
Lemma document_no_paren lines :
  forallb wellFormed lines = true ->
  free (fun c => Ascii.eqb c "(") (documentSource lines) = true.
Proof.
  set (q := fun c => Ascii.eqb c "(").
  assert (Ws : forall a, free (fun c => negb (isWhiteSpace c)) a = true -> free q a = true).
  { intros a. apply free_weaken. intros c H. apply negb_false_iff in H.
    apply space_no_markdown in H. now apply markdown_paren. }
  induction lines as [|l lines IH]; [reflexivity|]. cbn [forallb]. intros W.
  apply andb_true_iff in W as [W1 W2]. rewrite documentSource_cons, free_append.
  assert (L : free q (lineSource l) = true).
  { destruct l as [segments | lv ws segments]; cbn [wellFormed lineSource] in *.
    - apply runs_free; [exact markdown_paren | reflexivity | exact W1].
    - repeat (apply andb_true_iff in W1 as [W1 ?]).
      rewrite !free_append, hashes_free by reflexivity.
      rewrite Ws by assumption.
      rewrite runs_free; [reflexivity | exact markdown_paren | reflexivity | assumption]. }
  rewrite L. destruct lines as [|l2 lines]; [reflexivity|].
  change (nl ++ documentSource (l2 :: lines))%string
    with (String newline (documentSource (l2 :: lines))).
  cbn [free]. now rewrite (IH W2).
Qed.

(** On a document of plain lines and header lines of level 2 to 4, with
    bold text in them and none of the other marks the corrector looks for,
    the corrector gives the HTML of the document, trimmed: each header
    line becomes the header element of its level around its text, bold
    text becomes a [strong] element, everything else stays. *)
Theorem forceHtmlStructure_markdown (lines : list line) :
  forallb wellFormed lines = true ->
  hasLooseBullets (documentHtml lines) = false ->
  forceHtmlStructure (documentSource lines) = trim (documentHtml lines).
Proof.
  intros W B. unfold forceHtmlStructure. cbv zeta.
  rewrite (replace_all_no_match flag_i re_wordcount).
  2:{ eapply test_nowhere; [|exact (free_nowhere _ _ (document_no_paren lines W))].
      intros; now apply wordcount_match_start. }
  assert (W2 : forallb wellFormed (map (convertLevel 2) lines) = true).
  { rewrite forallb_forall in *. intros l Hl. apply in_map_iff in Hl as [l0 [<- Hl]].
    apply convertLevel_wellFormed. now apply W. }
  assert (W3 : forallb wellFormed (map (convertLevel 3) (map (convertLevel 2) lines)) = true).
  { rewrite forallb_forall in *. intros l Hl. apply in_map_iff in Hl as [l0 [<- Hl]].
    apply convertLevel_wellFormed. now apply W2. }
  pose proof (header_pass 2 lines ltac:(lia) W) as P2.
  pose proof (header_pass 3 _ ltac:(lia) W2) as P3.
  pose proof (header_pass 4 _ ltac:(lia) W3) as P4.
  cbn [hashes tagOf] in P2, P3, P4. rewrite P2, P3, P4.
  rewrite !map_map.
  rewrite (map_ext_in _ (fun l => Plain (lineRuns l))).
  2:{ intros l Hl. apply convertLevel_all. rewrite forallb_forall in W. now apply W. }
  rewrite documentRuns_source, (bold_pass _ (documentRuns_boldReady lines W)).
  rewrite documentRuns_html. unfold convertLists. now rewrite B.
Qed.

Lemma forceHtmlStructure_markdown_witness :
  forceHtmlStructure ("## Title" ++ nl ++ "Some **bold** text.")
  = ("<h2>Title</h2>" ++ nl ++ "Some <strong>bold</strong> text.")%string.
Proof.
  apply (forceHtmlStructure_markdown sample_document); reflexivity.
Defined.

End CorrectorFacts.

(** ** The keyword extraction *)

Module KeywordsFacts.
Import Keywords RegexFacts JsSetFacts WorkerFacts WorkerMore.

(** *** The two sorts *)

Lemma insertByCount_perm e l : Permutation (insertByCount e l) (e :: l).
Proof.
  induction l as [|x l IH]; simpl; [reflexivity|].
  destruct (countOf e <? countOf x); [|reflexivity].
  rewrite IH. apply perm_swap.
Qed.

Lemma sortByCount_perm l : Permutation (sortByCount l) l.
Proof.
  induction l as [|x l IH]; simpl; [reflexivity|].
  rewrite insertByCount_perm. now constructor.
Qed.

Lemma insertByCount_falling e l : falling l -> falling (insertByCount e l).
Proof.
  unfold falling. induction l as [|x l IH]; simpl; intros H.
  - repeat constructor.
  - inversion H as [|? ? Hl Hx]; subst.
    destruct (countOf e <? countOf x) eqn:E.
    + apply Nat.ltb_lt in E. constructor; [now apply IH|].
      apply Forall_forall. intros y Hy.
      apply (Permutation_in _ (insertByCount_perm e l)) in Hy as [<- | Hy]; [lia|].
      rewrite Forall_forall in Hx. now apply Hx.
    + apply Nat.ltb_ge in E. constructor; [exact H|].
      constructor; [exact E|].
      rewrite Forall_forall in *. intros y Hy. specialize (Hx y Hy). lia.
Qed.

Lemma sortByCount_falling l : falling (sortByCount l).
Proof.
  induction l as [|x l IH]; simpl; [constructor | now apply insertByCount_falling].
Qed.

(** The sort is stable: entries of the same count keep their order. *)
Lemma insertByCount_stable n e l :
  filter (fun x => countOf x =? n) (insertByCount e l)
  = filter (fun x => countOf x =? n) (e :: l).
Proof.
  induction l as [|x l IH]; [reflexivity|].
  cbn [insertByCount]. destruct (countOf e <? countOf x) eqn:E; [|reflexivity].
  apply Nat.ltb_lt in E. cbn [filter] in *.
  destruct (countOf x =? n) eqn:X; destruct (countOf e =? n) eqn:Y;
    rewrite IH; try reflexivity.
  apply Nat.eqb_eq in X, Y. lia.
Qed.

Lemma sortByCount_stable n l :
  filter (fun x => countOf x =? n) (sortByCount l) = filter (fun x => countOf x =? n) l.
Proof.
  induction l as [|x l IH]; [reflexivity|].
  cbn [sortByCount fold_right]. rewrite insertByCount_stable.
  cbn [filter]. fold (sortByCount l). now rewrite IH.
Qed.

Lemma insertIndex_perm e l : Permutation (insertIndex e l) (e :: l).
Proof.
  induction l as [|x l IH]; simpl; [reflexivity|].
  destruct (indexKey e <? indexKey x)%N; [reflexivity|].
  rewrite IH. apply perm_swap.
Qed.

Lemma filter_partition_perm {A} (f : A -> bool) l :
  Permutation (filter f l ++ filter (fun x => negb (f x)) l) l.
Proof.
  induction l as [|x l IH]; simpl; [reflexivity|].
  destruct (f x); simpl; [now constructor|].
  rewrite <- Permutation_middle. now constructor.
Qed.

Lemma entries_perm freq : Permutation (entries freq) freq.
Proof.
  unfold entries. rewrite <- (filter_partition_perm isIndexKey freq) at 3.
  apply Permutation_app_tail.
  induction (filter isIndexKey freq) as [|x l IH]; simpl; [reflexivity|].
  rewrite insertIndex_perm. now constructor.
Qed.


(** *** The tally *)

Lemma own_keys freq w : own freq w = None <-> ~ In w (map fst freq).
Proof.
  induction freq as [|[k v] freq IH]; simpl; [tauto|].
  destruct (String.eqb w k) eqn:E.
  - apply String.eqb_eq in E. subst. split; [discriminate | tauto].
  - apply String.eqb_neq in E. rewrite IH. intuition congruence.
Qed.

Lemma own_In freq w v : own freq w = Some v -> In (w, v) freq.
Proof.
  induction freq as [|[k x] freq IH]; simpl; [discriminate|].
  destruct (String.eqb w k) eqn:E.
  - apply String.eqb_eq in E. subst. intros H. injection H as ->. now left.
  - intros H. right. now apply IH.
Qed.

Lemma In_own freq w v : NoDup (map fst freq) -> In (w, v) freq -> own freq w = Some v.
Proof.
  induction freq as [|[k x] freq IH]; simpl; [tauto|].
  intros N [H | H]; inversion N as [|? ? Hk Hn]; subst.
  - injection H as -> ->. now rewrite String.eqb_refl.
  - destruct (String.eqb w k) eqn:E; [|now apply IH].
    apply String.eqb_eq in E. subst. exfalso. apply Hk.
    apply in_map_iff. now exists (k, v).
Qed.

Lemma keys_update freq x v : map fst (update freq x v) = map fst freq.
Proof.
  induction freq as [|[k u] freq IH]; simpl; [reflexivity|].
  destruct (String.eqb x k); simpl; [reflexivity | now rewrite IH].
Qed.

Lemma own_update freq x v w :
  own freq x <> None ->
  own (update freq x v) w = if String.eqb w x then Some v else own freq w.
Proof.
  induction freq as [|[k u] freq IH]; simpl; [congruence|].
  destruct (String.eqb x k) eqn:X; simpl.
  - apply String.eqb_eq in X. subst k. intros _.
    destruct (String.eqb w x); reflexivity.
  - intros H. destruct (String.eqb w k) eqn:W.
    + apply String.eqb_eq in W. subst k.
      rewrite String.eqb_sym in X. now rewrite X.
    + now apply IH.
Qed.

Lemma own_app freq x v w :
  own (freq ++ [(x, v)]) w =
  match own freq w with
  | Some u => Some u
  | None => if String.eqb w x then Some v else None
  end.
Proof.
  induction freq as [|[k u] freq IH]; simpl; [reflexivity|].
  destruct (String.eqb w k); [reflexivity | exact IH].
Qed.

Lemma occurrences_app pre x w :
  occurrences (pre ++ [x]) w = occurrences pre w + (if String.eqb w x then 1 else 0).
Proof.
  unfold occurrences. rewrite count_occ_app. simpl.
  destruct (string_dec x w) as [-> | N].
  - now rewrite String.eqb_refl.
  - destruct (String.eqb w x) eqn:E; [|reflexivity].
    apply String.eqb_eq in E. congruence.
Qed.

Lemma expected_other pre x w :
  String.eqb w x = false -> expected (pre ++ [x]) w = expected pre w.
Proof.
  intros E. unfold expected. rewrite occurrences_app, E, Nat.add_0_r. reflexivity.
Qed.

(** One turn of the [forEach] keeps the tally right. *)
Lemma tally_step pre freq x :
  tallied pre freq ->
  tallied (pre ++ [x]) (if counted x then assign freq x (bumped freq x) else freq).
Proof.
  intros [N H]. destruct (counted x) eqn:C.
  2:{ split; [exact N|]. intros w. rewrite H.
      destruct (String.eqb w x) eqn:E; [|now rewrite expected_other].
      apply String.eqb_eq in E. subst w. unfold expected. now rewrite C. }
  unfold assign. destruct (String.eqb x "__proto__") eqn:P.
  { split; [exact N|]. intros w. rewrite H.
    destruct (String.eqb w x) eqn:E; [|now rewrite expected_other].
    apply String.eqb_eq in E. subst w. unfold expected. rewrite P.
    now rewrite !andb_false_r. }
  assert (B : bumped freq x = if String.eqb x "constructor" then Junk
                              else Count (occurrences pre x + 1)).
  { unfold bumped. rewrite (H x). unfold expected. rewrite C, P. cbn [negb andb].
    destruct (0 <? occurrences pre x) eqn:O.
    - destruct (String.eqb x "constructor"); [reflexivity|]. f_equal. lia.
    - apply Nat.ltb_ge in O. unfold inherited. rewrite P, orb_false_r.
      destruct (String.eqb x "constructor"); [reflexivity|]. f_equal. lia. }
  assert (X : expected (pre ++ [x]) x = Some (bumped freq x)).
  { unfold expected. rewrite C, P, occurrences_app, String.eqb_refl. cbn [negb andb].
    replace (0 <? occurrences pre x + 1) with true by (symmetry; apply Nat.ltb_lt; lia).
    now rewrite B. }
  destruct (own freq x) as [v|] eqn:O.
  - split; [now rewrite keys_update|]. intros w.
    rewrite own_update by congruence.
    destruct (String.eqb w x) eqn:E.
    + apply String.eqb_eq in E. subst w. now rewrite X.
    + now rewrite expected_other, H.
  - split.
    + rewrite map_app. simpl. apply NoDup_app; [exact N | repeat constructor; simpl; tauto|].
      intros a Ha [<- | []]. now apply own_keys in O.
    + intros w. rewrite own_app.
      destruct (String.eqb w x) eqn:E.
      * apply String.eqb_eq in E. subst w. now rewrite O, X.
      * rewrite expected_other by exact E. rewrite <- H. now destruct (own freq w).
Qed.

Lemma tally_from words : forall pre freq,
  tallied pre freq ->
  tallied (pre ++ words)
    (fold_left (fun freq w => if counted w then assign freq w (bumped freq w) else freq)
       words freq).
Proof.
  induction words as [|x words IH]; intros pre freq T; simpl.
  - now rewrite app_nil_r.
  - replace (pre ++ x :: words) with ((pre ++ [x]) ++ words)
      by (now rewrite <- app_assoc).
    apply IH. now apply tally_step.
Qed.

(** After the loop, [freq] has one property for each counted word but
    [__proto__], with the number of its occurrences, but no number for
    [constructor]. *)
Lemma tally_tallied words : tallied words (tally words).
Proof.
  apply (tally_from words [] []). split; [constructor|]. intros w.
  unfold expected, occurrences. simpl. now rewrite andb_false_r.
Qed.


(** *** The keywords *)

Lemma entry_spec words w v :
  In (w, v) (entries (tally words)) ->
  counted w = true /\ w <> "__proto__" /\ In w words /\
  v = (if String.eqb w "constructor" then Junk else Count (occurrences words w)).
Proof.
  intros H. apply (Permutation_in _ (entries_perm _)) in H.
  destruct (tally_tallied words) as [N T].
  apply (In_own _ _ _ N) in H. rewrite T in H. unfold expected in H.
  destruct (counted w); [|discriminate]. cbn [andb] in H.
  destruct (String.eqb w "__proto__") eqn:P; [discriminate|]. cbn [negb andb] in H.
  destruct (0 <? occurrences words w) eqn:O; [|discriminate].
  apply Nat.ltb_lt in O. injection H as <-.
  repeat split.
  - now apply String.eqb_neq.
  - apply (count_occ_In string_dec). exact O.
Qed.

Lemma entry_complete words w :
  In w words -> counted w = true -> w <> "__proto__" ->
  exists v, In (w, v) (entries (tally words)).
Proof.
  intros Hw C P. destruct (tally_tallied words) as [N T].
  destruct (own (tally words) w) as [v|] eqn:O.
  - exists v. apply (Permutation_in _ (Permutation_sym (entries_perm _))).
    now apply own_In.
  - exfalso. rewrite T in O. unfold expected in O. rewrite C in O.
    apply String.eqb_neq in P. rewrite P in O. cbn [negb andb] in O.
    apply (count_occ_In string_dec) in Hw. 
    replace (0 <? occurrences words w) with true in O; [discriminate|].
    symmetry. apply Nat.ltb_lt. exact Hw.
Qed.

Lemma sortEntries_perm l sorted : sortEntries l = Some sorted -> Permutation sorted l.
Proof.
  unfold sortEntries. destruct (forallb isCount l).
  - intros H. injection H as <-. apply sortByCount_perm.
  - destruct (sameCounts l); [|discriminate]. intros H. now injection H as <-.
Qed.

Lemma entries_keys_NoDup words : NoDup (map fst (entries (tally words))).
Proof.
  apply (Permutation_NoDup (l := map fst (tally words))).
  - apply Permutation_map, Permutation_sym, entries_perm.
  - apply (tally_tallied words).
Qed.

Lemma NoDup_firstn {A} n (l : list A) : NoDup l -> NoDup (firstn n l).
Proof.
  intros H. rewrite <- (firstn_skipn n l) in H. now apply NoDup_app_remove_r in H.
Qed.

Lemma In_firstn {A} n (l : list A) x : In x (firstn n l) -> In x l.
Proof.
  intros H. rewrite <- (firstn_skipn n l). apply in_or_app. now left.
Qed.

Lemma extractTopKeywords_inv refs kws :
  extractTopKeywords refs = Some kws ->
  exists sorted,
    sortEntries (entries (tally (wordsOf (textOf refs)))) = Some sorted /\
    kws = map fst (firstn 40 sorted).
Proof.
  unfold extractTopKeywords.
  destruct (sortEntries _) as [sorted|]; [|discriminate].
  intros H. exists sorted. split; [reflexivity | congruence].
Qed.

(** The keywords, when the order is defined: at most 40, pairwise
    distinct, each longer than 3 code units, no stop word, never
    [__proto__], a word of the lower-cased reference text, made of
    lower-case letters, digits and underscores. *)
Theorem extractTopKeywords_shape (refs : list ReferenceData) (kws : list string) :
  extractTopKeywords refs = Some kws ->
  List.length kws <= 40 /\
  NoDup kws /\
  Forall (fun w => 3 < String.length w /\ ~ In w stopWords /\ w <> "__proto__" /\
                   In w (wordsOf (textOf refs)) /\
                   Forall (fun c => isTokenChar c = true) (chars w)) kws.
Proof.
  intros H. apply extractTopKeywords_inv in H as [sorted [S ->]].
  pose proof (sortEntries_perm _ _ S) as P.
  split; [rewrite length_map; apply firstn_le_length|]. split.
  - rewrite <- firstn_map. apply NoDup_firstn.
    apply (Permutation_NoDup (l := map fst (entries (tally (wordsOf (textOf refs)))))).
    + apply Permutation_map, Permutation_sym, P.
    + apply entries_keys_NoDup.
  - apply Forall_forall. intros w Hw.
    apply in_map_iff in Hw as [[w' v] [E Hw]]. simpl in E. subst w'.
    apply In_firstn in Hw. apply (Permutation_in _ P) in Hw.
    apply entry_spec in Hw as [C [Np [Hin _]]].
    unfold counted in C. apply andb_true_iff in C as [L S'].
    apply Nat.ltb_lt in L. apply negb_true_iff in S'. apply has_false in S'.
    repeat split; auto.
    unfold wordsOf, textOf in Hin. now apply piece_token_chars in Hin.
Qed.

Lemma StronglySorted_total {A} (R : A -> A -> Prop) l :
  (forall a b, In a l -> In b l -> R a b) -> StronglySorted R l.
Proof.
  induction l as [|x l IH]; intros H; constructor.
  - apply IH. intros a b Ha Hb. apply H; now right.
  - apply Forall_forall. intros b Hb. apply H; [now left | now right].
Qed.

Lemma StronglySorted_firstn {A} (R : A -> A -> Prop) n l :
  StronglySorted R l -> StronglySorted R (firstn n l).
Proof.
  revert l. induction n as [|n IH]; intros l H; [constructor|].
  destruct l as [|x l]; [constructor|]. simpl. inversion H; subst.
  constructor; [now apply IH|].
  apply Forall_forall. intros y Hy. apply In_firstn in Hy.
  rewrite Forall_forall in H3. now apply H3.
Qed.

Lemma StronglySorted_map_in {A B} (f : A -> B) (R : A -> A -> Prop) (R' : B -> B -> Prop) l :
  (forall a b, In a l -> In b l -> R a b -> R' (f a) (f b)) ->
  StronglySorted R l -> StronglySorted R' (map f l).
Proof.
  induction l as [|x l IH]; intros H S; [constructor|].
  inversion S; subst. simpl. constructor.
  - apply IH; [|assumption]. intros a b Ha Hb. apply H; now right.
  - apply Forall_forall. intros y Hy. apply in_map_iff in Hy as [b [<- Hb]].
    rewrite Forall_forall in H3. apply H; [now left | now right | now apply H3].
Qed.

Lemma StronglySorted_weaken {A} (R R' : A -> A -> Prop) l :
  (forall a b, R a b -> R' a b) -> StronglySorted R l -> StronglySorted R' l.
Proof.
  intros H S. induction S; constructor; [assumption|].
  eapply Forall_impl; [|eassumption]. intros b. apply H.
Qed.

Lemma sameCounts_spec l a b :
  sameCounts l = true -> In a l -> In b l -> isCount a = true -> isCount b = true ->
  countOf a = countOf b.
Proof.
  unfold sameCounts. intros H Ha Hb Ca Cb.
  assert (Fa : In a (filter isCount l)) by (apply filter_In; now split).
  assert (Fb : In b (filter isCount l)) by (apply filter_In; now split).
  destruct (filter isCount l) as [|x l']; [destruct Fa|].
  rewrite forallb_forall in H.
  assert (G : forall y, In y (x :: l') -> countOf y = countOf x).
  { intros y [<- | Hy]; [reflexivity|]. now apply Nat.eqb_eq, H. }
  now rewrite (G a Fa), (G b Fb).
Qed.

(** Where the language fixes the order: falling number of occurrences,
    the word "constructor" aside, and nothing cut from fewer than 40. *)
Lemma order_when_defined (refs : list ReferenceData) (kws : list string) :
  extractTopKeywords refs = Some kws ->
  StronglySorted (byOccurrences (wordsOf (textOf refs))) kws /\
  (List.length kws < 40 ->
   forall w, In w (wordsOf (textOf refs)) -> counted w = true -> w <> "__proto__" ->
             In w kws).
Proof.
  intros H. apply extractTopKeywords_inv in H as [sorted [S ->]].
  set (words := wordsOf (textOf refs)) in *.
  pose proof (sortEntries_perm _ _ S) as P.
  assert (K : forall e, In e sorted ->
                snd e = if String.eqb (fst e) "constructor" then Junk
                        else Count (occurrences words (fst e))).
  { intros [w v] He. apply (Permutation_in _ P) in He.
    now apply entry_spec in He as [_ [_ [_ ->]]]. }
  split.
  - apply StronglySorted_map_in
      with (R := fun a b => isCount a = false \/ isCount b = false
                            \/ countOf b <= countOf a).
    + intros a b Ha Hb. apply In_firstn in Ha, Hb.
      unfold byOccurrences, isCount, countOf. rewrite (K a Ha), (K b Hb).
      destruct (String.eqb (fst a) "constructor") eqn:Ea;
        [apply String.eqb_eq in Ea; auto|].
      destruct (String.eqb (fst b) "constructor") eqn:Eb;
        [apply String.eqb_eq in Eb; auto|].
      intros [D | [D | D]]; try discriminate. auto.
    + apply StronglySorted_firstn. unfold sortEntries in S.
      destruct (forallb isCount _) eqn:F.
      * injection S as <-.
        apply (StronglySorted_weaken (fun a b => countOf b <= countOf a));
          [auto | apply sortByCount_falling].
      * destruct (sameCounts _) eqn:C; [|discriminate]. injection S as <-.
        apply StronglySorted_total. intros a b Ha Hb.
        destruct (isCount a) eqn:Ca; [|now left].
        destruct (isCount b) eqn:Cb; [|now right; left].
        right; right. rewrite (sameCounts_spec _ a b C Ha Hb Ca Cb). lia.
  - intros L w Hw C Np.
    destruct (entry_complete words w Hw C Np) as [v Hv].
    apply (Permutation_in _ (Permutation_sym P)) in Hv.
    rewrite length_map in L.
    assert (E : firstn 40 sorted = sorted).
    { apply firstn_all2. destruct (Nat.le_gt_cases (List.length sorted) 40) as [G | G];
        [exact G|]. rewrite firstn_length_le in L by lia. lia. }
    rewrite E. apply in_map_iff. now exists (w, v).
Qed.

Lemma StronglySorted_in_weaken {A} (R R' : A -> A -> Prop) l :
  (forall a b, In a l -> In b l -> R a b -> R' a b) ->
  StronglySorted R l -> StronglySorted R' l.
Proof.
  intros H S. rewrite <- (map_id l). now apply (StronglySorted_map_in (fun x => x) R R').
Qed.

Lemma existsb_eqb_false w l : existsb (String.eqb w) l = false -> ~ In w l.
Proof.
  intros E H. assert (X : existsb (String.eqb w) l = true)
    by (apply existsb_exists; exists w; split; [exact H | apply String.eqb_refl]).
  congruence.
Qed.

Lemma keywords_in_words refs kws w :
  extractTopKeywords refs = Some kws -> In w kws -> In w (wordsOf (textOf refs)).
Proof.
  intros H Hw. apply extractTopKeywords_inv in H as [sorted [S ->]].
  pose proof (sortEntries_perm _ _ S) as P.
  apply in_map_iff in Hw as [[w' v] [E Hw]]. simpl in E. subst w'.
  apply In_firstn in Hw. apply (Permutation_in _ P) in Hw.
  now apply entry_spec in Hw as [_ [_ [Hin _]]].
Qed.

(** With the word "constructor" nowhere in the reference text every value
    of [freq] is a count, so the language fixes the order. *)
Lemma counts_only (words : list string) :
  existsb (String.eqb "constructor") words = false ->
  forallb isCount (entries (tally words)) = true.
Proof.
  intros H. apply forallb_forall. intros [w v] He.
  apply entry_spec in He as [_ [_ [Hin ->]]]. unfold isCount. cbn [snd].
  destruct (String.eqb w "constructor") eqn:E; [|reflexivity].
  apply String.eqb_eq in E. subst w. now apply existsb_eqb_false in H.
Qed.

(** When the word "constructor" does not stand in the reference text, the
    keywords are the same on every engine, they come in the order of
    falling number of occurrences in the text, and when fewer than 40 come
    back none was cut: every word of the text that is longer than 3 code
    units, no stop word and not [__proto__] is among them. *)
Theorem extractTopKeywords_order
    (engineSort : list (string * fval) -> list (string * fval))
    (refs : list ReferenceData) :
  existsb (String.eqb "constructor") (wordsOf (textOf refs)) = false ->
  let words := wordsOf (textOf refs) in
  let kws := extractTopKeywordsWith engineSort refs in
  extractTopKeywords refs = Some kws /\
  StronglySorted (fun a b => occurrences words b <= occurrences words a) kws /\
  (List.length kws < 40 ->
   forall w, In w words -> counted w = true -> w <> "__proto__" -> In w kws).
Proof.
  intros H words kws.
  pose proof (counts_only words H) as C.
  assert (E : extractTopKeywords refs = Some kws).
  { unfold kws, extractTopKeywords, extractTopKeywordsWith, sortEntriesWith, sortEntries.
    fold words. now rewrite C. }
  split; [exact E|].
  destruct (order_when_defined refs kws E) as [S F]. fold words in S, F.
  split; [|exact F].
  apply (StronglySorted_in_weaken (byOccurrences words)); [|exact S].
  intros a b Ha Hb [X | [X | X]]; [| |exact X]; exfalso; subst.
  - apply (existsb_eqb_false _ _ H). exact (keywords_in_words refs kws _ E Ha).
  - apply (existsb_eqb_false _ _ H). exact (keywords_in_words refs kws _ E Hb).
Qed.

(** The order is defined, and keywords come back, unless the word
    "constructor" stands in the reference text; without references there
    are no keywords. *)
Theorem extractTopKeywords_defined (refs : list ReferenceData) :
  (extractTopKeywords refs = None -> In "constructor" (wordsOf (textOf refs))) /\
  extractTopKeywords [] = Some [].
Proof.
  split; [|reflexivity].
  unfold extractTopKeywords, sortEntries.
  destruct (forallb isCount _) eqn:F; [discriminate|]. intros _.
  assert (X : exists e, In e (entries (tally (wordsOf (textOf refs))))
                        /\ isCount e = false).
  { clear -F. induction (entries _) as [|x l IH]; [discriminate|].
    simpl in F. destruct (isCount x) eqn:C.
    - destruct (IH F) as [e [He Ce]]. exists e. split; [now right | exact Ce].
    - exists x. split; [now left | exact C]. }
  destruct X as [[w v] [He Ce]]. apply entry_spec in He as [_ [_ [Hin Hv]]].
  unfold isCount in Ce. simpl in Ce. subst v.
  destruct (String.eqb w "constructor") eqn:E; [|discriminate].
  apply String.eqb_eq in E. now subst w.
Qed.

Lemma extractTopKeywords_shape_witness :
  extractTopKeywords laptop_refs = Some laptop_keywords /\
  List.length laptop_keywords <= 40 /\ NoDup laptop_keywords.
Proof.
  assert (H : extractTopKeywords laptop_refs = Some laptop_keywords)
    by (vm_compute; reflexivity).
  split; [exact H|].
  destruct (extractTopKeywords_shape laptop_refs laptop_keywords H) as [L [N _]].
  split; [exact L | exact N].
Defined.


Lemma extractTopKeywords_order_witness :
  extractTopKeywordsWith idleSort laptop_refs = laptop_keywords /\
  extractTopKeywords laptop_refs = Some laptop_keywords /\
  StronglySorted
    (fun a b => occurrences (wordsOf (textOf laptop_refs)) b
                <= occurrences (wordsOf (textOf laptop_refs)) a)
    laptop_keywords.
Proof.
  assert (K : extractTopKeywordsWith idleSort laptop_refs = laptop_keywords)
    by (vm_compute; reflexivity).
  split; [exact K|].
  destruct (extractTopKeywords_order idleSort laptop_refs eq_refl) as [E [S _]].
  rewrite K in E, S. split; [exact E | exact S].
Defined.

End KeywordsFacts.

(** ** The response parser *)

Module ParseFacts.
Import Keywords Parse AiService StringFacts RegexFacts MatcherMore AiServiceMore.

Lemma space_class c : xorb false (class_mem flag_i [CsSpace] c) = isWhiteSpace c.
Proof. destruct c as [[] [] [] [] [] [] [] []]; reflexivity. Qed.

Lemma solid_class c :
  isWhiteSpace c = false -> xorb true (class_mem flag_i [CsSpace] c) = true.
Proof. destruct c as [[] [] [] [] [] [] [] []]; vm_compute; congruence. Qed.

Lemma backtick_eq c : char_eq flag_i "`" c = isBacktick c.
Proof. destruct c as [[] [] [] [] [] [] [] []]; reflexivity. Qed.

Lemma space_no_backtick c : isWhiteSpace c = true -> isBacktick c = false.
Proof. destruct c as [[] [] [] [] [] [] [] []]; vm_compute; congruence. Qed.

(** The greedy run of white space takes all the white space there is,
    when what follows it succeeds there. *)
Lemma spaces_forward {A} (k : @cont A) ws : forall fuel st s,
  free (fun c => negb (isWhiteSpace c)) ws = true ->
  headIs isWhiteSpace s = false ->
  rest st = (ws ++ s)%string ->
  String.length ws <= fuel ->
  (forall st', rest st' = s -> k st' <> None) ->
  exists st', rest st' = s /\ pos st' = pos st + String.length ws /\
              caps st' = caps st /\
              repeat_loop (fun x c => m flag_i re_s (clear_caps (groups_of re_s) x) c)
                true fuel st k = k st'.
Proof.
  set (body := fun x c => m flag_i re_s (clear_caps (groups_of re_s) x) c).
  induction ws as [|c ws IH]; intros fuel st s W H R F K.
  - exists st. repeat split; [exact R | simpl; lia |].
    destruct fuel as [|f]; cbn [repeat_loop]; [reflexivity|].
    unfold body at 1. cbn [m re_s groups_of]. rewrite clear_caps_none, m_char_miss; [reflexivity|].
    simpl in R. rewrite R. destruct s as [|x s]; [reflexivity|].
    cbn [headIs] in *. now rewrite space_class.
  - destruct fuel as [|f]; [simpl in F; lia|].
    cbn [free] in W. apply andb_true_iff in W as [W1 W2].
    apply negb_true_iff, negb_false_iff in W1.
    cbn [repeat_loop]. unfold body at 1. cbn [m re_s groups_of]. rewrite clear_caps_none.
    rewrite (m_char_hit _ st _ c (ws ++ s)%string); [| exact R | now rewrite space_class].
    cbn [pos advance]. replace (pos st <? S (pos st)) with true
      by (symmetry; apply Nat.ltb_lt; lia).
    destruct (IH f (advance c (ws ++ s)%string st) s W2 H eq_refl) as [st' [R' [P' [C' E]]]];
      [simpl in F; lia | exact K |].
    exists st'. cbn [pos advance caps] in *. repeat split; [exact R' | simpl; lia | exact C' |].
    rewrite E. apply orelse_hit. now apply K.
Qed.

(** The closing fence, read forward. *)
Lemma fence_forward {A} (k : @cont A) st s :
  rest st = ("```" ++ s)%string ->
  exists st', rest st' = s /\ pos st' = pos st + 3 /\ caps st' = caps st /\
              m flag_i (lit "```") st k = k st'.
Proof.
  intros R. destruct st as [pc p r cs]. cbn [rest] in R. subst r.
  cbn [lit m]. unfold m_char. cbn [rest advance append pos caps].
  change (char_eq flag_i "`" "`") with true. cbv iota.
  eexists. split; [|split; [|split; [|reflexivity]]]; cbn [rest pos caps advance];
    [reflexivity | lia | reflexivity].
Qed.

Lemma fence_miss {A} (k : @cont A) st :
  headIs isBacktick (rest st) = false -> m flag_i (lit "```") st k = None.
Proof.
  intros H. cbn [lit m]. apply m_char_miss.
  destruct (rest st) as [|c s]; [reflexivity|]. cbn [headIs] in *. now rewrite backtick_eq.
Qed.

(** White space and then the closing fence: there is no way through when
    the first code unit after the white space is no backtick. *)
Lemma spaces_fence_none {A} (k : @cont A) x : forall fuel st,
  rest st = x ->
  headIs (fun c => negb (isBacktick c)) (trimStart x) = true ->
  repeat_loop (fun x c => m flag_i re_s (clear_caps (groups_of re_s) x) c) true fuel st
    (fun st4 => m flag_i (lit "```") st4 k) = None.
Proof.
  set (body := fun x c => m flag_i re_s (clear_caps (groups_of re_s) x) c).
  induction x as [|c x IH]; intros fuel st R H; [discriminate|].
  cbn [trimStart] in H.
  assert (K : m flag_i (lit "```") st k = None).
  { apply fence_miss. rewrite R. cbn [headIs].
    destruct (isWhiteSpace c) eqn:W; [now apply space_no_backtick|].
    cbn [headIs] in H. now apply negb_true_iff in H. }
  destruct fuel as [|f]; cbn [repeat_loop]; [exact K|].
  rewrite K. unfold body at 1. cbn [m re_s groups_of]. rewrite clear_caps_none.
  destruct (isWhiteSpace c) eqn:W.
  - rewrite (m_char_hit _ st _ c x R); [|now rewrite space_class].
    cbn [pos advance]. replace (pos st <? S (pos st)) with true
      by (symmetry; apply Nat.ltb_lt; lia).
    rewrite IH; [reflexivity | reflexivity | exact H].
  - rewrite m_char_miss; [reflexivity|]. rewrite R. cbn [headIs]. now rewrite space_class.
Qed.

(** The lazy run of any code units stops at the first place where what
    follows succeeds. *)
Lemma lazy_any_forward {A} (k : @cont A) w : forall fuel st s,
  rest st = (w ++ s)%string ->
  String.length w <= fuel ->
  (forall w1 w2 st', w = (w1 ++ w2)%string -> w2 <> EmptyString ->
     rest st' = (w2 ++ s)%string -> k st' = None) ->
  (forall st', rest st' = s -> k st' <> None) ->
  exists st', rest st' = s /\ pos st' = pos st + String.length w /\
              caps st' = caps st /\
              repeat_loop (fun x c => m flag_i re_any (clear_caps (groups_of re_any) x) c)
                false fuel st k = k st'.
Proof.
  set (body := fun x c => m flag_i re_any (clear_caps (groups_of re_any) x) c).
  induction w as [|c w IH]; intros fuel st s R F N K.
  - exists st. repeat split; [exact R | simpl; lia |].
    destruct fuel as [|f]; cbn [repeat_loop]; [reflexivity|].
    apply orelse_hit. apply K. exact R.
  - destruct fuel as [|f]; [simpl in F; lia|].
    destruct (IH f (advance c (w ++ s)%string st) s eq_refl) as [st' [R' [P' [C' E]]]].
    + simpl in F. lia.
    + intros w1 w2 st' E1 E2 E3. apply (N (String c w1) w2 st'); [|exact E2|exact E3].
      simpl. now rewrite E1.
    + exact K.
    + exists st'. cbn [pos advance caps] in *. repeat split; [exact R' | simpl; lia | exact C' |].
      cbn [repeat_loop]. rewrite (N EmptyString (String c w) st eq_refl); [|discriminate|exact R].
      cbn [orelse]. unfold body at 1. cbn [re_any groups_of app]. rewrite clear_caps_none.
      unfold re_any at 1. cbn [m re_s].
      assert (T : (pos st <? S (pos st)) = true) by (apply Nat.ltb_lt; lia).
      destruct (isWhiteSpace c) eqn:W.
      * rewrite (m_char_hit _ st _ c (w ++ s)%string R); [|now rewrite space_class].
        cbn [pos advance]. rewrite T. fold body. rewrite E.
        apply orelse_hit. now apply K.
      * rewrite (m_char_miss _ st); [|rewrite R; cbn [headIs append]; now rewrite space_class].
        cbn [orelse].
        rewrite (m_char_hit _ st _ c (w ++ s)%string R); [|now apply solid_class].
        cbn [pos advance]. rewrite T. exact E.
Qed.

(** After white space, a text that holds no backtick and does not end in
    white space shows a code unit that is no backtick. *)
Lemma solid_head w s :
  w <> EmptyString -> free isBacktick w = true -> lastIs isWhiteSpace w = false ->
  headIs (fun c => negb (isBacktick c)) (trimStart (w ++ s)) = true.
Proof.
  induction w as [|c w IH]; intros N B L; [congruence|].
  cbn [free] in B. apply andb_true_iff in B as [B1 B2].
  cbn [append trimStart]. destruct (isWhiteSpace c) eqn:W; [|exact B1].
  destruct w as [|x w]; [cbn [lastIs] in L; congruence|].
  apply IH; [discriminate | exact B2 | exact L].
Qed.

(** The captured group and what follows it: the group takes the text up to
    the white space in front of the closing fence. *)
Lemma fence_body {A} (k : @cont A) w ws post st :
  rest st = (w ++ ws ++ "```" ++ post)%string ->
  free isBacktick w = true ->
  lastIs isWhiteSpace w = false ->
  free (fun c => negb (isWhiteSpace c)) ws = true ->
  (forall st', rest st' = post -> k st' <> None) ->
  exists st', rest st' = post /\
              caps st' = (1, w) :: filter (fun p => negb (Nat.eqb (fst p) 1)) (caps st) /\
              m flag_i (Group 1 (Star false re_any)) st
                (fun st3 => m flag_i (Star true re_s) st3
                   (fun st4 => m flag_i (lit "```") st4 k)) = k st'.
Proof.
  intros R B L W K. rewrite m_group, m_star.
  assert (Tail : forall x, rest x = (ws ++ "```" ++ post)%string ->
            exists st', rest st' = post /\ caps st' = caps x /\
              m flag_i (Star true re_s) x (fun st4 => m flag_i (lit "```") st4 k) = k st').
  { intros x Rx. rewrite m_star.
    destruct (spaces_forward (fun st4 => m flag_i (lit "```") st4 k) ws
                (String.length (rest x)) x ("```" ++ post)%string W eq_refl Rx)
      as [st2 [R2 [_ [C2 E2]]]].
    - rewrite Rx, length_append. lia.
    - intros st' R'. destruct (fence_forward k st' post R') as [st3 [R3 [_ [_ E3]]]].
      rewrite E3. now apply K.
    - destruct (fence_forward k st2 post R2) as [st3 [R3 [_ [C3 E3]]]].
      exists st3. repeat split; [exact R3 | congruence | now rewrite E2]. }
  destruct (lazy_any_forward
              (fun st' => m flag_i (Star true re_s)
                            (set_cap 1 (substring 0 (pos st' - pos st) (rest st)) st')
                            (fun st4 => m flag_i (lit "```") st4 k))
              w (String.length (rest st)) st (ws ++ "```" ++ post)%string R)
    as [st1 [R1 [P1 [C1 E1]]]].
  - rewrite R, length_append. lia.
  - intros w1 w2 st' E N R'. rewrite m_star. apply spaces_fence_none with (x := (w2 ++ ws ++ "```" ++ post)%string).
    + exact R'.
    + apply solid_head; [exact N | |].
      * rewrite E, free_append in B. now apply andb_true_iff in B.
      * rewrite E, lastIs_append in L; assumption.
  - intros st' R'. destruct (Tail (set_cap 1 (substring 0 (pos st' - pos st) (rest st)) st') R')
      as [st3 [R3 [_ E3]]]. rewrite E3. now apply K.
  - rewrite E1.
    destruct (Tail (set_cap 1 (substring 0 (pos st1 - pos st) (rest st)) st1) R1)
      as [st3 [R3 [C3 E3]]].
    exists st3. repeat split; [exact R3 | | exact E3].
    rewrite C3. cbn [caps set_cap]. rewrite C1, P1, R.
    replace (pos st + String.length w - pos st) with (String.length w) by lia.
    now rewrite substring_prefix.
Qed.

(** From the white space after the opening fence on: the group is the
    text between the fences, trimmed. *)
Lemma fence_inside {A} (k : @cont A) X post st :
  rest st = (X ++ "```" ++ post)%string ->
  caps st = [] ->
  free isBacktick X = true ->
  (forall st', rest st' = post -> k st' <> None) ->
  exists st', rest st' = post /\ caps st' = [(1, trim X)] /\
              m flag_i (Seq (Star true re_s)
                          (Seq (Group 1 (Star false re_any))
                             (Seq (Star true re_s) (lit "```")))) st k = k st'.
Proof.
  intros R C B K.
  destruct (trimStart_split X) as [ws1 [E1 W1]].
  destruct (trimEnd_split (trimStart X)) as [ws2 [E2 W2]].
  fold (trim X) in E2.
  assert (Body : forall x, rest x = (trimStart X ++ "```" ++ post)%string ->
            exists st', rest st' = post /\
              caps st' = (1, trim X) :: filter (fun p => negb (Nat.eqb (fst p) 1)) (caps x) /\
              m flag_i (Group 1 (Star false re_any)) x
                (fun st3 => m flag_i (Star true re_s) st3
                   (fun st4 => m flag_i (lit "```") st4 k)) = k st').
  { intros x Rx. apply fence_body with (ws := ws2).
    - rewrite Rx. rewrite E2 at 1. now rewrite append_assoc.
    - now apply free_trimEnd, free_trimStart.
    - apply lastIs_trimEnd.
    - exact W2.
    - exact K. }
  change (m flag_i (Seq (Star true re_s) ?r) st k)
    with (m flag_i (Star true re_s) st
            (fun st2 => m flag_i (Group 1 (Star false re_any)) st2
               (fun st3 => m flag_i (Star true re_s) st3
                  (fun st4 => m flag_i (lit "```") st4 k)))).
  rewrite m_star.
  destruct (spaces_forward
              (fun st2 => m flag_i (Group 1 (Star false re_any)) st2
                 (fun st3 => m flag_i (Star true re_s) st3
                    (fun st4 => m flag_i (lit "```") st4 k)))
              ws1 (String.length (rest st)) st (trimStart X ++ "```" ++ post)%string W1)
    as [st2 [R2 [_ [C2 E]]]].
  - destruct (trimStart X) as [|c t] eqn:T; [reflexivity|].
    cbn [append headIs]. change (headIs isWhiteSpace (String c t) = false).
    rewrite <- T. apply headIs_trimStart.
  - rewrite R. rewrite E1 at 1. now rewrite append_assoc.
  - rewrite R, length_append.
    assert (String.length X = String.length ws1 + String.length (trimStart X))
      by (rewrite E1 at 1; apply length_append).
    lia.
  - intros st' R'. destruct (Body st' R') as [st3 [R3 [_ E3]]]. rewrite E3. now apply K.
  - destruct (Body st2 R2) as [st3 [R3 [C3 E3]]].
    exists st3. repeat split; [exact R3 | | now rewrite E].
    rewrite C3, C2, C. reflexivity.
Qed.

Lemma json_eq x c :
  In x ["j"; "s"; "o"; "n"]%char -> char_eq flag_i x c = Ascii.eqb x (toLowerChar c).
Proof.
  intros [<- | [<- | [<- | [<- | []]]]]; destruct c as [[] [] [] [] [] [] [] []]; reflexivity.
Qed.

Ltac json_chars :=
  rewrite ?(json_eq "j" _ (or_introl eq_refl)),
          ?(json_eq "s" _ (or_intror (or_introl eq_refl))),
          ?(json_eq "o" _ (or_intror (or_intror (or_introl eq_refl)))),
          ?(json_eq "n" _ (or_intror (or_intror (or_intror (or_introl eq_refl))))).

(** The language tag, taken when the fenced text starts with it in either
    case. *)
Lemma json_forward {A} (k : @cont A) st R s :
  rest st = (R ++ s)%string ->
  startsWith (toLowerCase R) "json" = true ->
  exists st', rest st' = (drop 4 R ++ s)%string /\ pos st' = pos st + 4 /\
              caps st' = caps st /\ m flag_i (lit "json") st k = k st'.
Proof.
  intros E J. destruct st as [pc p r cs]. cbn [rest] in E. subst r.
  destruct R as [|c1 [|c2 [|c3 [|c4 R]]]]; cbn [toLowerCase startsWith] in J;
    repeat (apply andb_true_iff in J as [? J]); try discriminate.
  cbn [lit m]. unfold m_char. cbn [rest advance append pos caps]. json_chars.
  repeat match goal with H : Ascii.eqb _ _ = true |- _ => rewrite H; clear H end.
  eexists. split; [|split; [|split; [|reflexivity]]]; cbn [rest pos caps drop advance];
    [reflexivity | lia | reflexivity].
Qed.

Lemma json_miss {A} (k : @cont A) st R post :
  rest st = (R ++ "```" ++ post)%string ->
  startsWith (toLowerCase R) "json" = false ->
  m flag_i (lit "json") st k = None.
Proof.
  intros E J. destruct st as [pc p r cs]. cbn [rest] in E. subst r.
  cbn [lit m]. unfold m_char.
  destruct R as [|c1 [|c2 [|c3 [|c4 R]]]]; cbn [rest advance append pos caps];
    cbn [toLowerCase startsWith] in J; json_chars;
    repeat match goal with
           | |- context [Ascii.eqb ?a (toLowerChar "`")] =>
               change (Ascii.eqb a (toLowerChar "`")) with false
           | |- context [Ascii.eqb ?a (toLowerChar ?c)] =>
               is_var c; destruct (Ascii.eqb a (toLowerChar c)); cbn [andb] in J
           end; try reflexivity; rewrite startsWith_nil in J; discriminate.
Qed.

(** A match attempt at an opening fence whose text holds no backtick: the
    group is the text between the fences without a leading language tag
    and trimmed. *)
Lemma fence_match pc p R post :
  free isBacktick R = true ->
  exists mt, match_at flag_i re_fence pc p ("```" ++ R ++ "```" ++ post) = Some mt /\
             group 1 mt
             = trim (if startsWith (toLowerCase R) "json" then drop 4 R else R).
Proof.
  intros B. unfold match_at, re_fence. cbn [cat].
  set (final := fun st' : mstate => Some _).
  assert (F : forall st', final st' <> None) by (intros st'; discriminate).
  rewrite m_seq.
  destruct (fence_forward
              (fun st' => m flag_i (Seq (Opt true (lit "json"))
                                      (Seq (Star true re_s)
                                         (Seq (Group 1 (Star false re_any))
                                            (Seq (Star true re_s) (lit "```"))))) st' final)
              {| prevc := pc; pos := p; rest := ("```" ++ R ++ "```" ++ post)%string; caps := [] |}
              (R ++ "```" ++ post)%string eq_refl) as [s1 [R1 [_ [C1 E1]]]].
  rewrite E1. rewrite m_seq, m_opt. cbv zeta. cbn [groups_of lit]. rewrite clear_caps_none.
  cbn [caps] in C1.
  assert (Done : forall st X, rest st = (X ++ "```" ++ post)%string -> caps st = [] ->
            free isBacktick X = true ->
            exists mt, m flag_i (Seq (Star true re_s)
                                   (Seq (Group 1 (Star false re_any))
                                      (Seq (Star true re_s) (lit "```")))) st final = Some mt /\
                       group 1 mt = trim X).
  { intros st X Rx Cx Bx.
    destruct (fence_inside final X post st Rx Cx Bx) as [st' [_ [C' E']]]; [intros; apply F|].
    rewrite E'. eexists. split; [reflexivity|].
    unfold group. cbn [groups]. rewrite C'. reflexivity. }
  cbn [lit] in Done.
  destruct (startsWith (toLowerCase R) "json") eqn:J.
  - destruct (json_forward
                (fun st' => if pos s1 <? pos st'
                            then m flag_i (Seq (Star true re_s)
                                             (Seq (Group 1 (Star false re_any))
                                                (Seq (Star true re_s) (lit "```")))) st' final
                            else None)
                s1 R ("```" ++ post)%string R1 J) as [s2 [R2 [P2 [C2 E2]]]].
    change (m flag_i (Seq (Seq (Char "j") (Seq (Char "s") (Seq (Char "o") (Char "n")))) ?r) ?st ?k)
      with (m flag_i (lit "json") st (fun st' => m flag_i r st' k)) in *.
    cbn [lit] in E2 |- *.
    destruct (Done s2 (drop 4 R) R2) as [mt [E M]]; [congruence | |].
    + clear - B. destruct R as [|c1 [|c2 [|c3 [|c4 R]]]]; cbn [drop]; try reflexivity.
      cbn [free] in B. repeat (apply andb_true_iff in B as [_ B]). exact B.
    + exists mt. split; [|exact M].
      rewrite E2. replace (pos s1 <? pos s2) with true by (symmetry; apply Nat.ltb_lt; lia).
      rewrite E. reflexivity.
  - rewrite (json_miss _ s1 R post R1 J). cbn [orelse].
    apply (Done s1 R R1 C1 B).
Qed.

Lemma fence_match_start pc p a :
  startsWith a "```" = false -> match_at flag_i re_fence pc p a = None.
Proof.
  intros H. unfold match_at, re_fence. cbn [cat]. rewrite m_seq. cbn [lit m].
  unfold m_char. cbn [rest advance].
  destruct a as [|c1 [|c2 [|c3 a]]]; cbn [startsWith] in H; rewrite ?backtick_eq;
    unfold isBacktick; rewrite ?(Ascii.eqb_sym c1), ?(Ascii.eqb_sym c2), ?(Ascii.eqb_sym c3);
    repeat match goal with
           | |- context [Ascii.eqb "`" ?c] =>
               is_var c; destruct (Ascii.eqb "`" c); cbn [andb] in H
           end; try reflexivity; rewrite startsWith_nil in H; discriminate.
Qed.

Lemma free_no_fence a s :
  free isBacktick a = true ->
  forall pc p, exists pc', 
    search_from flag_i re_fence pc p (a ++ s)
    = search_from flag_i re_fence pc' (p + String.length a) s.
Proof.
  induction a as [|c a IH]; intros B pc p.
  - exists pc. cbn [append String.length]. now rewrite Nat.add_0_r.
  - cbn [free] in B. apply andb_true_iff in B as [B1 B2].
    destruct (IH B2 (Some c) (S p)) as [pc' E]. exists pc'.
    cbn [append search_from]. rewrite fence_match_start.
    + rewrite E. cbn [String.length]. f_equal. lia.
    + cbn [startsWith]. unfold isBacktick in B1. apply negb_true_iff in B1.
      rewrite Ascii.eqb_sym, B1. reflexivity.
Qed.

(** The fenced block of a reply. *)
Lemma unfence_fenced pre R post :
  free isBacktick pre = true -> free isBacktick R = true ->
  unfence (pre ++ "```" ++ R ++ "```" ++ post)
  = trim (if startsWith (toLowerCase R) "json" then drop 4 R else R).
Proof.
  intros Bp Br. unfold unfence.
  destruct (free_no_fence pre ("```" ++ R ++ "```" ++ post)%string Bp None 0) as [pc E].
  rewrite E.
  destruct (fence_match pc (0 + String.length pre) R post Br) as [mt [M G]].
  assert (S : search_from flag_i re_fence pc (0 + String.length pre)
                ("```" ++ R ++ "```" ++ post) = Some mt).
  { cbn [append search_from]. cbn [append] in M. now rewrite M. }
  rewrite S. exact G.
Qed.

(** A reply without a fence is taken whole. *)
Lemma unfence_plain text : includes text "```" = false -> unfence text = text.
Proof.
  intros H. unfold unfence.
  rewrite (search_from_nowhere flag_i re_fence (fun x => startsWith x "```")).
  - reflexivity.
  - intros pc p a. apply fence_match_start.
  - now apply nowhere_includes.
Qed.

Lemma indexOf_append c a s :
  free (Ascii.eqb c) a = true -> indexOf c (a ++ String c s) = Some (String.length a).
Proof.
  induction a as [|x a IH]; cbn [append indexOf free String.length].
  - now rewrite Ascii.eqb_refl.
  - intros H. apply andb_true_iff in H as [H1 H2]. apply negb_true_iff in H1.
    rewrite Ascii.eqb_sym, H1, (IH H2). reflexivity.
Qed.

Lemma lastIndexOf_free c t : free (Ascii.eqb c) t = true -> lastIndexOf c t = None.
Proof.
  induction t as [|x t IH]; [reflexivity|]. cbn [free lastIndexOf]. intros H.
  apply andb_true_iff in H as [H1 H2]. apply negb_true_iff in H1.
  now rewrite (IH H2), Ascii.eqb_sym, H1.
Qed.

Lemma lastIndexOf_append c s t :
  free (Ascii.eqb c) t = true -> lastIndexOf c (s ++ String c t) = Some (String.length s).
Proof.
  intros H. induction s as [|x s IH]; cbn [append lastIndexOf String.length].
  - now rewrite (lastIndexOf_free c t H), Ascii.eqb_refl.
  - now rewrite IH.
Qed.

Lemma substring_middle a b c :
  substring (String.length a) (String.length b) (a ++ b ++ c) = b.
Proof.
  induction a as [|x a IH]; cbn [String.length append substring].
  - apply substring_prefix.
  - exact IH.
Qed.

Lemma free_eqb_sym (c : ascii) a :
  free (fun x => Ascii.eqb x c) a = free (Ascii.eqb c) a.
Proof.
  induction a as [|x a IH]; [reflexivity|]. cbn [free]. now rewrite IH, Ascii.eqb_sym.
Qed.

(** From the first opening brace to the last closing brace: what stands
    around an object is dropped. *)
Lemma sliceBraces_object a inner c :
  free isOpenBrace a = true -> free isCloseBrace c = true ->
  sliceBraces (a ++ "{" ++ inner ++ "}" ++ c) = ("{" ++ inner ++ "}")%string.
Proof.
  intros Ha Hc. unfold sliceBraces.
  unfold isOpenBrace in Ha. unfold isCloseBrace in Hc. rewrite free_eqb_sym in Ha, Hc.
  change (a ++ "{" ++ inner ++ "}" ++ c)%string
    with (a ++ String "{" (inner ++ "}" ++ c))%string at 1.
  rewrite (indexOf_append _ _ _ Ha).
  replace (a ++ "{" ++ inner ++ "}" ++ c)%string
    with ((a ++ "{" ++ inner) ++ String "}" c)%string at 1
    by (now rewrite !append_assoc).
  rewrite (lastIndexOf_append _ _ _ Hc).
  assert (L : String.length (a ++ "{" ++ inner) = String.length a + S (String.length inner))
    by (rewrite length_append; reflexivity).
  assert (O : String.length ("{" ++ inner ++ "}") = S (S (String.length inner)))
    by (cbn [append String.length]; rewrite length_append; cbn [String.length]; lia).
  rewrite L. destruct (Nat.ltb_spec (String.length a) (String.length a + S (String.length inner)));
    [|lia].
  replace (String.length a + S (String.length inner) + 1 - String.length a)
    with (String.length ("{" ++ inner ++ "}")%string) by lia.
  replace (a ++ "{" ++ inner ++ "}" ++ c)%string
    with (a ++ ("{" ++ inner ++ "}") ++ c)%string.
  - apply substring_middle.
  - cbn [append]. now rewrite append_assoc.
Qed.

Lemma trimStart_keep q a c Y :
  isWhiteSpace c = false -> free q a = true ->
  exists a', trimStart (a ++ String c Y) = (a' ++ String c Y)%string /\ free q a' = true.
Proof.
  intros W. induction a as [|x a IH]; intros H.
  - exists EmptyString. cbn [append trimStart]. now rewrite W.
  - cbn [free] in H. apply andb_true_iff in H as [H1 H2].
    cbn [append trimStart]. destruct (isWhiteSpace x).
    + exact (IH H2).
    + exists (String x a). cbn [free]. now rewrite H1, H2.
Qed.

Lemma trimEnd_keep Z c t :
  isWhiteSpace c = false -> trimEnd (Z ++ String c t) = (Z ++ String c (trimEnd t))%string.
Proof.
  intros W. induction Z as [|z Z IH]; cbn [append trimEnd].
  - destruct (trimEnd t); [now rewrite W | reflexivity].
  - rewrite IH. destruct Z; reflexivity.
Qed.

Lemma free_includes a : free isBacktick a = true -> includes a "```" = false.
Proof.
  induction a as [|c a IH]; [reflexivity|]. cbn [free includes startsWith]. intros H.
  apply andb_true_iff in H as [H1 H2]. unfold isBacktick in H1. apply negb_true_iff in H1.
  now rewrite Ascii.eqb_sym, H1, (IH H2).
Qed.

(** The text handed to [JSON.parse] for a reply that wraps an object in
    a fence. *)
Lemma clean_fenced pre mid inner tail post :
  free isBacktick pre = true ->
  free isBacktick (mid ++ "{" ++ inner ++ "}" ++ tail) = true ->
  free isOpenBrace mid = true -> free isCloseBrace tail = true ->
  sliceBraces (unfence (pre ++ "```" ++ (mid ++ "{" ++ inner ++ "}" ++ tail) ++ "```" ++ post))
  = ("{" ++ inner ++ "}")%string.
Proof.
  intros Bp Br Om Ct. rewrite (unfence_fenced _ _ _ Bp Br).
  assert (X : exists mid', (if startsWith (toLowerCase (mid ++ "{" ++ inner ++ "}" ++ tail)) "json"
                            then drop 4 (mid ++ "{" ++ inner ++ "}" ++ tail)
                            else (mid ++ "{" ++ inner ++ "}" ++ tail)%string)
                           = (mid' ++ "{" ++ inner ++ "}" ++ tail)%string /\
                           free isOpenBrace mid' = true).
  { destruct (startsWith _ "json") eqn:J; [|now exists mid].
    destruct mid as [|c1 [|c2 [|c3 [|c4 mid]]]]; cbn [append toLowerCase startsWith] in J;
      repeat match type of J with
             | context [Ascii.eqb ?a (toLowerChar "{")] =>
                 change (Ascii.eqb a (toLowerChar "{")) with false in J
             end; rewrite ?andb_false_r in J; try discriminate.
    exists mid. split; [reflexivity|].
    cbn [free] in Om. repeat (apply andb_true_iff in Om as [_ Om]). exact Om. }
  destruct X as [mid' [-> Om']]. unfold trim.
  destruct (trimStart_keep isOpenBrace mid' "{" (inner ++ "}" ++ tail) eq_refl Om')
    as [a' [E Oa]].
  change (mid' ++ "{" ++ inner ++ "}" ++ tail)%string
    with (mid' ++ String "{" (inner ++ "}" ++ tail))%string.
  rewrite E.
  replace (a' ++ String "{" (inner ++ "}" ++ tail))%string
    with ((a' ++ "{" ++ inner) ++ String "}" tail)%string
    by (now rewrite !append_assoc).
  rewrite trimEnd_keep by reflexivity.
  replace ((a' ++ "{" ++ inner) ++ String "}" (trimEnd tail))%string
    with (a' ++ "{" ++ inner ++ "}" ++ trimEnd tail)%string
    by (now rewrite !append_assoc).
  apply sliceBraces_object; [exact Oa | now apply free_trimEnd].
Qed.

Lemma parse_by_clean JSON_parse URL_pathname t1 t2 references topKeywords validNodes config :
  t1 <> EmptyString -> t2 <> EmptyString ->
  sliceBraces (unfence t1) = sliceBraces (unfence t2) ->
  parseAIResponse JSON_parse URL_pathname (Some t1) references topKeywords validNodes config
  = parseAIResponse JSON_parse URL_pathname (Some t2) references topKeywords validNodes config.
Proof.
  intros N1 N2 E. destruct t1 as [|c1 t1]; [congruence|]. destruct t2 as [|c2 t2]; [congruence|].
  unfold parseAIResponse. cbv zeta. now rewrite E.
Qed.

Lemma clean_object inner :
  includes ("{" ++ inner ++ "}") "```" = false ->
  sliceBraces (unfence ("{" ++ inner ++ "}")) = ("{" ++ inner ++ "}")%string.
Proof.
  intros H. rewrite (unfence_plain _ H).
  apply (sliceBraces_object EmptyString inner EmptyString); reflexivity.
Qed.

Lemma startsWith_append b c p :
  startsWith b p = true -> startsWith (b ++ c) p = true.
Proof.
  revert b. induction p as [|x p IH]; intros b H; [apply startsWith_nil|].
  destruct b as [|y b]; [discriminate|]. cbn [append startsWith] in *.
  apply andb_true_iff in H as [H1 H2]. now rewrite H1, (IH _ H2).
Qed.

Lemma includes_append_r a b p : includes (a ++ b) p = false -> includes b p = false.
Proof.
  induction a as [|x a IH]; [auto|]. cbn [append includes]. intros H.
  apply orb_false_iff in H as [_ H]. now apply IH.
Qed.

Lemma includes_append_l b c p : includes (b ++ c) p = false -> includes b p = false.
Proof.
  induction b as [|x b IH]; intros H.
  - destruct p as [|y p]; [|reflexivity]. cbn [append] in H.
    now rewrite includes_nil in H.
  - cbn [append includes] in *. apply orb_false_iff in H as [H1 H2].
    rewrite (IH H2), orb_false_r.
    destruct (startsWith (String x b) p) eqn:S; [|reflexivity].
    apply (startsWith_append _ c) in S. cbn [append] in S. congruence.
Qed.

Lemma orElse_truthy x d : truthyJson d = true -> truthyJson (orElse x d) = true.
Proof.
  intros H. destruct x as [v|]; [|exact H]. cbn [orElse].
  destruct (truthyJson v) eqn:T; [exact T | exact H].
Qed.

Lemma orElse_cases x d : truthyJson (orElse x d) = true \/ orElse x d = d.
Proof.
  destruct x as [v|]; [|now right]. cbn [orElse].
  destruct (truthyJson v) eqn:T; [now left | now right].
Qed.

Lemma coalesce_defined x d : d <> JNull -> coalesce x d <> JNull.
Proof. intros H. destruct x as [[]|]; cbn [coalesce]; try exact H; discriminate. Qed.

Lemma substring_0_idem n : forall a, substring 0 n (substring 0 n a) = substring 0 n a.
Proof.
  induction n as [|n IH]; intros a.
  - now rewrite !substring_0_0.
  - destruct a as [|c a]; [reflexivity|]. cbn [substring]. now rewrite IH.
Qed.

Section Platform.
Variable JSON_parse : string -> option json.
Variable URL_pathname : string -> option string.

(** A reply that wraps the object in a code fence, with or without the
    language tag and with prose around the fence and around the object, is
    parsed as the object alone is. *)
Theorem parseAIResponse_fenced (pre mid inner tail post : string)
    (references : list ReferenceData) (topKeywords : list string)
    (validNodes : list SemanticNode.t) (config : AIConfig) :
  free isBacktick pre = true ->
  free isBacktick (mid ++ "{" ++ inner ++ "}" ++ tail) = true ->
  free isOpenBrace mid = true ->
  free isCloseBrace tail = true ->
  sliceBraces (unfence (pre ++ "```" ++ (mid ++ "{" ++ inner ++ "}" ++ tail) ++ "```" ++ post))
  = ("{" ++ inner ++ "}")%string /\
  parseAIResponse JSON_parse URL_pathname
    (Some (pre ++ "```" ++ (mid ++ "{" ++ inner ++ "}" ++ tail) ++ "```" ++ post)%string)
    references topKeywords validNodes config
  = parseAIResponse JSON_parse URL_pathname (Some ("{" ++ inner ++ "}")%string)
      references topKeywords validNodes config.
Proof.
  intros Bp Br Om Ct.
  pose proof (clean_fenced pre mid inner tail post Bp Br Om Ct) as E.
  split; [exact E|].
  apply parse_by_clean.
  - destruct pre; discriminate.
  - discriminate.
  - rewrite E. symmetry. apply clean_object. apply free_includes.
    rewrite !free_append in Br. apply andb_true_iff in Br as [_ Br].
    apply andb_true_iff in Br as [B1 Br]. apply andb_true_iff in Br as [B2 Br].
    apply andb_true_iff in Br as [B3 _].
    rewrite !free_append. now rewrite B1, B2, B3.
Qed.

(** A reply without a fence that holds an object among prose is parsed
    as the object alone is. *)
Theorem parseAIResponse_prose (a inner c : string)
    (references : list ReferenceData) (topKeywords : list string)
    (validNodes : list SemanticNode.t) (config : AIConfig) :
  includes (a ++ "{" ++ inner ++ "}" ++ c) "```" = false ->
  free isOpenBrace a = true ->
  free isCloseBrace c = true ->
  sliceBraces (unfence (a ++ "{" ++ inner ++ "}" ++ c)) = ("{" ++ inner ++ "}")%string /\
  parseAIResponse JSON_parse URL_pathname (Some (a ++ "{" ++ inner ++ "}" ++ c)%string)
    references topKeywords validNodes config
  = parseAIResponse JSON_parse URL_pathname (Some ("{" ++ inner ++ "}")%string)
      references topKeywords validNodes config.
Proof.
  intros H Oa Cc.
  assert (E : sliceBraces (unfence (a ++ "{" ++ inner ++ "}" ++ c))
              = ("{" ++ inner ++ "}")%string).
  { rewrite (unfence_plain _ H). now apply sliceBraces_object. }
  split; [exact E|].
  apply parse_by_clean.
  - destruct a; discriminate.
  - discriminate.
  - rewrite E. symmetry. apply clean_object.
    apply includes_append_r in H.
    replace ("{" ++ inner ++ "}" ++ c)%string with (("{" ++ inner ++ "}") ++ c)%string in H
      by (cbn [append]; now rewrite append_assoc).
    now apply includes_append_l in H.
Qed.

(** The two errors of the parser and when each is thrown: the first for a
    reply that is missing or empty; the second when [JSON.parse] throws,
    when it gives [null], and when [contentWithLinks] is a truthy value
    that is no string. *)
Theorem parseAIResponse_throws (text : option string)
    (references : list ReferenceData) (topKeywords : list string)
    (validNodes : list SemanticNode.t) (config : AIConfig) (message : string) :
  parseAIResponse JSON_parse URL_pathname text references topKeywords validNodes config
  = Throw message
  <->
  (message = "AI returned empty text" /\ (text = None \/ text = Some EmptyString)) \/
  (message = "Failed to parse AI JSON response" /\
   exists t, text = Some t /\ t <> EmptyString /\
     (JSON_parse (sliceBraces (unfence t)) = None \/
      JSON_parse (sliceBraces (unfence t)) = Some JNull \/
      exists parsed v, JSON_parse (sliceBraces (unfence t)) = Some parsed /\
                       prop parsed "contentWithLinks" = Some v /\
                       truthyJson v = true /\ forall s, v <> JStr s)).
Proof.
  unfold parseAIResponse. cbv zeta. destruct text as [[|c0 t]|].
  - split.
    + intros H. injection H as <-. left. split; [reflexivity | now right].
    + intros [[-> _] | [_ [t [E [N _]]]]]; [reflexivity|]. injection E as <-. congruence.
  - set (text := String c0 t).
    remember (JSON_parse (sliceBraces (unfence text))) as o eqn:J.
    split.
    + intros H. right.
      assert (M : message = "Failed to parse AI JSON response").
      { destruct o as [parsed|]; [|congruence].
        destruct parsed; try congruence;
          destruct (assemble _ _ _ _ _ _); congruence. }
      split; [exact M|]. exists text. split; [reflexivity|]. split; [discriminate|].
      rewrite <- J.
      destruct o as [parsed|]; [|now left]. right.
      destruct parsed as [|b|f|s|items|fields]; [now left| | | | |]; right;
        unfold assemble in H; cbn [prop] in H |- *;
        try (cbn [orElse] in H; discriminate).
      destruct (field "contentWithLinks" fields) as [v|] eqn:F;
        [|cbn [orElse] in H; discriminate].
      exists (JObj fields), v. split; [reflexivity|]. split; [exact F|].
      cbn [orElse] in H. destruct (truthyJson v) eqn:T; [|discriminate].
      split; [reflexivity|]. intros s ->. discriminate.
    + intros [[_ [E | E]] | [-> [t' [E [_ H]]]]]; try discriminate.
      injection E as <-. fold text in H. rewrite <- J in H.
      destruct H as [-> | [-> | [parsed [v [-> [P [T N]]]]]]]; try reflexivity.
      destruct parsed as [|b|f|s|items|fields]; try discriminate.
      unfold assemble. rewrite P. cbn [orElse]. rewrite T.
      destruct v; try reflexivity. exfalso. now apply (N s).
  - split.
    + intros H. injection H as <-. left. split; [reflexivity | now left].
    + intros [[-> _] | [_ [t [E _]]]]; [reflexivity | discriminate].
Qed.

(** What a result always holds: the keywords and the list of sources it
    was given, no empty, null, zero or false value in the fields that have
    a default text, object or array, nothing but a truthy value or the
    empty string in the other text fields, and a [commercialIntent] that
    is not [null]. *)
Theorem parseAIResponse_defaults (text : option string)
    (references : list ReferenceData) (topKeywords : list string)
    (validNodes : list SemanticNode.t) (config : AIConfig) (r : AIAnalysisResult) :
  parseAIResponse JSON_parse URL_pathname text references topKeywords validNodes config
  = Ok r ->
  keywordsUsed r = topKeywords /\
  referencesHTML r = referencesHtmlOf references /\
  Forall (fun v => truthyJson v = true)
    [newTitle r; verdictData r; schemaJSON r; detectedOldProduct r;
     identifiedNewProduct r; newProductSpecs r; detectedProducts r; usedInternalLinks r] /\
  Forall (fun v => truthyJson v = true \/ v = JStr EmptyString)
    [metaDescription r; blufSentence r; sgeSummaryHTML r; productBoxHTML r;
     comparisonTableHTML r; faqHTML r] /\
  commercialIntent r <> JNull.
Proof.
  unfold parseAIResponse. cbv zeta. destruct text as [[|c0 t]|]; try discriminate.
  destruct (JSON_parse _) as [parsed|]; [|discriminate].
  assert (A : assemble URL_pathname parsed references topKeywords validNodes config = Some r ->
              keywordsUsed r = topKeywords /\
              referencesHTML r = referencesHtmlOf references /\
              Forall (fun v => truthyJson v = true)
                [newTitle r; verdictData r; schemaJSON r; detectedOldProduct r;
                 identifiedNewProduct r; newProductSpecs r; detectedProducts r;
                 usedInternalLinks r] /\
              Forall (fun v => truthyJson v = true \/ v = JStr EmptyString)
                [metaDescription r; blufSentence r; sgeSummaryHTML r; productBoxHTML r;
                 comparisonTableHTML r; faqHTML r] /\
              commercialIntent r <> JNull).
  { unfold assemble. destruct (orElse (prop parsed "contentWithLinks") _); try discriminate.
    intros H. injection H as <-.
    cbn [keywordsUsed referencesHTML newTitle verdictData schemaJSON detectedOldProduct
         identifiedNewProduct newProductSpecs detectedProducts usedInternalLinks
         metaDescription blufSentence sgeSummaryHTML productBoxHTML comparisonTableHTML
         faqHTML commercialIntent].
    split; [reflexivity|]. split; [reflexivity|].
    split; [repeat (apply Forall_cons; [now apply orElse_truthy|]); apply Forall_nil|].
    split; [repeat (apply Forall_cons; [apply orElse_cases|]); apply Forall_nil|].
    apply coalesce_defined. discriminate. }
  intros H. apply A.
  destruct parsed; try discriminate;
    destruct (assemble _ _ _ _ _ _); congruence.
Qed.

End Platform.

(** The list of sources: empty exactly when there is no source, built
    from the first eight sources only, and from the first 120 code units
    of each snippet. *)
Theorem referencesHtmlOf_first_eight (references : list ReferenceData) :
  (referencesHtmlOf references = EmptyString <-> references = []) /\
  referencesHtmlOf references = referencesHtmlOf (firstn 8 references) /\
  forall ref, referenceItemHtml ref
              = referenceItemHtml {| title := title ref; link := link ref;
                                     snippet := substring 0 120 (snippet ref) |}.
Proof.
  split; [|split].
  - split; [|now intros ->].
    destruct references as [|r l]; [reflexivity|]. unfold referencesHtmlOf.
    cbn [List.length Nat.ltb Nat.leb]. discriminate.
  - destruct references as [|r l]; [reflexivity|]. unfold referencesHtmlOf.
    rewrite firstn_firstn. reflexivity.
  - intros ref. unfold referenceItemHtml. cbn [title link snippet].
    now rewrite substring_0_idem.
Qed.

Lemma parseAIResponse_fenced_witness :
  sliceBraces (unfence ("Here it is:" ++ nl ++ "```json" ++ nl ++ "{}" ++ nl ++ "```" ++ nl
                        ++ "Done.")) = "{}" /\
  parseAIResponse parse_stub no_URL
    (Some ("Here it is:" ++ nl ++ "```json" ++ nl ++ "{}" ++ nl ++ "```" ++ nl ++ "Done.")%string)
    [] ["laptop"] [] sample_config
  = parseAIResponse parse_stub no_URL (Some "{}") [] ["laptop"] [] sample_config.
Proof.
  apply (parseAIResponse_fenced parse_stub no_URL ("Here it is:" ++ nl) ("json" ++ nl)
           EmptyString nl (nl ++ "Done.") [] ["laptop"] [] sample_config); reflexivity.
Defined.

Lemma parseAIResponse_prose_witness :
  sliceBraces (unfence "Sure: {} (end)") = "{}" /\
  parseAIResponse parse_stub no_URL (Some "Sure: {} (end)") [] ["laptop"] [] sample_config
  = parseAIResponse parse_stub no_URL (Some "{}") [] ["laptop"] [] sample_config.
Proof.
  apply (parseAIResponse_prose parse_stub no_URL "Sure: " EmptyString " (end)"
           [] ["laptop"] [] sample_config); reflexivity.
Defined.

Lemma parseAIResponse_defaults_witness :
  parseAIResponse parse_stub no_URL (Some "{}") [] ["laptop"] [] sample_config
  = Ok (default_result ["laptop"]) /\
  keywordsUsed (default_result ["laptop"]) = ["laptop"] /\
  truthyJson (newTitle (default_result ["laptop"])) = true.
Proof.
  assert (H : parseAIResponse parse_stub no_URL (Some "{}") [] ["laptop"] [] sample_config
              = Ok (default_result ["laptop"])) by (vm_compute; reflexivity).
  split; [exact H|].
  destruct (parseAIResponse_defaults parse_stub no_URL (Some "{}") [] ["laptop"] []
              sample_config (default_result ["laptop"]) H) as [K [_ [T _]]].
  split; [exact K|]. now inversion T.
Defined.

End ParseFacts.


(** ** The HTML corrector on a list *)

Module ListFacts.
Import AiService StringFacts RegexFacts MatcherMore AiServiceMore CorrectorFacts.
Import ParseFacts.

(** Text without a parenthesis, a hash sign or an asterisk passes the
    first five steps unchanged. *)
Lemma markup_free x :
  free isMarkdownChar x = true ->
  replace_all no_flags re_bold (wrap1 "strong")
    (replace_all flag_im (re_header "####") (wrap1 "h4")
       (replace_all flag_im (re_header "###") (wrap1 "h3")
          (replace_all flag_im (re_header "##") (wrap1 "h2")
             (replace_all flag_i re_wordcount (fun _ => EmptyString) x)))) = x.
Proof.
  intros F.
  pose proof (free_nowhere _ _ (free_weaken _ _ _ markdown_paren F)) as P1.
  pose proof (free_nowhere _ _ (free_weaken _ _ _ markdown_hash F)) as P2.
  pose proof (free_nowhere _ _ (free_weaken _ _ _ markdown_star F)) as P3.
  rewrite (replace_all_no_match flag_i re_wordcount).
  2:{ eapply test_nowhere; [|exact P1]. intros; now apply wordcount_match_start. }
  rewrite (replace_all_no_match flag_im (re_header "##")).
  2:{ eapply test_nowhere; [|exact P2]. intros; now apply header_match_start. }
  rewrite (replace_all_no_match flag_im (re_header "###")).
  2:{ eapply test_nowhere; [|exact P2]. intros; now apply header_match_start. }
  rewrite (replace_all_no_match flag_im (re_header "####")).
  2:{ eapply test_nowhere; [|exact P2]. intros; now apply header_match_start. }
  rewrite (replace_all_no_match no_flags re_bold).
  2:{ eapply test_nowhere; [|exact P3]. intros; now apply bold_match_start. }
  reflexivity.
Qed.

Lemma mark_class c :
  xorb false (class_mem no_flags [CsChar "-"; CsChar "*"] c)
  = isDash c || Ascii.eqb c "*".
Proof.
  cbn [class_mem no_flags ignoreCase existsb cset_mem xorb]. unfold isDash.
  now rewrite orb_false_r.
Qed.

Lemma terminator_newline c : isLineTerminator c = false -> Ascii.eqb newline c = false.
Proof. destruct c as [[] [] [] [] [] [] [] []]; vm_compute; congruence. Qed.

Lemma newline_miss {A} st (k : @cont A) :
  headIs isLineTerminator (rest st) = false -> m no_flags (Char newline) st k = None.
Proof.
  intros H. rewrite m_char_lit. apply m_char_miss.
  destruct (rest st) as [|c s]; [reflexivity|]. cbn [headIs] in *.
  cbn [char_eq no_flags ignoreCase]. now apply terminator_newline.
Qed.

Lemma mark_miss {A} st (k : @cont A) :
  headIs (fun c => isDash c || Ascii.eqb c "*") (rest st) = false ->
  m no_flags (Class false [CsChar "-"; CsChar "*"]) st k = None.
Proof.
  intros H. cbn [m]. apply m_char_miss.
  destruct (rest st) as [|c s]; [reflexivity|]. cbn [headIs] in *. now rewrite mark_class.
Qed.

(** The item pattern is no match in front of a code unit that is no line
    terminator, unless at the start of the input in front of a marker. *)
Lemma bullet_miss pc p s :
  headIs isLineTerminator s = false ->
  pc <> None \/ headIs (fun c => isDash c || Ascii.eqb c "*") s = false ->
  match_at no_flags re_bullet pc p s = None.
Proof.
  intros L B. unfold match_at, re_bullet. cbn [cat]. rewrite m_seq, m_alt.
  replace (m no_flags Bol _ _) with (@None rmatch).
  - cbn [orelse]. now apply newline_miss.
  - rewrite m_bol. destruct pc as [c|]; [reflexivity|].
    destruct B as [B | B]; [congruence|].
    cbn [at_bol prevc]. rewrite m_seq. symmetry. now apply mark_miss.
Qed.

(** The line break in front of a line that is no item. *)
Lemma bullet_blank pc p q :
  pc <> None ->
  headIs (fun c => isDash c || Ascii.eqb c "*") q = false ->
  match_at no_flags re_bullet pc p (String newline q) = None.
Proof.
  intros N B. unfold match_at, re_bullet. cbn [cat]. rewrite m_seq, m_alt, m_bol.
  destruct pc as [c|]; [|congruence]. cbn [at_bol prevc multiline no_flags andb orelse].
  rewrite m_char_lit, m_char_step by apply char_eq_refl.
  rewrite m_seq. now apply mark_miss.
Qed.

(** An item is matched with the line break in front of it, and the group
    is its text. *)
Lemma bullet_hit g x tail pc p :
  g <> EmptyString ->
  free (fun c => negb (isWhiteSpace c)) g = true ->
  headIs isWhiteSpace (x ++ tail) = false ->
  free isLineTerminator x = true ->
  tail = EmptyString \/ headIs isLineTerminator tail = true ->
  exists mt, match_at no_flags re_bullet pc p ((nl ++ "-" ++ g ++ x) ++ tail) = Some mt /\
             whole mt = (nl ++ "-" ++ g ++ x)%string /\ group 1 mt = x.
Proof.
  intros Ng W H F T.
  destruct g as [|c g]; [congruence|].
  cbn [free] in W. apply andb_true_iff in W as [W1 W2].
  apply negb_true_iff, negb_false_iff in W1.
  replace ((nl ++ "-" ++ String c g ++ x) ++ tail)%string
    with (String newline (String "-" (String c (g ++ x ++ tail))))
    by (cbn [nl append]; now rewrite !append_assoc).
  unfold match_at, re_bullet. cbn [cat].
  set (final := fun st' : mstate => Some _).
  assert (K : forall st', final st' <> None) by (intros st'; discriminate).
  rewrite m_seq, m_alt.
  replace (m no_flags Bol _ _) with (@None rmatch).
  2:{ rewrite m_bol. destruct (at_bol no_flags _); [|reflexivity].
      rewrite m_seq. symmetry. apply mark_miss. reflexivity. }
  cbn [orelse]. rewrite m_char_lit, m_char_step by apply char_eq_refl.
  rewrite m_seq. 
  change (m no_flags (Class false [CsChar "-"; CsChar "*"]) ?st ?k)
    with (m_char (fun x0 => xorb false (class_mem no_flags [CsChar "-"; CsChar "*"] x0)) st k).
  rewrite m_char_step by reflexivity.
  rewrite m_seq, m_plus. cbn [groups_of re_s]. rewrite clear_caps_none.
  fold re_s. rewrite m_space, m_char_step by exact W1.
  assert (Text : forall st, rest st = (x ++ tail)%string -> caps st = [] ->
            exists st', pos st' = pos st + String.length x /\ caps st' = [(1, x)] /\
              m no_flags (Group 1 (Star true Dot)) st final = final st').
  { intros st R C. rewrite m_group, m_star.
    destruct (greedy_forward no_flags Dot (fun c => negb (isLineTerminator c))
                (fun st' => final (set_cap 1 (substring 0 (pos st' - pos st) (rest st)) st'))
                (fun st0 k' => m_dot no_flags st0 k') eq_refl x (String.length (rest st)) st tail)
      as [st' [R' [P' [C' [_ E']]]]].
    - clear - F. induction x as [|c x IH]; [reflexivity|]. cbn [free] in *.
      apply andb_true_iff in F as [F1 F2]. now rewrite negb_involutive, F1, IH.
    - destruct T as [-> | T]; [reflexivity|]. destruct tail as [|c' tail]; [reflexivity|].
      cbn [headIs] in *. now rewrite T.
    - exact R.
    - rewrite R, length_append. lia.
    - intros st' _. apply K.
    - rewrite E'. eexists. split; [|split; [|reflexivity]]; cbn [pos caps set_cap].
      + exact P'.
      + rewrite C', C, P', R.
        replace (pos st + String.length x - pos st) with (String.length x) by lia.
        now rewrite substring_prefix. }
  destruct (greedy_forward no_flags re_s isWhiteSpace
              (fun st' => m no_flags (Group 1 (Star true Dot)) st' final)
              (fun st0 k' => m_space no_flags st0 k') eq_refl g
              (String.length (g ++ x ++ tail))
              {| prevc := Some c; pos := S (S (S p)); rest := (g ++ x ++ tail)%string;
                 caps := [] |} (x ++ tail)%string W2 H eq_refl)
    as [s2 [R2 [P2 [C2 [_ E2]]]]].
  - rewrite length_append. lia.
  - intros st' R'. rewrite m_group, m_star.
    destruct (greedy_forward no_flags Dot (fun c => negb (isLineTerminator c))
                (fun st2 => final (set_cap 1 (substring 0 (pos st2 - pos st') (rest st')) st2))
                (fun st0 k' => m_dot no_flags st0 k') eq_refl x (String.length (rest st')) st'
                tail) as [st'' [_ [_ [_ [_ E'']]]]].
    + clear - F. induction x as [|c0 x IH]; [reflexivity|]. cbn [free] in *.
      apply andb_true_iff in F as [F1 F2]. now rewrite negb_involutive, F1, IH.
    + destruct T as [-> | T]; [reflexivity|]. destruct tail as [|c' tail]; [reflexivity|].
      cbn [headIs] in *. now rewrite T.
    + exact R'.
    + rewrite R', length_append. lia.
    + intros st2 _. apply K.
    + rewrite E''. apply K.
  - cbn [rest groups_of re_s] in *. rewrite E2.
    destruct (Text s2 R2 C2) as [s3 [P3 [C3 E3]]].
    rewrite E3. eexists. split; [reflexivity|].
    cbn [whole groups pos caps] in *. split.
    + replace (pos s3 - p) with (String.length (nl ++ "-" ++ String c g ++ x)%string)
        by (rewrite P3, P2; cbn [nl append String.length]; rewrite length_append; lia).
      replace (String newline (String "-" (String c (g ++ x ++ tail))))
        with ((nl ++ "-" ++ String c g ++ x) ++ tail)%string
        by (cbn [nl append]; now rewrite !append_assoc).
      apply substring_prefix.
    + unfold group. cbn [groups]. rewrite C3. reflexivity.
Qed.

Lemma head_free q x : free q x = true -> headIs q x = false.
Proof.
  destruct x as [|c x]; [reflexivity|]. cbn [free headIs]. intros H.
  apply andb_true_iff in H as [H _]. now apply negb_true_iff in H.
Qed.

Lemma lastc_Some c a : lastc (Some c) a <> None.
Proof. revert c. induction a as [|x a IH]; intros c; [discriminate | apply IH]. Qed.

Lemma lastc_nonempty pc a : a <> EmptyString -> lastc pc a <> None.
Proof. destruct a as [|x a]; [congruence|]. intros _. apply lastc_Some. Qed.

(** A line of text that is no item, under the pass for the items. *)
Lemma bullet_text x pc p s :
  free isLineTerminator x = true ->
  pc <> None \/ headIs (fun c => isDash c || Ascii.eqb c "*") x = false ->
  scan_from no_flags re_bullet 0 pc p (x ++ s)
  = map Keep (chars x) ++ scan_from no_flags re_bullet 0 (lastc pc x) (p + String.length x) s.
Proof.
  intros F B. destruct x as [|c x].
  - cbn [append chars list_ascii_of_string map app lastc String.length].
    now rewrite Nat.add_0_r.
  - cbn [free] in F. apply andb_true_iff in F as [F1 F2]. apply negb_true_iff in F1.
    cbn [append]. rewrite scan_miss by (apply bullet_miss; [exact F1 | exact B]).
    rewrite (scan_inside no_flags re_bullet isLineTerminator x).
    + cbn [chars list_ascii_of_string map app lastc String.length]. do 3 f_equal. lia.
    + intros c' p' s' H. apply bullet_miss; [exact H | left; discriminate].
    + exact F2.
Qed.

Lemma concat_items {A} (f : A -> string) x l :
  String.concat EmptyString (map f (x :: l))
  = (f x ++ String.concat EmptyString (map f l))%string.
Proof. cbn [map]. rewrite concat_cons. now destruct (map f l). Qed.

Lemma itemsSource_head items tail :
  tail = EmptyString \/ headIs isLineTerminator tail = true ->
  (String.concat EmptyString (map itemSource items) ++ tail)%string = EmptyString \/
  headIs isLineTerminator (String.concat EmptyString (map itemSource items) ++ tail) = true.
Proof.
  intros T. destruct items as [|it items]; [exact T|]. right.
  rewrite concat_items. reflexivity.
Qed.

Lemma item_parts it :
  wellFormedItem it = true ->
  gap it <> EmptyString /\
  free (fun c => negb (isWhiteSpace c)) (gap it) = true /\
  free isLineTerminator (gap it) = true /\
  plainText (entry it) = true /\
  (forall s, headIs isWhiteSpace (entry it ++ s) = false) /\
  startsWith (gap it) " " = true.
Proof.
  unfold wellFormedItem. intros W. repeat (apply andb_true_iff in W as [W ?]).
  repeat match goal with H : negb _ = true |- _ => apply negb_true_iff in H end.
  repeat split; try assumption.
  - intros E. rewrite E in W. discriminate.
  - intros s. destruct (entry it) as [|c x]; [discriminate | assumption].
Qed.

Lemma plainText_parts x :
  plainText x = true ->
  free isMarkdownChar x = true /\ free isLineTerminator x = true /\ free isLt x = true.
Proof.
  unfold plainText. intros H. apply andb_true_iff in H as [H H3].
  apply andb_true_iff in H as [H1 H2]. auto.
Qed.

(** The items under the pass for the items: each becomes a list element,
    and the line break in front of it goes. *)
Lemma bullet_items items :
  forallb wellFormedItem items = true ->
  forall pc p tail,
    tail = EmptyString \/ headIs isLineTerminator tail = true ->
    render (wrap1 "li")
      (scan_from no_flags re_bullet 0 pc p
         (String.concat EmptyString (map itemSource items) ++ tail))
    = (String.concat EmptyString (map itemHtml items)
       ++ render (wrap1 "li")
            (scan_from no_flags re_bullet 0
               (lastc pc (String.concat EmptyString (map itemSource items)))
               (p + String.length (String.concat EmptyString (map itemSource items)))
               tail))%string.
Proof.
  induction items as [|it items IH]; intros W pc p tail T.
  - cbn [map String.concat append lastc String.length]. now rewrite Nat.add_0_r.
  - cbn [forallb] in W. apply andb_true_iff in W as [W1 W2].
    destruct (item_parts it W1) as [Ng [Wg [_ [Px [Hx _]]]]].
    destruct (plainText_parts _ Px) as [_ [Lx _]].
    rewrite !concat_items, append_assoc, lastc_append, length_append.
    destruct (bullet_hit (gap it) (entry it)
                (String.concat EmptyString (map itemSource items) ++ tail) pc p
                Ng Wg (Hx _) Lx (itemsSource_head items tail T)) as [mt [E [Wh G]]].
    unfold itemSource at 1.
    rewrite (scan_hit no_flags re_bullet pc p (nl ++ "-" ++ gap it ++ entry it) _ mt);
      [| discriminate | exact E | exact Wh].
    cbn [render]. unfold wrap1 at 1. rewrite G.
    fold (itemSource it). rewrite (IH W2 _ _ tail T), Nat.add_assoc.
    unfold itemHtml. rewrite !append_assoc. cbn [append]. reflexivity.
Qed.

(** The pass for the items over a list. *)
Lemma bullet_pass pre items following :
  plainText pre = true -> headIs isDash pre = false ->
  items <> [] ->
  forallb wellFormedItem items = true ->
  followingOk following = true ->
  replace_all no_flags re_bullet (wrap1 "li") (listSource pre items following)
  = (pre ++ String.concat EmptyString (map itemHtml items)
     ++ followingSource following)%string.
Proof.
  intros Pp Dp Ni W Fo. unfold replace_all, scan, listSource.
  destruct (plainText_parts _ Pp) as [Mp [Lp _]].
  assert (Hp : headIs (fun c => isDash c || Ascii.eqb c "*") pre = false).
  { destruct pre as [|c pre]; [reflexivity|]. cbn [headIs] in *. rewrite Dp.
    apply head_free in Mp. cbn [headIs] in Mp. now apply markdown_star in Mp. }
  rewrite (bullet_text pre None 0 _ Lp (or_intror Hp)), render_app, render_keep.
  f_equal.
  assert (T : followingSource following = EmptyString \/
              headIs isLineTerminator (followingSource following) = true)
    by (destruct following; [now right | now left]).
  rewrite (bullet_items items W _ _ _ T). f_equal.
  set (pc := lastc (lastc None pre) _).
  assert (Npc : pc <> None).
  { apply lastc_nonempty. destruct items as [|it items]; [congruence|].
    rewrite concat_items. discriminate. }
  generalize (0 + String.length pre
              + String.length (String.concat EmptyString (map itemSource items))).
  intros p. destruct following as [q|]; cbn [followingSource followingOk] in *.
  - apply andb_true_iff in Fo as [Pq Dq]. apply negb_true_iff in Dq.
    destruct (plainText_parts _ Pq) as [Mq [Lq _]].
    assert (Hq : headIs (fun c => isDash c || Ascii.eqb c "*") q = false).
    { destruct q as [|c q]; [reflexivity|]. cbn [headIs] in *. rewrite Dq.
      apply head_free in Mq. cbn [headIs] in Mq. now apply markdown_star in Mq. }
    change (nl ++ q)%string with (String newline q).
    rewrite scan_miss by (now apply bullet_blank).
    assert (Nn : Some newline <> None) by discriminate.
    pose proof (bullet_text q (Some newline) (S p) EmptyString Lq (or_introl Nn)) as BT.
    rewrite append_nil_r in BT. rewrite BT, scan_end.
    + cbn [render]. now rewrite app_nil_r, render_keep.
    + apply bullet_miss; [reflexivity | left; apply lastc_Some].
  - rewrite scan_end; [reflexivity|].
    apply bullet_miss; [reflexivity | now left].
Qed.

(** The pattern of the list elements starts with an opening angle bracket. *)
Lemma head_lt s : headIs isLt s = false -> headIs (char_eq no_flags "<") s = false.
Proof.
  destruct s as [|c s]; [reflexivity|]. cbn [headIs]. unfold isLt.
  cbn [char_eq no_flags ignoreCase]. now rewrite Ascii.eqb_sym.
Qed.

Lemma li_miss pc p s :
  headIs isLt s = false -> match_at no_flags re_li_run pc p s = None.
Proof.
  intros H. unfold match_at, re_li_run. rewrite m_plus, m_group. cbn [cat].
  rewrite m_seq. apply lit_miss. cbn [clear_caps rest]. now apply head_lt.
Qed.

(** The repetition stops in front of anything but an opening angle
    bracket. *)
Lemma li_stop {A} st (k : @cont A) fuel w r2 :
  headIs isLt (rest st) = false ->
  repeat_loop
    (fun x c => m no_flags (Group 1 (Seq (lit (String "<" w)) r2)) (clear_caps [1] x) c)
    true fuel st k = k st.
Proof.
  intros H. destruct fuel as [|f]; cbn [repeat_loop]; [reflexivity|].
  rewrite m_group, m_seq, lit_miss; [reflexivity|].
  destruct st as [pc p s cs]. cbn [clear_caps rest] in *. now apply head_lt.
Qed.

Lemma not_not_free q x :
  free q x = true -> free (fun c => negb (negb (q c))) x = true.
Proof.
  induction x as [|c x IH]; [reflexivity|]. cbn [free]. intros F.
  apply andb_true_iff in F as [F1 F2]. now rewrite negb_involutive, F1, IH.
Qed.

(** A run of list elements on one line, with the line break after it when
    there is one, is one match of the pattern of the elements. *)
Lemma li_hit body (b : bool) q pc p :
  free isLineTerminator body = true ->
  headIs isLt q = false ->
  (b = false -> q = EmptyString) ->
  exists mt,
    match_at no_flags re_li_run pc p
      (("<li>" ++ body ++ "</li>" ++ (if b then nl else EmptyString)) ++ q) = Some mt /\
    whole mt = ("<li>" ++ body ++ "</li>" ++ (if b then nl else EmptyString))%string.
Proof.
  intros F Hq Bq.
  set (brk := if b then nl else EmptyString).
  set (s := (brk ++ q)%string).
  set (input := (("<li>" ++ body ++ "</li>" ++ brk) ++ q)%string).
  assert (I : input = ("<li>" ++ body ++ "</li>" ++ s)%string)
    by (unfold input, s; now rewrite !append_assoc).
  assert (Hs : headIs (char_eq no_flags "<") s = false).
  { unfold s, brk. destruct b; [reflexivity|]. rewrite (Bq eq_refl). reflexivity. }
  assert (Ds : headIs (fun c => negb (isLineTerminator c)) s = false).
  { unfold s, brk. destruct b; [reflexivity|]. rewrite (Bq eq_refl). reflexivity. }
  unfold match_at, re_li_run.
  set (final := fun st' : mstate => Some _).
  set (st0 := {| prevc := pc; pos := p; rest := input; caps := [] |}).
  rewrite m_plus. cbn [groups_of cat app].
  change (1 :: groups_of (lit "<li>") ++ groups_of (lit "</li>") ++ []) with [1].
  set (loopk := fun st' : mstate => repeat_loop _ true (String.length (rest st')) st' final).
  change (clear_caps [1] st0) with st0.
  rewrite m_group, m_seq.
  set (kG := fun st' : mstate =>
               loopk (set_cap 1 (substring 0 (pos st' - pos st0) (rest st0)) st')).
  assert (Tail : forall st, rest st = ("</li>" ++ s)%string ->
            exists st'', pos st'' = pos st + 5 + String.length brk /\
              m no_flags (Seq (lit "</li>") (Opt true (Char newline))) st kG = final st'').
  { intros st R. rewrite m_seq.
    destruct (lit_forward no_flags "</li>" ltac:(discriminate) st s
                (fun st' => m no_flags (Opt true (Char newline)) st' kG) R)
      as [st2 [R2 [P2 [_ [_ E2]]]]].
    rewrite E2, m_opt. cbn [groups_of]. rewrite clear_caps_none.
    unfold s in R2. unfold brk in *. destruct b.
    - cbn [nl append] in R2.
      rewrite m_char_lit, (m_char_hit _ st2 _ newline q R2 (char_eq_refl _ _)).
      cbn [pos advance].
      replace (pos st2 <? S (pos st2)) with true by (symmetry; apply Nat.ltb_lt; lia).
      unfold kG at 1, loopk at 1.
      rewrite li_stop by (cbn [rest set_cap advance]; exact Hq).
      unfold final at 1. cbn [orelse].
      eexists. split; [|reflexivity]. cbn [pos set_cap advance]. rewrite P2.
      cbn [String.length nl append]. lia.
    - rewrite (Bq eq_refl) in R2. cbn [append] in R2.
      rewrite m_char_lit, m_char_miss by (rewrite R2; reflexivity).
      cbn [orelse]. unfold kG, loopk.
      rewrite li_stop by (cbn [rest set_cap]; rewrite R2; reflexivity).
      eexists. split; [|reflexivity]. cbn [pos set_cap]. rewrite P2.
      cbn [String.length]. lia. }
  destruct (lit_forward no_flags "<li>" ltac:(discriminate) st0 (body ++ "</li>" ++ s)%string
              (fun st' => m no_flags
                 (Seq (Star true Dot) (Seq (lit "</li>") (Opt true (Char newline)))) st' kG) I)
    as [st1 [R1 [P1 [_ [_ E1]]]]].
  rewrite E1, m_seq, m_star.
  destruct (greedy_back no_flags Dot (fun c => negb (isLineTerminator c))
              (fun st' => m no_flags (Seq (lit "</li>") (Opt true (Char newline))) st' kG)
              (fun st k' => m_dot no_flags st k') eq_refl
              body "</li>" (String.length (rest st1)) st1 s (not_not_free _ _ F) Ds R1)
    as [st2 [R2 [P2 [_ [_ E2]]]]].
  - rewrite R1, length_append. lia.
  - intros y1 y2 st' E Ny R. rewrite m_seq. apply lit_miss. rewrite R.
    destruct y1 as [|a1 y1]; [congruence|]. cbn [append] in E. injection E as _ E.
    do 4 (destruct y1 as [|? y1]; cbn [append] in E;
          [subst y2; reflexivity | injection E as _ E]).
    destruct y1; cbn [append] in E; [subst y2; exact Hs | discriminate].
  - intros st' R. destruct (Tail st' R) as [st'' [_ E]]. rewrite E. discriminate.
  - rewrite E2. destruct (Tail st2 R2) as [st3 [P3 E3]]. rewrite E3.
    eexists. split; [reflexivity|]. cbn [whole].
    replace (pos st3 - p) with (String.length ("<li>" ++ body ++ "</li>" ++ brk)%string).
    + apply substring_prefix.
    + rewrite P3, P2, P1. cbn [pos st0 append String.length].
      rewrite !length_append. cbn [String.length]. lia.
Qed.

(** The list elements of the items, side by side: one line that starts and
    ends with the tags of an element. *)
Lemma items_shape items :
  items <> [] -> forallb wellFormedItem items = true ->
  exists body,
    String.concat EmptyString (map itemHtml items) = ("<li>" ++ body ++ "</li>")%string /\
    free isLineTerminator body = true.
Proof.
  induction items as [|it items IH]; [congruence|]. intros _ W.
  cbn [forallb] in W. apply andb_true_iff in W as [W1 W2].
  destruct (item_parts it W1) as [_ [_ [_ [Px _]]]].
  destruct (plainText_parts _ Px) as [_ [Lx _]].
  rewrite concat_items. destruct items as [|it2 items].
  - exists (entry it). split; [|exact Lx].
    cbn [map String.concat]. unfold itemHtml. now rewrite !append_nil_r.
  - destruct (IH ltac:(discriminate) W2) as [body [E Fb]]. rewrite E.
    exists (entry it ++ "</li>" ++ "<li>" ++ body)%string. split.
    + unfold itemHtml. cbn [append]. now rewrite !append_assoc.
    + rewrite !free_append, Lx, Fb. reflexivity.
Qed.

(** The pass that wraps the elements: one list around all of them, which
    takes the line break after the last one in. *)
Lemma li_pass pre items following :
  free isLt pre = true -> items <> [] ->
  forallb wellFormedItem items = true ->
  followingOk following = true ->
  replace_all no_flags re_li_run (wrapWhole "ul")
    (pre ++ String.concat EmptyString (map itemHtml items) ++ followingSource following)
  = listHtml pre items following.
Proof.
  intros Fp Ni W Fo. destruct (items_shape items Ni W) as [body [E Fb]].
  unfold replace_all, scan, listHtml. rewrite E.
  rewrite (scan_free no_flags re_li_run isLt pre li_miss Fp), render_app, render_keep.
  f_equal.
  generalize (lastc None pre), (0 + String.length pre). intros pc p.
  destruct following as [q|]; cbn [followingSource followingHtml followingOk] in *.
  - apply andb_true_iff in Fo as [Pq _].
    destruct (plainText_parts _ Pq) as [_ [_ Fq]].
    destruct (li_hit body true q pc p Fb (head_free _ _ Fq) ltac:(discriminate))
      as [mt [Em Wm]].
    replace (("<li>" ++ body ++ "</li>") ++ nl ++ q)%string
      with (("<li>" ++ body ++ "</li>" ++ nl) ++ q)%string
      by (cbn [append]; now rewrite !append_assoc).
    rewrite (scan_hit no_flags re_li_run pc p ("<li>" ++ body ++ "</li>" ++ nl) q mt);
      [| discriminate | exact Em | exact Wm].
    cbn [render]. unfold wrapWhole. rewrite Wm.
    pose proof (scan_free no_flags re_li_run isLt q li_miss Fq
                  (lastc pc ("<li>" ++ body ++ "</li>" ++ nl))
                  (p + String.length ("<li>" ++ body ++ "</li>" ++ nl)) EmptyString) as Sq.
    rewrite append_nil_r in Sq. rewrite Sq, scan_end by (now apply li_miss).
    rewrite app_nil_r, render_keep. cbn [append]. now rewrite !append_assoc.
  - destruct (li_hit body false EmptyString pc p Fb eq_refl (fun _ => eq_refl))
      as [mt [Em Wm]].
    rewrite !append_nil_r in *.
    pose proof (scan_hit no_flags re_li_run pc p ("<li>" ++ body ++ "</li>") EmptyString mt)
      as Sh.
    rewrite !append_nil_r in Sh. rewrite Sh; [| discriminate | exact Em | exact Wm].
    rewrite scan_end by (now apply li_miss).
    cbn [render]. unfold wrapWhole. rewrite Wm. cbn [append]. now rewrite !append_assoc.
Qed.

Lemma space_no_lt c : negb (isWhiteSpace c) = false -> isLt c = false.
Proof. destruct c as [[] [] [] [] [] [] [] []]; vm_compute; congruence. Qed.

Lemma space_not_markdown c : negb (isWhiteSpace c) = false -> isMarkdownChar c = false.
Proof. intros H. apply space_no_markdown. now apply negb_false_iff in H. Qed.

(** What a list in its source form is free of. *)
Lemma list_free (Q : ascii -> bool) pre items following :
  (forall c, negb (isWhiteSpace c) = false -> Q c = false) -> Q "-"%char = false ->
  (forall x, plainText x = true -> free Q x = true) ->
  plainText pre = true -> forallb wellFormedItem items = true ->
  followingOk following = true ->
  free Q (listSource pre items following) = true.
Proof.
  intros Qs Qd Qp Pp W Fo. unfold listSource. rewrite !free_append, (Qp _ Pp).
  cbn [andb]. apply andb_true_iff. split.
  - induction items as [|it items IH]; [reflexivity|].
    cbn [forallb] in W. apply andb_true_iff in W as [W1 W2].
    destruct (item_parts it W1) as [_ [Wg [_ [Px _]]]].
    rewrite concat_items, free_append, (IH W2), andb_true_r.
    unfold itemSource. cbn [nl append free].
    rewrite (Qs newline eq_refl), Qd, free_append, (Qp _ Px), andb_true_r.
    cbn [negb andb]. now apply (free_weaken (fun c => negb (isWhiteSpace c))).
  - destruct following as [q|]; [|reflexivity]. cbn [followingSource followingOk] in *.
    apply andb_true_iff in Fo as [Pq _]. cbn [nl append free].
    now rewrite (Qs newline eq_refl), (Qp _ Pq).
Qed.

Lemma free_lt_includes a : free isLt a = true -> includes a "<ul>" = false.
Proof.
  induction a as [|c a IH]; [reflexivity|]. cbn [free includes startsWith]. intros H.
  apply andb_true_iff in H as [H1 H2]. unfold isLt in H1. apply negb_true_iff in H1.
  now rewrite Ascii.eqb_sym, H1, (IH H2).
Qed.

Lemma includes_at a b p : startsWith b p = true -> includes (a ++ b) p = true.
Proof.
  intros H. induction a as [|c a IH].
  - destruct b; cbn [append includes]; now rewrite H.
  - cbn [append includes]. rewrite IH. apply orb_true_r.
Qed.

(** A list in its source form meets the condition of step 4. *)
Lemma list_loose pre it items following :
  plainText pre = true -> forallb wellFormedItem (it :: items) = true ->
  followingOk following = true ->
  hasLooseBullets (listSource pre (it :: items) following) = true.
Proof.
  intros Pp W Fo. unfold hasLooseBullets.
  rewrite (free_lt_includes _ (list_free isLt pre (it :: items) following space_no_lt
                                 eq_refl (fun x P => proj2 (proj2 (plainText_parts x P)))
                                 Pp W Fo)).
  cbn [negb andb]. apply orb_true_iff. left. unfold listSource. apply includes_at.
  rewrite concat_items, append_assoc. apply startsWith_append.
  cbn [forallb] in W. apply andb_true_iff in W as [W1 _].
  destruct (item_parts it W1) as [_ [_ [_ [_ [_ Sg]]]]].
  unfold itemSource. cbn [nl append startsWith]. rewrite !Ascii.eqb_refl. cbn [andb].
  now apply startsWith_append.
Qed.

(** A paragraph line, a list of items marked with a dash, and possibly one
    more line: the corrector makes each item a list element and puts one
    list around them, which takes in the line break after the last item;
    the text of the items and of the two lines is kept as it is. *)
Theorem forceHtmlStructure_dash_list pre it items following :
  plainText pre = true -> headIs isDash pre = false ->
  forallb wellFormedItem (it :: items) = true ->
  followingOk following = true ->
  forceHtmlStructure (listSource pre (it :: items) following)
  = trim (listHtml pre (it :: items) following).
Proof.
  intros Pp Dp W Fo. unfold forceHtmlStructure.
  rewrite markup_free.
  2:{ apply list_free; try assumption; [exact space_not_markdown | reflexivity |].
      intros x P. apply (plainText_parts x P). }
  unfold convertLists. rewrite (list_loose pre it items following Pp W Fo).
  rewrite (bullet_pass pre (it :: items) following Pp Dp ltac:(discriminate) W Fo).
  rewrite li_pass; [reflexivity | | discriminate | exact W | exact Fo].
  apply (plainText_parts pre Pp).
Qed.

Lemma forceHtmlStructure_dash_list_witness :
  forceHtmlStructure ("Intro:" ++ nl ++ "- first" ++ nl ++ "-  second one" ++ nl ++ "Outro.")
  = ("Intro:<ul><li>first</li><li>second one</li>" ++ nl ++ "</ul>Outro.")%string.
Proof.
  apply (forceHtmlStructure_dash_list "Intro:" first_item more_items
           (Some "Outro."%string)); reflexivity.
Defined.

End ListFacts.

(** ** The link validator on a fragment *)

Module SanitizerFacts.
Import AiService StringFacts RegexFacts JsSetFacts MatcherMore AiServiceFacts AiServiceMore.
Import CorrectorFacts ListFacts.


Section Platform.
Variable URL_pathname : string -> option string.

(** The two assignments of lines 57-63 make the test of the
    specification. *)
Lemma classify_spec siteUrl href :
  classify URL_pathname siteUrl href
  = if internalHref siteUrl href then (true, normalize URL_pathname href)
    else (false, EmptyString).
Proof.
  unfold AiService.classify, internalHref, truthy. cbv zeta.
  destruct (startsWith (toLowerCase href) "/"); [reflexivity|].
  destruct (negb (String.eqb siteUrl EmptyString) && includes (toLowerCase href) siteUrl);
    [reflexivity|].
  cbn [orb]. rewrite !negb_orb.
  now destruct (_ && _).
Qed.

(** The test on the set of the valid paths is the test on the nodes. *)
Lemma knownPath_spec validNodes path :
  isValidPath (validPathsOf URL_pathname validNodes) path
  = knownPath URL_pathname validNodes path.
Proof.
  apply Bool.eq_iff_eq_true. rewrite (isValidPath_iff URL_pathname). unfold knownPath.
  rewrite existsb_exists. split.
  - intros [vp [Hv H]]. apply validPathsOf_In in Hv as [n [Hn ->]]. exists n.
    split; [exact Hn|]. cbv zeta.
    destruct H as [-> | [H | H]];
      [now rewrite String.eqb_refl | now rewrite H, orb_true_r | now rewrite H, orb_true_r].
  - intros [n [Hn H]]. exists (normalize URL_pathname (SemanticNode.url n)).
    split; [apply validPathsOf_In; now exists n|]. cbv zeta in H.
    apply orb_true_iff in H as [H | H].
    + apply orb_true_iff in H as [H | H]; [left; now apply String.eqb_eq | now right; left].
    + now right; right.
Qed.

End Platform.

(** *** The anchor pattern on a plain anchor *)

















(** *** Prose and fragments *)





Section Platform.
Variable URL_pathname : string -> option string.



(** C10. With at least one node, an anchor whose address is internal and
    normalizes to the empty path passes the validity test, since every
    valid path ends with the empty string: the callback returns the anchor
    of class [sota-internal-link] with the address and the text, and not
    the span of a removed link. *)
Theorem sanitizeAnchor_empty_path (validNodes : list SemanticNode.t)
    (siteUrl : string) (mt : rmatch) :
  validNodes <> [] ->
  internalHref siteUrl (trim (group 2 mt)) = true ->
  normalize URL_pathname (trim (group 2 mt)) = EmptyString ->
  (forall vp, endsWith vp EmptyString = true) /\
  isValidPath (validPathsOf URL_pathname validNodes) EmptyString = true /\
  sanitizeAnchor URL_pathname (validPathsOf URL_pathname validNodes) siteUrl mt
  = ("<a href=" ++ dq ++ trim (group 2 mt) ++ dq ++ " class=" ++ dq
     ++ "sota-internal-link" ++ dq ++ " title=" ++ dq
     ++ "Read more: " ++ unquoted (group 3 mt) ++ dq ++ ">" ++ group 3 mt ++ "</a>")%string /\
  sanitizeAnchor URL_pathname (validPathsOf URL_pathname validNodes) siteUrl mt
  <> ("<span class=" ++ dq ++ "sota-text-highlight" ++ dq ++ " title=" ++ dq
      ++ "Link removed by validator (404 prevention)" ++ dq ++ ">" ++ group 3 mt
      ++ "</span>")%string.
Proof.
  intros Hn Hi Hp. split; [apply endsWith_nil|].
  assert (K : knownPath URL_pathname validNodes EmptyString = true).
  { destruct validNodes as [|n l]; [congruence|]. unfold knownPath. cbn [existsb].
    now rewrite endsWith_nil, !orb_true_r. }
  split; [now rewrite knownPath_spec|].
  assert (E : sanitizeAnchor URL_pathname (validPathsOf URL_pathname validNodes) siteUrl mt
              = ("<a href=" ++ dq ++ trim (group 2 mt) ++ dq ++ " class=" ++ dq
                 ++ "sota-internal-link" ++ dq ++ " title=" ++ dq
                 ++ "Read more: " ++ unquoted (group 3 mt) ++ dq ++ ">" ++ group 3 mt
                 ++ "</a>")%string).
  { unfold AiService.sanitizeAnchor. cbv zeta. rewrite classify_spec, Hi, Hp.
    rewrite knownPath_spec, K. unfold internalLinkHtml. rewrite linkTitle_unquoted.
    now rewrite !append_assoc. }
  split; [exact E|]. rewrite E. cbn [append]. discriminate.
Qed.
End Platform.



Lemma sanitizeAnchor_empty_path_witness :
  scan flag_i re_anchor (whole home_anchor) = [Hit home_anchor] /\
  sanitizeAnchor no_URL (validPathsOf no_URL [widget_node]) "https://site.example" home_anchor
  = ("<a href=" ++ dq ++ "/" ++ dq ++ " class=" ++ dq ++ "sota-internal-link" ++ dq
     ++ " title=" ++ dq ++ "Read more: Home" ++ dq ++ ">Home</a>")%string.
Proof.
  split; [vm_compute; reflexivity|].
  apply (sanitizeAnchor_empty_path no_URL [widget_node] "https://site.example" home_anchor).
  - discriminate.
  - reflexivity.
  - vm_compute. reflexivity.
Defined.

End SanitizerFacts.

(** ** The retry loop *)

Module EngineFacts.
Import Keywords Parse Engine StringFacts KeywordsFacts ParseFacts.

(** The message of the adapter for a status below 1000 holds 401 or 403
    for these two statuses only. *)
Lemma status_message s :
  s < 1000 ->
  isAuthError ("Provider Error (" ++ decimal s ++ ")") = (s =? 401) || (s =? 403).
Proof.
  intros H.
  assert (A : forallb (fun s => Bool.eqb
                         (isAuthError ("Provider Error (" ++ decimal s ++ ")"))
                         ((s =? 401) || (s =? 403))) (seq 0 1000) = true)
    by (vm_compute; reflexivity).
  rewrite forallb_forall in A. apply Bool.eqb_prop. apply A. apply in_seq. lia.
Qed.

Lemma parse_ok_fields JSON_parse URL_pathname text references topKeywords validNodes config r :
  parseAIResponse JSON_parse URL_pathname text references topKeywords validNodes config
  = Ok r ->
  keywordsUsed r = topKeywords /\ referencesHTML r = referencesHtmlOf references.
Proof.
  unfold parseAIResponse. cbv zeta. intros H.
  destruct text as [[|c0 t]|]; try discriminate.
  destruct (JSON_parse _) as [parsed|]; [|discriminate].
  assert (A : assemble URL_pathname parsed references topKeywords validNodes config = Some r).
  { destruct parsed; try discriminate; destruct (assemble _ _ _ _ _ _); congruence. }
  unfold assemble in A. destruct (orElse _ _); try discriminate.
  injection A as <-. split; reflexivity.
Qed.

Section Platform.
Variable JSON_parse : string -> option json.
Variable URL_pathname : string -> option string.
Variable engineSort : list (string * fval) -> list (string * fval).
Variable fetch : nat -> string -> string -> string -> string -> string -> result Response.
Variable callGemini : nat -> string -> string -> string -> string -> result (option string).
Variable nullReadMessage : string.
Variable systemPrompt userMessage : string.
Variable semanticNeighbors : list SemanticNode.t.
Variable externalRefs : list ReferenceData.
Variable config : AIConfig.

Let attempt_ :=
  attempt JSON_parse URL_pathname fetch callGemini nullReadMessage systemPrompt userMessage
    semanticNeighbors externalRefs config.
Let attempts_ :=
  attempts JSON_parse URL_pathname fetch callGemini nullReadMessage systemPrompt userMessage
    semanticNeighbors externalRefs config.
Let run :=
  analyzeAndGenerateAssets JSON_parse URL_pathname engineSort fetch callGemini
    nullReadMessage systemPrompt userMessage semanticNeighbors externalRefs config.
Let keywords := extractTopKeywordsWith engineSort externalRefs.

Lemma attempt_first kws :
  fst (attempt_ kws 0) = configuredCall config systemPrompt userMessage.
Proof.
  unfold attempt_, attempt, configuredCall. cbn [Nat.eqb fst].
  destruct (isGemini (provider config)); reflexivity.
Qed.

Lemma attempt_later kws i :
  fst (attempt_ kws (S i)) = fallbackCall config systemPrompt userMessage.
Proof. reflexivity. Qed.

(** What an attempt gives when it succeeds. *)
Lemma attempt_ok kws i r :
  snd (attempt_ kws i) = Ok r ->
  keywordsUsed r = kws /\ referencesHTML r = referencesHtmlOf externalRefs.
Proof.
  unfold attempt_, attempt. cbv zeta. cbn [snd]. intros H.
  destruct (snd _) as [responseText | message]; [|discriminate].
  unfold parseReply in H.
  destruct responseText as [v|]; [|exact (parse_ok_fields _ _ _ _ _ _ _ _ H)].
  destruct v; try (destruct (truthyJson _); discriminate).
  exact (parse_ok_fields _ _ _ _ _ _ _ _ H).
Qed.

(** The loop, unrolled. *)
Lemma attempts_unrolled kws :
  let c0 := configuredCall config systemPrompt userMessage in
  let fb := fallbackCall config systemPrompt userMessage in
  attempts_ kws MAX_RETRIES 0
  = match snd (attempt_ kws 0) with
    | Ok r => ([c0], Ok r)
    | Throw m0 =>
        if isAuthError m0 then ([c0], Throw m0)
        else
          match snd (attempt_ kws 1) with
          | Ok r => ([c0; Wait 2000; fb], Ok r)
          | Throw m1 =>
              if isAuthError m1 then ([c0; Wait 2000; fb], Throw m1)
              else
                match snd (attempt_ kws 2) with
                | Ok r => ([c0; Wait 2000; fb; Wait 3000; fb], Ok r)
                | Throw m2 =>
                    if isAuthError m2
                    then ([c0; Wait 2000; fb; Wait 3000; fb], Throw m2)
                    else ([c0; Wait 2000; fb; Wait 3000; fb],
                          Throw ("AI Generation Failed: " ++ m2)%string)
                end
          end
    end.
Proof.
  cbv zeta. unfold attempts_, MAX_RETRIES. cbn [attempts]. unfold MAX_RETRIES.
  cbn [Nat.eqb Nat.sub Nat.add Nat.mul]. fold attempt_.
  pose proof (attempt_first kws) as F0.
  pose proof (attempt_later kws 0) as F1.
  pose proof (attempt_later kws 1) as F2.
  unfold isAuthError.
  destruct (attempt_ kws 0) as [c0 [r0 | m0]]; cbn [fst snd] in *; subst c0; [reflexivity|].
  destruct (includes m0 "401" || includes m0 "403"); [reflexivity|].
  destruct (attempt_ kws 1) as [c1 [r1 | m1]]; cbn [fst snd] in *; subst c1; [reflexivity|].
  destruct (includes m1 "401" || includes m1 "403"); [reflexivity|].
  destruct (attempt_ kws 2) as [c2 [r2 | m2]]; cbn [fst snd] in *; subst c2; [reflexivity|].
  destruct (includes m2 "401" || includes m2 "403"); reflexivity.
Qed.

(** The key check comes first; the keywords do not decide whether the loop
    runs. *)
Lemma run_cases :
  (apiKey config = EmptyString /\ run = ([], Throw "Missing API Key")) \/
  (apiKey config <> EmptyString /\ run = attempts_ keywords MAX_RETRIES 0).
Proof.
  unfold run, analyzeAndGenerateAssets. fold attempts_. cbv zeta. fold keywords.
  destruct (String.eqb_spec (apiKey config) EmptyString) as [E | N]; [now left | now right].
Qed.

(** What a run does to the outside, whatever the references hold: nothing
    without an API key; otherwise one, two or three calls, the first as
    configured and the later ones to [gemini-1.5-flash] through the Gemini
    adapter, with a pause of two seconds before the second call and of
    three before the third, and no pause after the last. *)
Theorem analyzeAndGenerateAssets_trace :
  let c0 := configuredCall config systemPrompt userMessage in
  let fb := fallbackCall config systemPrompt userMessage in
  (apiKey config = EmptyString /\ run = ([], Throw "Missing API Key")) \/
  (apiKey config <> EmptyString /\
   (fst run = [c0] \/ fst run = [c0; Wait 2000; fb] \/
    fst run = [c0; Wait 2000; fb; Wait 3000; fb])).
Proof.
  intros c0 fb. destruct run_cases as [H | [N H]]; [now left|].
  right. split; [exact N|].
  rewrite H, attempts_unrolled. cbv zeta. fold c0 fb.
  destruct (snd (attempt_ keywords 0)) as [r0 | m0]; [auto|].
  destruct (isAuthError m0); [auto|].
  destruct (snd (attempt_ keywords 1)) as [r1 | m1]; [auto|].
  destruct (isAuthError m1); [auto|].
  destruct (snd (attempt_ keywords 2)) as [r2 | m2]; [auto|].
  destruct (isAuthError m2); auto.
Qed.

(** The errors of a run. Without an API key it is the missing key, before
    anything is sent. Otherwise the run ends with the error of one of the
    three attempts, all earlier attempts having failed with messages
    without 401 and 403: a message that holds 401 or 403 is thrown again
    as it is, at once; any other message is thrown only when it is that
    of the third attempt, behind a fixed prefix. The error after the loop
    is never thrown. *)
Theorem analyzeAndGenerateAssets_errors (message : string) :
  snd run = Throw message ->
  let c0 := configuredCall config systemPrompt userMessage in
  let fb := fallbackCall config systemPrompt userMessage in
  ((apiKey config = EmptyString /\ message = "Missing API Key" /\ fst run = []) \/
   (apiKey config <> EmptyString /\
    exists i m,
      i < 3 /\ snd (attempt_ keywords i) = Throw m /\
      (forall j, j < i ->
         exists mj, snd (attempt_ keywords j) = Throw mj /\ isAuthError mj = false) /\
      fst run = traceUpTo c0 fb i /\
      ((isAuthError m = true /\ message = m) \/
       (isAuthError m = false /\ i = 2 /\
        message = ("AI Generation Failed: " ++ m)%string)))) /\
  message <> "AI Generation Failed after retries.".
Proof.
  intros H c0 fb.
  assert (G : (apiKey config = EmptyString /\ message = "Missing API Key" /\ fst run = []) \/
   (apiKey config <> EmptyString /\
    exists i m,
      i < 3 /\ snd (attempt_ keywords i) = Throw m /\
      (forall j, j < i ->
         exists mj, snd (attempt_ keywords j) = Throw mj /\ isAuthError mj = false) /\
      fst run = traceUpTo c0 fb i /\
      ((isAuthError m = true /\ message = m) \/
       (isAuthError m = false /\ i = 2 /\
        message = ("AI Generation Failed: " ++ m)%string)))).
  { destruct run_cases as [[E R] | [N R]]; rewrite R in H |- *.
    - left. cbn [snd fst] in *. injection H as <-. auto.
    - right. split; [exact N|]. rewrite attempts_unrolled in H |- *. cbv zeta in H |- *.
      fold c0 fb in H |- *.
      destruct (snd (attempt_ keywords 0)) as [r0 | m0] eqn:E0; [discriminate|].
      destruct (isAuthError m0) eqn:A0.
      { injection H as <-. exists 0, m0. repeat split; auto; intros j Hj; lia. }
      destruct (snd (attempt_ keywords 1)) as [r1 | m1] eqn:E1; [discriminate|].
      assert (B1 : forall j, j < 1 ->
                exists mj, snd (attempt_ keywords j) = Throw mj /\ isAuthError mj = false).
      { intros j Hj. replace j with 0 by lia. now exists m0. }
      destruct (isAuthError m1) eqn:A1.
      { injection H as <-. exists 1, m1. repeat split; auto. }
      destruct (snd (attempt_ keywords 2)) as [r2 | m2] eqn:E2; [discriminate|].
      assert (B2 : forall j, j < 2 ->
                exists mj, snd (attempt_ keywords j) = Throw mj /\ isAuthError mj = false).
      { intros j Hj. destruct j as [|[|j]]; [now exists m0 | now exists m1 | lia]. }
      destruct (isAuthError m2) eqn:A2; injection H as <-; exists 2, m2;
        repeat split; auto. }
  split; [exact G|].
  destruct G as [[_ [-> _]] | [_ [i [m [_ [_ [_ [_ [[A ->] | [_ [_ ->]]]]]]]]]]];
    try discriminate.
  intros ->. discriminate.
Qed.

(** A result of a run carries the keywords drawn from the references (at
    most forty) and the list of sources built from them, whatever the
    reply said. *)
Theorem analyzeAndGenerateAssets_result (r : AIAnalysisResult) :
  snd run = Ok r ->
  keywordsUsed r = extractTopKeywordsWith engineSort externalRefs /\
  List.length (keywordsUsed r) <= 40 /\
  referencesHTML r = referencesHtmlOf externalRefs.
Proof.
  intros H.
  assert (R : keywordsUsed r = keywords /\ referencesHTML r = referencesHtmlOf externalRefs).
  { destruct run_cases as [[_ E] | [_ E]]; rewrite E in H; [discriminate|].
    rewrite attempts_unrolled in H. cbv zeta in H.
    destruct (snd (attempt_ keywords 0)) as [r0 | m0] eqn:E0;
      [injection H as <-; exact (attempt_ok _ _ _ E0)|].
    destruct (isAuthError m0); [discriminate|].
    destruct (snd (attempt_ keywords 1)) as [r1 | m1] eqn:E1;
      [injection H as <-; exact (attempt_ok _ _ _ E1)|].
    destruct (isAuthError m1); [discriminate|].
    destruct (snd (attempt_ keywords 2)) as [r2 | m2] eqn:E2;
      [injection H as <-; exact (attempt_ok _ _ _ E2)|].
    destruct (isAuthError m2); discriminate. }
  destruct R as [K R]. split; [exact K|]. split; [|exact R].
  rewrite K. unfold keywords, extractTopKeywordsWith.
  rewrite length_map. apply firstn_le_length.
Qed.

(** An HTTP error of the configured provider, whatever the references
    hold: the statuses 401 and 403 end the run at once, with the adapter's
    message; any other status is followed, after two seconds, by a call to
    the fallback model. *)
Theorem analyzeAndGenerateAssets_status (response : Response) :
  isGemini (provider config) = false ->
  apiKey config <> EmptyString ->
  fetch 0 (endpointOf (provider config)) (model config) (apiKey config)
    systemPrompt userMessage = Ok response ->
  ok response = false ->
  status response < 1000 ->
  let c0 := configuredCall config systemPrompt userMessage in
  let fb := fallbackCall config systemPrompt userMessage in
  (status response = 401 \/ status response = 403 ->
   run = ([c0], Throw ("Provider Error (" ++ decimal (status response) ++ ")")%string)) /\
  (status response <> 401 -> status response <> 403 ->
   exists trace outcome, run = (c0 :: Wait 2000 :: fb :: trace, outcome)).
Proof.
  intros G N F O S c0 fb.
  assert (R : run = attempts_ keywords MAX_RETRIES 0)
    by (destruct run_cases as [[E _] | [_ E]]; [congruence | exact E]).
  assert (A : snd (attempt_ keywords 0)
              = Throw ("Provider Error (" ++ decimal (status response) ++ ")")%string).
  { unfold attempt_, attempt. cbv zeta. cbn [Nat.eqb]. rewrite G. cbn [fst snd].
    unfold callOpenAICompatible. rewrite F, O. reflexivity. }
  rewrite R, attempts_unrolled. cbv zeta. fold c0 fb. rewrite A, (status_message _ S).
  split.
  - intros [E | E]; rewrite E; reflexivity.
  - intros N1 N2. apply Nat.eqb_neq in N1, N2. rewrite N1, N2. cbn [orb].
    destruct (snd (attempt_ keywords 1)) as [r1 | m1]; [now exists [], (Ok r1)|].
    destruct (isAuthError m1); [now exists [], (Throw m1)|].
    destruct (snd (attempt_ keywords 2)) as [r2 | m2]; [now exists [Wait 3000; fb], (Ok r2)|].
    destruct (isAuthError m2); eexists _, _; reflexivity.
Qed.

End Platform.

Lemma analyzeAndGenerateAssets_trace_witness :
  failing_run = (failing_trace, Throw "AI Generation Failed: Provider Error (500)") /\
  ((apiKey sample_config = EmptyString /\ failing_run = ([], Throw "Missing API Key")) \/
   (apiKey sample_config <> EmptyString /\
    (fst failing_run = [openai_call] \/
     fst failing_run = [openai_call; Wait 2000; flash_call] \/
     fst failing_run = [openai_call; Wait 2000; flash_call; Wait 3000; flash_call]))).
Proof.
  split; [vm_compute; reflexivity|].
  exact (analyzeAndGenerateAssets_trace parse_stub no_URL idleSort failingFetch failingGemini
           EmptyString "system" "prompt" [] laptop_refs sample_config).
Defined.

Lemma analyzeAndGenerateAssets_errors_witness :
  failing_run = (failing_trace, Throw "AI Generation Failed: Provider Error (500)") /\
  snd (failing_attempt (extractTopKeywordsWith idleSort laptop_refs) 2)
  = Throw "Provider Error (500)" /\
  ((apiKey sample_config = EmptyString /\
    "AI Generation Failed: Provider Error (500)"%string = "Missing API Key"%string /\
    fst failing_run = []) \/
   (apiKey sample_config <> EmptyString /\
    exists i m,
      i < 3 /\
      snd (failing_attempt (extractTopKeywordsWith idleSort laptop_refs) i) = Throw m /\
      (forall j, j < i ->
         exists mj,
           snd (failing_attempt (extractTopKeywordsWith idleSort laptop_refs) j) = Throw mj /\
           isAuthError mj = false) /\
      fst failing_run = traceUpTo openai_call flash_call i /\
      ((isAuthError m = true /\ "AI Generation Failed: Provider Error (500)"%string = m) \/
       (isAuthError m = false /\ i = 2 /\
        "AI Generation Failed: Provider Error (500)"%string
        = ("AI Generation Failed: " ++ m)%string)))) /\
  "AI Generation Failed: Provider Error (500)"%string <> "AI Generation Failed after retries."%string.
Proof.
  split; [vm_compute; reflexivity|]. split; [vm_compute; reflexivity|].
  assert (H : snd failing_run = Throw "AI Generation Failed: Provider Error (500)")
    by (vm_compute; reflexivity).
  exact (analyzeAndGenerateAssets_errors parse_stub no_URL idleSort failingFetch failingGemini
           EmptyString "system" "prompt" [] laptop_refs sample_config _ H).
Defined.

Lemma analyzeAndGenerateAssets_result_witness :
  replying_run = ([openai_call], Ok (reply_result laptop_refs laptop_keywords)) /\
  laptop_keywords <> [] /\
  referencesHtmlOf laptop_refs <> EmptyString /\
  keywordsUsed (reply_result laptop_refs laptop_keywords)
  = extractTopKeywordsWith idleSort laptop_refs /\
  List.length (keywordsUsed (reply_result laptop_refs laptop_keywords)) <= 40 /\
  referencesHTML (reply_result laptop_refs laptop_keywords) = referencesHtmlOf laptop_refs.
Proof.
  split; [vm_compute; reflexivity|]. split; [discriminate|].
  split; [vm_compute; discriminate|].
  assert (H : snd replying_run = Ok (reply_result laptop_refs laptop_keywords))
    by (vm_compute; reflexivity).
  exact (analyzeAndGenerateAssets_result parse_stub no_URL idleSort replyingFetch failingGemini
           EmptyString "system" "prompt" [] laptop_refs sample_config _ H).
Defined.

Lemma analyzeAndGenerateAssets_status_witness :
  denied_run = ([openai_call], Throw "Provider Error (401)").
Proof.
  apply (analyzeAndGenerateAssets_status parse_stub no_URL idleSort deniedFetch failingGemini
           EmptyString "system" "prompt" [] laptop_refs sample_config
           {| ok := false; status := 401; body := Ok JNull |}).
  - reflexivity.
  - discriminate.
  - reflexivity.
  - reflexivity.
  - cbn [status]. lia.
  - now left.
Defined.

End EngineFacts.
